(** * AuraFX: rate cache, cache keys and derived analytics

    A shallow embedding of the request cache of
    [src/app/services/frankfurter-api.service.ts] and of the numeric
    procedures of the analytics card, the chart component and the market
    overview, with the properties the specification states about them; and
    of the state that the currency service, the dashboard, the converter and
    the rates table keep, with the invariants the code maintains.

    Modelling conventions.
    - A JavaScript [number] is an IEEE 754 binary64 value: Rocq's primitive
      [float], with the same rounding, NaN and infinities.
    - [Date.now()] is an integer count of milliseconds: [Z].  Each read of the
      clock is an explicit argument of the function that performs it.
    - A JavaScript string is modelled as a [string] of 8-bit code units (the
      Latin-1 range of UTF-16).
    - A [Map] is an association list in insertion order without repeated
      keys: iteration order is list order.
    - [T | null] is [option T]. *)

From Stdlib Require Import Bool Arith ZArith Lia List Ascii String Permutation Sorted.
From Stdlib Require Uint63.
From Stdlib Require Import Floats.
Import ListNotations.

Set Warnings "-inexact-float".

(* ================================================================== *)
(** * JavaScript strings *)
(* ================================================================== *)

Module JsString.

Local Open Scope string_scope.
Local Open Scope nat_scope.

(** Code units that [String.prototype.trim] removes (white space and line
    terminators) below 256. *)
Definition is_ws (c : ascii) : bool :=
  let n := nat_of_ascii c in
  ((9 <=? n) && (n <=? 13)) || (n =? 32) || (n =? 160).

(** The character class [A-Z]. *)
Definition isAZ (c : ascii) : bool :=
  let n := nat_of_ascii c in (65 <=? n) && (n <=? 90).

(** The character class [0-9] (the regular expression's [\d]). *)
Definition isDigit (c : ascii) : bool :=
  let n := nat_of_ascii c in (48 <=? n) && (n <=? 57).

Fixpoint trimStart (s : string) : string :=
  match s with
  | EmptyString => EmptyString
  | String c r => if is_ws c then trimStart r else s
  end.

Fixpoint trimEnd (s : string) : string :=
  match s with
  | EmptyString => EmptyString
  | String c r =>
      match trimEnd r with
      | EmptyString => if is_ws c then EmptyString else String c EmptyString
      | r' => String c r'
      end
  end.

Definition trim (s : string) : string := trimEnd (trimStart s).

(** [toUpperCase] of one code unit.  The sharp s becomes two letters.  The
    micro sign and y with diaeresis have upper-case forms above 255, which
    this model cannot hold: they are left as they are, and neither they nor
    their upper-case forms are in [A-Z]. *)
Definition upper (c : ascii) : string :=
  let n := nat_of_ascii c in
  if (97 <=? n) && (n <=? 122) then String (ascii_of_nat (n - 32)) EmptyString
  else if n =? 223 then "SS"
  else if (224 <=? n) && (n <=? 254) && negb (n =? 247)
       then String (ascii_of_nat (n - 32)) EmptyString
  else String c EmptyString.

Fixpoint toUpperCase (s : string) : string :=
  match s with
  | EmptyString => EmptyString
  | String c r => upper c ++ toUpperCase r
  end.

(** [s.replace(/[^...]/g, '')]: keep the code units of the class. *)
Fixpoint keep (p : ascii -> bool) (s : string) : string :=
  match s with
  | EmptyString => EmptyString
  | String c r => if p c then String c (keep p r) else keep p r
  end.

(** [s.slice(0, n)]. *)
Fixpoint slice0 (n : nat) (s : string) : string :=
  match n, s with
  | S n', String c r => String c (slice0 n' r)
  | _, _ => EmptyString
  end.

Fixpoint forallb_str (p : ascii -> bool) (s : string) : bool :=
  match s with
  | EmptyString => true
  | String c r => p c && forallb_str p r
  end.

(** [arr.join(sep)]. *)
Definition join (sep : string) (l : list string) : string := concat sep l.

(** [s || d] on strings: the empty string is falsy. *)
Definition or_else (s d : string) : string :=
  match s with EmptyString => d | _ => s end.

Definition nonempty (s : string) : bool :=
  match s with EmptyString => false | _ => true end.

End JsString.

(* ================================================================== *)
(** * Input sanitizers and the cache-key builder *)
(* ================================================================== *)

Module Keys.

Import JsString.
Local Open Scope string_scope.
Local Open Scope nat_scope.

(** [/^[A-Z]{3}$/.test(s)] *)
Definition isCurrencyCode (s : string) : bool :=
  (String.length s =? 3) && forallb_str isAZ s.

(** [sanitizeCurrencyCode], at its callers' type [string]. *)
Definition sanitizeCurrencyCode (code : string) : string :=
  match code with
  | EmptyString => "EUR"
  | _ =>
      let sanitized := slice0 3 (keep isAZ (toUpperCase (trim code))) in
      if isCurrencyCode sanitized then sanitized else "EUR"
  end.

(** [Array.from(new Set(l))]: the first occurrence of each element, in the
    order of the list.  [seen] holds the elements already in the set. *)
Fixpoint dedup_from (seen : list string) (l : list string) : list string :=
  match l with
  | [] => []
  | x :: r =>
      if existsb (String.eqb x) seen then dedup_from seen r
      else x :: dedup_from (x :: seen) r
  end.

Definition dedup (l : list string) : list string := dedup_from [] l.

(** [sanitizeCurrencyArray]; [None] is an argument that is no array
    ([symbols] left out). *)
Definition sanitizeCurrencyArray (codes : option (list string)) : list string :=
  match codes with
  | None => []
  | Some l => dedup (filter isCurrencyCode (map sanitizeCurrencyCode l))
  end.

(** One argument of [buildCacheKey]: [string | string[] | undefined]. *)
Inductive Part : Type :=
| PStr (s : string)
| PArr (l : list string)
| PUndef.

Definition part_text (p : Part) : string :=
  match p with
  | PArr [] => "all"
  | PArr l => join "," l
  | PStr s => or_else s EmptyString
  | PUndef => EmptyString
  end.

Definition buildCacheKey (parts : list Part) : string :=
  slice0 200 (join "_" (filter nonempty (map part_text parts))).

(** The key of a request: the operation kind and the optional date or date
    range ([prefix], already sanitized), then base currency and symbols as
    [getLatestRates], [getHistoricalRate] and [getTimeSeries] pass them. *)
Definition requestKey (prefix : list string) (base : string)
    (symbols : option (list string)) : string :=
  buildCacheKey (map PStr prefix
                 ++ [PStr (sanitizeCurrencyCode base);
                     PArr (sanitizeCurrencyArray symbols)])%list.

Definition latestKey (base : string) (symbols : option (list string)) : string :=
  requestKey ["latest"] base symbols.

End Keys.

(* ================================================================== *)
(** * The symbol part of a key, by positions *)
(* ================================================================== *)

Module KeySpec.

Import JsString Keys.
Local Open Scope string_scope.
Local Open Scope nat_scope.

(** The elements of a list in order of first occurrence: the element at a
    position is kept exactly when it does not occur at an earlier position,
    and the elements kept stay in the order of their positions. *)
Definition firstOccurrences (l : list string) : list string :=
  flat_map
    (fun i =>
       match nth_error l i with
       | Some x => if existsb (String.eqb x) (firstn i l) then [] else [x]
       | None => []
       end)
    (seq 0 (List.length l)).

(** The symbol part of a key: the sanitized symbols in order of first
    occurrence, joined by commas; the word all for no symbol. *)
Definition symbolPart (symbols : list string) : string :=
  match firstOccurrences (map sanitizeCurrencyCode symbols) with
  | [] => "all"
  | x :: r => join "," (x :: r)
  end.

End KeySpec.

(* ================================================================== *)
(** * The rate cache: [Map<string, CacheEntry>] with expiry and eviction *)
(* ================================================================== *)

Module Cache.

Import JsString.
Local Open Scope Z_scope.

Section WithPayload.

(** The cached payload ([CacheEntry<unknown>]'s [data]). *)
Variable V : Type.

Record CacheEntry : Type := mkEntry { data : V; timestamp : Z }.

(** The [Map]: entries in insertion order. *)
Definition t : Type := list (string * CacheEntry).

Definition cacheTimeout : Z := 5 * 60 * 1000.
Definition maxCacheSize : nat := 100.

(** [Map.prototype.get] *)
Fixpoint map_get (key : string) (c : t) : option CacheEntry :=
  match c with
  | [] => None
  | (k, e) :: r => if String.eqb k key then Some e else map_get key r
  end.

(** [Map.prototype.set]: an existing key keeps its place, a new key goes
    last. *)
Fixpoint map_set (key : string) (e : CacheEntry) (c : t) : t :=
  match c with
  | [] => [(key, e)]
  | (k, e') :: r =>
      if String.eqb k key then (k, e) :: r else (k, e') :: map_set key e r
  end.

(** [Map.prototype.delete] *)
Fixpoint map_delete (key : string) (c : t) : t :=
  match c with
  | [] => []
  | (k, e) :: r =>
      if String.eqb k key then r else (k, e) :: map_delete key r
  end.

(** [Map.prototype.size] *)
Definition map_size (c : t) : nat := List.length c.

(** [getCached(key)] with [Date.now() = now]: the value returned and the
    cache it leaves. *)
Definition getCached (now : Z) (key : string) (c : t) : option V * t :=
  match map_get key c with
  | Some cached =>
      if now - timestamp cached <? cacheTimeout
      then (Some (data cached), c)
      else (None, map_delete key c)
  | None => (None, c)
  end.

(** The loop of [evictOldestCacheEntry]: [oldestKey] and [oldestTimestamp]
    after the entries seen so far. *)
Definition oldest_step (acc : option string * Z) (ke : string * CacheEntry)
  : option string * Z :=
  let '(oldestKey, oldestTimestamp) := acc in
  let '(key, entry) := ke in
  if timestamp entry <? oldestTimestamp
  then (Some key, timestamp entry)
  else (oldestKey, oldestTimestamp).

Definition oldest_scan (now : Z) (c : t) : option string * Z :=
  fold_left oldest_step c (None, now).

(** [evictOldestCacheEntry()] with [Date.now() = now].  [if (oldestKey)]
    is false for [null] and for the empty string. *)
Definition evictOldestCacheEntry (now : Z) (c : t) : t :=
  match fst (oldest_scan now c) with
  | Some oldestKey => if nonempty oldestKey then map_delete oldestKey c else c
  | None => c
  end.

(** [setCache(key, data)]: [nowEvict] is the clock read inside
    [evictOldestCacheEntry], [nowSet] the later one that stamps the entry. *)
Definition setCache (nowEvict nowSet : Z) (key : string) (d : V) (c : t) : t :=
  let c1 := if (maxCacheSize <=? map_size c)%nat
            then evictOldestCacheEntry nowEvict c else c in
  map_set key (mkEntry d nowSet) c1.

(** [cleanupCache()] *)
Definition cleanupCache (now : Z) (c : t) : t :=
  filter (fun ke => negb (cacheTimeout <=? now - timestamp (snd ke))) c.

(** One operation on the cache, with the clock values it reads. *)
Inductive Op : Type :=
| OpGet (now : Z) (key : string)
| OpSet (nowEvict nowSet : Z) (key : string) (d : V)
| OpCleanup (now : Z).

Definition run_op (c : t) (o : Op) : t :=
  match o with
  | OpGet now key => snd (getCached now key c)
  | OpSet nowEvict nowSet key d => setCache nowEvict nowSet key d c
  | OpCleanup now => cleanupCache now c
  end.

Definition run_ops (ops : list Op) (c : t) : t := fold_left run_op ops c.

(** The clock is ahead of the cache throughout a run: every insertion reads
    a clock value above all timestamps stored at that moment (and uses a
    non-empty key). *)
Fixpoint clock_ahead (c : t) (ops : list Op) : Prop :=
  match ops with
  | [] => True
  | o :: rest =>
      match o with
      | OpSet nowEvict _ key _ =>
          (forall k e, In (k, e) c -> timestamp e < nowEvict)
          /\ nonempty key = true
      | _ => True
      end
      /\ clock_ahead (run_op c o) rest
  end.

End WithPayload.

Arguments mkEntry {V} _ _.
Arguments data {V} _.
Arguments timestamp {V} _.
Arguments map_get {V} _ _.
Arguments map_set {V} _ _ _.
Arguments map_delete {V} _ _.
Arguments map_size {V} _.
Arguments getCached {V} _ _ _.
Arguments oldest_step {V} _ _.
Arguments oldest_scan {V} _ _.
Arguments evictOldestCacheEntry {V} _ _.
Arguments setCache {V} _ _ _ _ _.
Arguments cleanupCache {V} _ _.
Arguments OpGet {V} _ _.
Arguments OpSet {V} _ _ _ _.
Arguments OpCleanup {V} _.
Arguments run_op {V} _ _.
Arguments run_ops {V} _ _.
Arguments clock_ahead {V} _ _.

End Cache.

(* ================================================================== *)
(** * JavaScript numbers *)
(* ================================================================== *)

Module Num.

Local Open Scope float_scope.

(** The global [isFinite] on a number. *)
Definition isFinite (x : float) : bool := is_finite x.

(** An array length, a count or an index as a number. *)
Definition ofNat (n : nat) : float := of_uint63 (Uint63.of_Z (Z.of_nat n)).

(** [l.reduce((a, b) => a + b, 0)] *)
Definition sum (l : list float) : float := fold_left PrimFloat.add l 0.

(** A number in a condition: [0], [-0] and [NaN] are falsy. *)
Definition truthy (x : float) : bool := negb (is_zero x || is_nan x).

(** [x > y], [x >= y] *)
Definition gtb (x y : float) : bool := y <? x.
Definition geb (x y : float) : bool := y <=? x.

End Num.

(* ================================================================== *)
(** * JavaScript arrays *)
(* ================================================================== *)

Module JsArray.

Local Open Scope Z_scope.

(** [Array.prototype.slice(start, end)]: negative arguments count from the
    end, both are clamped to the array, and an empty range gives [[]]. *)
Definition slice {A : Type} (start stop : Z) (l : list A) : list A :=
  let len := Z.of_nat (List.length l) in
  let k := if start <? 0 then Z.max (len + start) 0 else Z.min start len in
  let final := if stop <? 0 then Z.max (len + stop) 0 else Z.min stop len in
  firstn (Z.to_nat (final - k)) (skipn (Z.to_nat k) l).

(** [arr.filter((v): v is number => v !== null && isFinite(v))] *)
Definition validNumbers (l : list (option float)) : list float :=
  flat_map (fun v => match v with
                     | Some x => if Num.isFinite x then [x] else []
                     | None => []
                     end) l.

(** A for loop [for (let i = 0; i < n; i++)] that threads a state. *)
Definition for_each {S : Type} (n : nat) (body : S -> nat -> S) (init : S) : S :=
  fold_left body (seq 0 n) init.

End JsArray.

(* ================================================================== *)
(** * JavaScript objects used as maps *)
(* ================================================================== *)

Module JsObject.

(** [Record<string, number>]: the own properties in insertion order. *)
Definition Rates : Type := list (string * float).

(** [o[key]]: [undefined] ([None]) for a key the object does not have. *)
Fixpoint lookup (key : string) (o : Rates) : option float :=
  match o with
  | [] => None
  | (k, v) :: r => if String.eqb k key then Some v else lookup key r
  end.

(** [o[key] = v] *)
Fixpoint assign (key : string) (v : float) (o : Rates) : Rates :=
  match o with
  | [] => [(key, v)]
  | (k, v') :: r =>
      if String.eqb k key then (k, v) :: r else (k, v') :: assign key v r
  end.

End JsObject.

(* ================================================================== *)
(** * Derived analytics: volatility, trend, moving averages *)
(* ================================================================== *)

Module Analytics.

Import Num JsArray.
Local Open Scope float_scope.

Inductive Trend : Type := Up | Down | Neutral.

(** [r => isFinite(r) && r > 0] *)
Definition validRate (r : float) : bool := isFinite r && gtb r 0.

(** ** The analytics card *)

(** [calculateVolatility(rates)]: the value it sets the [volatility] signal
    to. *)
Definition calculateVolatility (rates : list float) : option float :=
  if (List.length rates <? 2)%nat then None
  else
    let validRates := filter validRate rates in
    if (List.length validRates <? 2)%nat then None
    else
      let sum := fold_left PrimFloat.add validRates 0 in
      let mean := sum / ofNat (List.length validRates) in
      if negb (isFinite mean) || (mean =? 0) then None
      else
        let variance :=
          fold_left (fun sum rate => let diff := rate - mean in sum + diff * diff)
                    validRates 0
          / ofNat (List.length validRates) in
        let stdDev := sqrt variance in
        if negb (isFinite stdDev) then None
        else
          let volatilityPercent := (stdDev / mean) * 100 in
          if isFinite volatilityPercent then Some volatilityPercent else None.

(** [determineTrend(rates)]: the value it sets the [trend] signal to.
    [Math.floor(n / 2)] on a length is the integer quotient. *)
Definition determineTrend (rates : list float) : Trend :=
  if (List.length rates <? 2)%nat then Neutral
  else
    let validRates := filter validRate rates in
    if (List.length validRates <? 2)%nat then Neutral
    else
      let midPoint := (List.length validRates / 2)%nat in
      let firstHalf := firstn midPoint validRates in
      let secondHalf := skipn midPoint validRates in
      let firstSum := Num.sum firstHalf in
      let secondSum := Num.sum secondHalf in
      let firstAvg := firstSum / ofNat (List.length firstHalf) in
      let secondAvg := secondSum / ofNat (List.length secondHalf) in
      if negb (isFinite firstAvg) || negb (isFinite secondAvg) || (firstAvg =? 0)
      then Neutral
      else
        let change := ((secondAvg - firstAvg) / firstAvg) * 100 in
        if negb (isFinite change) then Neutral
        else if gtb change 0.1 then Up
        else if change <? -0.1 then Down
        else Neutral.

(** ** The chart component *)

Record Metrics : Type := mkMetrics {
  high : float;
  low : float;
  average : float;
  change : float;
  changePercent : float;
  volatility : float;
  trend : Trend
}.

(** [Math.max(...l)] and [Math.min(...l)], on the positive finite rates they
    are applied to (no NaN, no zero of either sign). *)
Definition mathMax (l : list float) : float :=
  fold_left (fun m x => if m <? x then x else m) l neg_infinity.
Definition mathMin (l : list float) : float :=
  fold_left (fun m x => if x <? m then x else m) l infinity.

(** The volatility of [calculateMetrics]. *)
Definition metricsVolatility (rates : list float) : float :=
  let average := Num.sum rates / ofNat (List.length rates) in
  let variance :=
    fold_left (fun sum rate => let diff := rate - average in sum + diff * diff)
              rates 0
    / ofNat (List.length rates) in
  if negb (average =? 0) then sqrt variance / average * 100 else 0.

(** The trend of [calculateMetrics]. *)
Definition metricsTrend (rates : list float) : Trend :=
  let midPoint := (List.length rates / 2)%nat in
  let firstHalf := firstn midPoint rates in
  let secondHalf := skipn midPoint rates in
  let firstSum := Num.sum firstHalf in
  let secondSum := Num.sum secondHalf in
  let firstAvg := firstSum / ofNat (List.length firstHalf) in
  let secondAvg := secondSum / ofNat (List.length secondHalf) in
  if gtb secondAvg (firstAvg * 1.01) then Up
  else if secondAvg <? firstAvg * 0.99 then Down
  else Neutral.

(** [calculateMetrics(data)]: the value it sets the [metrics] signal to.
    [series] holds [data.rates[date]?.[currency]] for the dates in sorted
    order, [None] where that is no number. *)
Definition calculateMetrics (series : list (option float)) : option Metrics :=
  let rates :=
    flat_map (fun r => match r with
                       | Some rate => if isFinite rate && gtb rate 0 then [rate] else []
                       | None => []
                       end) series in
  match rates with
  | [] => None
  | firstRate :: _ =>
      let high := mathMax rates in
      let low := mathMin rates in
      let sum := Num.sum rates in
      let average := sum / ofNat (List.length rates) in
      let lastRate := last rates firstRate in
      let change := lastRate - firstRate in
      let changePercent :=
        if negb (firstRate =? 0) then (change / firstRate) * 100 else 0 in
      Some (mkMetrics high low average change changePercent
                      (metricsVolatility rates) (metricsTrend rates))
  end.

(** [Math.max(2, Math.min(100, period))]; the periods are the integers of
    the [maPeriod] and [emaPeriod] signals. *)
Definition clampPeriod (period : Z) : Z := Z.max 2 (Z.min 100 period).

(** One turn of the loop of [calculateMA]: [result] after index [i]. *)
Definition ma_step (data : list (option float)) (period : Z)
    (result : list (option float)) (i : nat) : list (option float) :=
  let validPeriod := clampPeriod period in
  if (Z.of_nat i <? validPeriod - 1)%Z then result ++ [None]
  else
    let slice :=
      validNumbers (slice (Z.of_nat i - validPeriod + 1) (Z.of_nat i + 1) data) in
    if (0 <? List.length slice)%nat
    then result ++ [Some (Num.sum slice / ofNat (List.length slice))]
    else result ++ [None].

(** [calculateMA(data, period)] *)
Definition calculateMA (data : list (option float)) (period : Z)
  : list (option float) :=
  for_each (List.length data) (ma_step data period) [].

(** [2 / (validPeriod + 1)] *)
Definition multiplier (period : Z) : float :=
  2 / ofNat (Z.to_nat (clampPeriod period + 1)).

(** One turn of the loop of [calculateEMA]: the state is [ema] and
    [result]. *)
Definition ema_step (data : list (option float)) (period : Z)
    (st : option float * list (option float)) (i : nat)
  : option float * list (option float) :=
  let '(ema, result) := st in
  match nth i data None with
  | None => (ema, result ++ [None])
  | Some x =>
      if negb (isFinite x) then (ema, result ++ [None])
      else
        let ema' :=
          match ema with
          | None =>
              let firstValues :=
                validNumbers
                  (slice 0 (Z.min (clampPeriod period) (Z.of_nat i + 1)) data) in
              if (0 <? List.length firstValues)%nat
              then Some (Num.sum firstValues / ofNat (List.length firstValues))
              else None
          | Some e => Some ((x - e) * multiplier period + e)
          end in
        (ema', result ++ [ema'])
  end.

(** [calculateEMA(data, period)] *)
Definition calculateEMA (data : list (option float)) (period : Z)
  : list (option float) :=
  snd (for_each (List.length data) (ema_step data period) (None, [])).

End Analytics.

(* ================================================================== *)
(** * Currency strength (market overview) *)
(* ================================================================== *)

Module Strength.

Import Num JsObject.
Local Open Scope float_scope.

(** [CurrencyData] of the model; the optional fields are [option]s. *)
Record CurrencyData : Type := mkCurrencyData {
  cd_code : string;
  cd_name : string;
  cd_rate : float;
  cd_change24h : option float;
  cd_changePercent24h : option float
}.

Inductive StrengthTrend : Type := Strong | Moderate | Weak.

Record CurrencyStrength : Type := mkCurrencyStrength {
  cs_code : string;
  cs_name : string;
  cs_strength : float;
  cs_trend : StrengthTrend;
  cs_change24h : float;
  cs_change7d : float;
  cs_change30d : float
}.

Definition STRENGTH_THRESHOLD_STRONG : float := 2.
Definition STRENGTH_THRESHOLD_WEAK : float := -2.

(** [rate && rate > 0 && isFinite(rate) ? ((currentRate - rate) / rate) * 100 : 0] *)
Definition changeSince (currentRate : float) (past : option float) : float :=
  match past with
  | Some rate =>
      if truthy rate && gtb rate 0 && isFinite rate
      then ((currentRate - rate) / rate) * 100
      else 0
  | None => 0
  end.

(** [currency.changePercent24h && isFinite(currency.changePercent24h) ? ... : 0] *)
Definition change24hOf (currency : CurrencyData) : float :=
  match cd_changePercent24h currency with
  | Some c => if truthy c && isFinite c then c else 0
  | None => 0
  end.

Definition strengthOf (change24h change7d change30d : float) : float :=
  (change24h * 0.5) + (change7d * 0.3) + (change30d * 0.2).

Definition trendOf (strength : float) : StrengthTrend :=
  if gtb strength STRENGTH_THRESHOLD_STRONG then Strong
  else if strength <? STRENGTH_THRESHOLD_WEAK then Weak
  else Moderate.

(** The body of the loop over [currencies]: [results] after one currency. *)
Definition strength_step (historical7d historical30d : Rates)
    (results : list CurrencyStrength) (currency : CurrencyData)
  : list CurrencyStrength :=
  let currentRate := cd_rate currency in
  if negb (isFinite currentRate) || (currentRate <=? 0) then results
  else
    let rate7d := lookup (cd_code currency) historical7d in
    let rate30d := lookup (cd_code currency) historical30d in
    let change7d := changeSince currentRate rate7d in
    let change30d := changeSince currentRate rate30d in
    let change24h := change24hOf currency in
    let strength := strengthOf change24h change7d change30d in
    let trend := trendOf strength in
    if isFinite strength
    then results ++ [mkCurrencyStrength
                       (cd_code currency) (cd_name currency) strength trend
                       (if isFinite change24h then change24h else 0)
                       (if isFinite change7d then change7d else 0)
                       (if isFinite change30d then change30d else 0)]
    else results.

(** [Array.prototype.sort(compare)]: the sort is stable, so for a comparator
    that is a consistent order the result is the one of insertion from the
    left, each element going behind those that do not compare greater. *)
Fixpoint insert_by {A : Type} (compare : A -> A -> float) (x : A) (l : list A)
  : list A :=
  match l with
  | [] => [x]
  | y :: r => if gtb (compare y x) 0 then x :: y :: r
              else y :: insert_by compare x r
  end.

Definition sort_by {A : Type} (compare : A -> A -> float) (l : list A) : list A :=
  fold_left (fun acc x => insert_by compare x acc) l [].

(** [calculateStrengths()] on the values of the three signals. *)
Definition calculateStrengths (currencies : list CurrencyData)
    (historical7d historical30d : Rates) : list CurrencyStrength :=
  match currencies with
  | [] => []
  | _ =>
      let results :=
        fold_left (strength_step historical7d historical30d) currencies [] in
      sort_by (fun a b => cs_strength b - cs_strength a) results
  end.

End Strength.

(* ================================================================== *)
(** * The API service: latest rates and conversion *)
(* ================================================================== *)

Module Service.

Import JsString Keys Num JsObject.
Local Open Scope string_scope.

(** What an observable delivers to its subscriber: one value, or an
    error. *)
Inductive Emission (T : Type) : Type :=
| Next (v : T)
| Failed.
Arguments Next {T} _.
Arguments Failed {T}.

(** The operator [map(f)] *)
Definition obs_map {A B : Type} (f : A -> B) (e : Emission A) : Emission B :=
  match e with Next v => Next (f v) | Failed => Failed end.

(** The operator [catchError(() => handler)] *)
Definition catchError {A : Type} (handler : Emission A) (e : Emission A)
  : Emission A :=
  match e with Next v => Next v | Failed => handler end.

Record ExchangeRate : Type := mkExchangeRate {
  base : string;
  date : string;
  rates : Rates
}.

(** The body of an HTTP response, of type [unknown] in the source: an object
    with the optional fields of the declared [ExchangeRate], or anything
    else ([null], [undefined], a primitive). *)
Inductive Body : Type :=
| BodyObject (b : option string) (d : option string) (r : option Rates)
| BodyOther.

(** The result of one subscription to [http.get]. *)
Inductive HttpResult : Type :=
| HttpOk (body : Body)
| HttpError.

(** The operator [retry(count)] on the request: after an error it subscribes
    again, [count] times at most.  [outcomes] are the results of the
    successive subscriptions; a subscription without a recorded result
    fails. *)
Fixpoint retry (count : nat) (outcomes : list HttpResult) : Emission Body :=
  match outcomes with
  | HttpOk body :: _ => Next body
  | HttpError :: rest =>
      match count with
      | O => Failed
      | S count' => retry count' rest
      end
  | [] => Failed
  end.

Definition retryAttempts : nat := 2.

(** An argument of type [unknown] where a number is declared. *)
Inductive JsValue : Type :=
| VNumber (x : float)
| VString (s : string)
| VOther.

Section Host.

(** The host's [parseFloat]. *)
Variable parseFloat : string -> float.
(** [!isNaN(new Date(s).getTime())]: whether the host parses [s] as a
    date. *)
Variable dateParses : string -> bool.
(** [new Date().toISOString().split('T')[0]] *)
Variable today : string.

(** [/^\d{4}-\d{2}-\d{2}$/.test(s)] *)
Definition isDateShape (s : string) : bool :=
  match list_ascii_of_string s with
  | [y1; y2; y3; y4; h1; m1; m2; h2; d1; d2] =>
      forallb isDigit [y1; y2; y3; y4; m1; m2; d1; d2]
      && Ascii.eqb h1 "-" && Ascii.eqb h2 "-"
  | _ => false
  end.

(** [sanitizeDate], on a string. *)
Definition sanitizeDate (date : string) : string :=
  match date with
  | EmptyString => today
  | _ =>
      let sanitized :=
        slice0 10 (keep (fun c => isDigit c || Ascii.eqb c "-") (trim date)) in
      if negb (isDateShape sanitized) then today
      else if negb (dateParses sanitized) then today
      else sanitized
  end.

Definition createEmptyExchangeRate (base : string) : ExchangeRate :=
  mkExchangeRate (or_else (sanitizeCurrencyCode base) "EUR") today [].

(** [validateExchangeRate(data, base)]; the rates of the body are numbers,
    as declared, so [Number(value)] is [value]. *)
Definition validateExchangeRate (data : Body) (base : string) : ExchangeRate :=
  match data with
  | BodyOther => createEmptyExchangeRate base
  | BodyObject rate_base rate_date rate_rates =>
      match rate_base, rate_rates with
      | Some b, Some entries =>
          if negb (nonempty b) then createEmptyExchangeRate base
          else
            let sanitizedRates :=
              fold_left
                (fun acc kv =>
                   let sanitizedKey := sanitizeCurrencyCode (fst kv) in
                   let numValue := snd kv in
                   if nonempty sanitizedKey && isFinite numValue && gtb numValue 0
                   then assign sanitizedKey numValue acc
                   else acc)
                entries [] in
            mkExchangeRate
              (or_else (sanitizeCurrencyCode b) base)
              (match rate_date with Some d => sanitizeDate d | None => today end)
              sanitizedRates
      | _, _ => createEmptyExchangeRate base
      end
  end.

Definition getFallbackExchangeRate (base : string) : Emission ExchangeRate :=
  Next (createEmptyExchangeRate base).

(** [getLatestRates(base, symbols)] and its one subscription, run to the
    end: what the subscriber receives and the cache afterwards.  [tGet],
    [tEvict] and [tSet] are the clock reads of [getCached] and
    [setCache]. *)
Definition getLatestRates (tGet tEvict tSet : Z)
    (base : string) (symbols : option (list string))
    (cache : Cache.t ExchangeRate) (outcomes : list HttpResult)
  : Emission ExchangeRate * Cache.t ExchangeRate :=
  let sanitizedBase := sanitizeCurrencyCode base in
  let sanitizedSymbols := sanitizeCurrencyArray symbols in
  let cacheKey :=
    buildCacheKey [PStr "latest"; PStr sanitizedBase; PArr sanitizedSymbols] in
  match Cache.getCached tGet cacheKey cache with
  | (Some cached, cache1) => (Next cached, cache1)
  | (None, cache1) =>
      let validated :=
        obs_map (fun data => validateExchangeRate data sanitizedBase)
                (retry retryAttempts outcomes) in
      let cache2 :=
        match validated with
        | Next data => Cache.setCache tEvict tSet cacheKey data cache1
        | Failed => cache1
        end in
      (catchError (getFallbackExchangeRate sanitizedBase) validated, cache2)
  end.

(** [sanitizeAmount(amount)] *)
Definition sanitizeAmount (amount : JsValue) : float :=
  match amount with
  | VNumber x => if isFinite x && geb x 0 then x else 0%float
  | VString s =>
      let parsed := parseFloat s in
      if isFinite parsed && geb parsed 0 then parsed else 0%float
  | VOther => 0%float
  end.

(** [convertCurrency(from, to, amount)] and its one subscription. *)
Definition convertCurrency (tGet tEvict tSet : Z)
    (from to : string) (amount : JsValue)
    (cache : Cache.t ExchangeRate) (outcomes : list HttpResult)
  : Emission float * Cache.t ExchangeRate :=
  let sanitizedFrom := sanitizeCurrencyCode from in
  let sanitizedTo := sanitizeCurrencyCode to in
  let sanitizedAmount := sanitizeAmount amount in
  if (sanitizedAmount <=? 0)%float then (Next 0%float, cache)
  else
    let '(latest, cache') :=
      getLatestRates tGet tEvict tSet sanitizedFrom (Some [sanitizedTo])
                     cache outcomes in
    (catchError (Next 0%float)
       (obs_map
          (fun data =>
             match lookup sanitizedTo (rates data) with
             | None => 0%float
             | Some rate =>
                 if negb (truthy rate) || negb (isFinite rate) || (rate <=? 0)%float
                 then 0%float
                 else
                   let result := (sanitizedAmount * rate)%float in
                   if isFinite result then result else 0%float
             end)
          latest),
     cache').

End Host.

End Service.

(* ================================================================== *)
(** * A request scenario: 101 different conversions *)
(* ================================================================== *)

Module Scenario.

Import JsString Keys.
Local Open Scope string_scope.

Definition letter (i : nat) : ascii := ascii_of_nat (65 + i).

(** The codes AAA, AAB, ..., ADW. *)
Definition codeOf (i : nat) : string :=
  String "A" (String (letter (i / 26)) (String (letter (i mod 26)) EmptyString)).

(** The cache keys of [getLatestRates('EUR', [code])] for 101 codes. *)
Definition keys : list string :=
  map (fun i => latestKey "EUR" (Some [codeOf i])) (seq 0 101).

(** One [setCache] per key; the [i]-th reads [Date.now() = clock i], and its
    payload is the number of the request. *)
Definition puts (clock : nat -> Z) : list (Cache.Op nat) :=
  map (fun ik => Cache.OpSet (clock (fst ik)) (clock (fst ik)) (snd ik) (fst ik))
      (combine (seq 0 101) keys).

(** All responses arrive within one tick of the clock. *)
Definition sameTick (i : nat) : Z := 1000.

(** The responses arrive 10 ms apart; before the last one the wall clock is
    set back. *)
Definition clockSetBack (i : nat) : Z :=
  if (i <? 100)%nat then (1000 + 10 * Z.of_nat i)%Z else 500%Z.

End Scenario.

(* ================================================================== *)
(** * The statistics in the words of the specification *)
(* ================================================================== *)

Module Spec.

Import Num Analytics.
Local Open Scope float_scope.

(** The valid subset of a series: its finite, positive values. *)
Definition validSubset (series : list float) : list float :=
  filter validRate series.

(** The numbers among the values looked up for the dates of a series. *)
Definition present (series : list (option float)) : list float :=
  flat_map (fun r => match r with Some x => [x] | None => [] end) series.

(** Arithmetic mean: the sum divided by the count. *)
Definition mean (l : list float) : float := Num.sum l / ofNat (List.length l).

(** Arithmetic mean of a set that may be empty: a mean over no value is
    absent. *)
Definition meanOpt (l : list float) : option float :=
  match l with [] => None | _ => Some (mean l) end.

(** Population standard deviation: the root of the mean squared distance to
    the mean. *)
Definition populationStdDev (l : list float) : float :=
  sqrt (fold_left (fun acc x => acc + (x - mean l) * (x - mean l)) l 0
        / ofNat (List.length l)).

(** [volatility(series)] *)
Definition volatility (series : list float) : option float :=
  let v := validSubset series in
  if (List.length v <? 2)%nat then None
  else if (mean v =? 0) || negb (isFinite (mean v)) then None
  else Some (populationStdDev v / mean v * 100).

(** [trend(series)] *)
Definition trend (series : list float) : Trend :=
  let v := validSubset series in
  if (List.length v <? 2)%nat then Neutral
  else
    let mid := (List.length v / 2)%nat in
    let first := mean (firstn mid v) in
    let second := mean (skipn mid v) in
    if gtb second (first * 1.01) then Up
    else if second <? first * 0.99 then Down
    else Neutral.

(** The clamp of a period to [2, 100]. *)
Definition clamp (period : Z) : nat :=
  Z.to_nat (if (period <? 2)%Z then 2%Z
            else if (100 <? period)%Z then 100%Z else period).

(** The trailing window of [p] elements that ends at index [i]. *)
Definition trailingWindow {A : Type} (p i : nat) (data : list A) : list A :=
  firstn p (skipn (i + 1 - p) data).

(** The valid points of a series of optional values: the values that are
    present and finite, in their order. *)
Definition validPoints (series : list (option float)) : list float :=
  filter is_finite (present series).

(** [movingAverage(series, period)] at index [i]: absent below index
    [period - 1], then the mean of the valid points of the trailing window of
    [period] elements. *)
Definition movingAverageAt (data : list (option float)) (period : Z) (i : nat)
  : option float :=
  if (i <? clamp period - 1)%nat then None
  else meanOpt (validPoints (trailingWindow (clamp period) i data)).

(** The last value that is present in a list of outputs: the state the EMA
    recursion resumes from. *)
Definition lastPresent (outputs : list (option float)) : option float :=
  fold_left (fun acc o => match o with Some x => Some x | None => acc end)
            outputs None.

(** The smoothing factor [2 / (period + 1)]. *)
Definition smoothing (period : Z) : float := 2 / ofNat (clamp period + 1).

(** The seed of the exponential moving average as the specification words
    it: the simple average of the valid values among the first up-to-period
    inputs. *)
Definition seedAsStated (data : list (option float)) (period : Z)
  : option float :=
  meanOpt (validPoints (firstn (clamp period) data)).

(** The first output that is present. *)
Definition firstPresent (outputs : list (option float)) : option float :=
  hd_error (present outputs).

(** [exponentialMovingAverage(series, period)] at index [i], where [prev] is
    the last EMA value before [i], if there is one: an input that is absent
    or not finite gives no output; without a previous value a valid input
    gives the seed when it is one of the first [period] inputs, the average
    of this one value, and no output otherwise; with a previous value it
    gives [(current - prev) * factor + prev]. *)
Definition emaAt (data : list (option float)) (period : Z)
    (prev : option float) (i : nat) : option float :=
  match nth i data None with
  | None => None
  | Some current =>
      if is_finite current then
        match prev with
        | None => if (i <? clamp period)%nat then Some (mean [current]) else None
        | Some prevEma => Some ((current - prevEma) * smoothing period + prevEma)
        end
      else None
  end.

(** A change term of the strength score: the percentage change of the
    current rate against a past rate, 0 where the past rate is unavailable,
    non-finite or not positive. *)
Definition changeTerm (current : float) (past : option float) : float :=
  match past with
  | None => 0
  | Some rate =>
      if isFinite rate && gtb rate 0 then (current - rate) / rate * 100 else 0
  end.

(** The 24 hour change term: the change the currency carries, 0 where it is
    unavailable or non-finite (and for a zero of either sign). *)
Definition change24Term (change : option float) : float :=
  match change with
  | None => 0
  | Some c => if isFinite c && negb (is_zero c) then c else 0
  end.

(** The weighted composite score. *)
Definition strengthScore (change24h change7d change30d : float) : float :=
  0.5 * change24h + 0.3 * change7d + 0.2 * change30d.

Definition scoreOf (c : Strength.CurrencyData)
    (historical7d historical30d : JsObject.Rates) : float :=
  strengthScore
    (change24Term (Strength.cd_changePercent24h c))
    (changeTerm (Strength.cd_rate c)
                (JsObject.lookup (Strength.cd_code c) historical7d))
    (changeTerm (Strength.cd_rate c)
                (JsObject.lookup (Strength.cd_code c) historical30d)).

(** Strong above +2, weak below -2, moderate otherwise. *)
Definition classify (score : float) : Strength.StrengthTrend :=
  if gtb score 2 then Strength.Strong
  else if score <? -2 then Strength.Weak
  else Strength.Moderate.

Definition finiteOrZero (x : float) : float := if isFinite x then x else 0.

(** The entry of a currency in the result set: none for an invalid current
    rate and none for a non-finite score. *)
Definition strengthEntry (historical7d historical30d : JsObject.Rates)
    (c : Strength.CurrencyData) : option Strength.CurrencyStrength :=
  if validRate (Strength.cd_rate c)
     && isFinite (scoreOf c historical7d historical30d)
  then Some (Strength.mkCurrencyStrength
               (Strength.cd_code c) (Strength.cd_name c)
               (scoreOf c historical7d historical30d)
               (classify (scoreOf c historical7d historical30d))
               (finiteOrZero (change24Term (Strength.cd_changePercent24h c)))
               (finiteOrZero
                  (changeTerm (Strength.cd_rate c)
                     (JsObject.lookup (Strength.cd_code c) historical7d)))
               (finiteOrZero
                  (changeTerm (Strength.cd_rate c)
                     (JsObject.lookup (Strength.cd_code c) historical30d))))
  else None.

End Spec.

(* ================================================================== *)
(** * Well-formed rate data *)
(* ================================================================== *)

Module WellFormed.

Import Keys Num JsObject.
Local Open Scope float_scope.

(** A rate mapping as the validators leave it: distinct three-letter codes,
    each with a finite rate above 0. *)
Definition validRates (r : Rates) : Prop :=
  NoDup (map fst r)
  /\ forall code rate, In (code, rate) r ->
       isCurrencyCode code = true /\ isFinite rate = true /\ (0 <? rate) = true.

Definition validExchangeRate (er : Service.ExchangeRate) : Prop :=
  isCurrencyCode (Service.base er) = true /\ validRates (Service.rates er).

(** Every payload of the cache is well formed. *)
Definition validCache (c : Cache.t Service.ExchangeRate) : Prop :=
  forall key e, In (key, e) c -> validExchangeRate (Cache.data e).

(** The body of the loop of [validateExchangeRate] over the entries of the
    response. *)
Definition rates_step (acc : Rates) (kv : string * float) : Rates :=
  let sanitizedKey := sanitizeCurrencyCode (fst kv) in
  let numValue := snd kv in
  if JsString.nonempty sanitizedKey && isFinite numValue && gtb numValue 0
  then assign sanitizedKey numValue acc
  else acc.

(** The response body that holds a given rate object. *)
Definition bodyOf (er : Service.ExchangeRate) : Service.Body :=
  Service.BodyObject (Some (Service.base er)) (Some (Service.date er))
                     (Some (Service.rates er)).

End WellFormed.

(* ================================================================== *)
(** * Signs of binary64 numbers *)
(* ================================================================== *)

Module FloatSign.

(** A number in its specification form is not negative: its sign bit is
    clear, or it is NaN (which no comparison finds negative). *)
Definition SFnonneg (x : spec_float) : Prop :=
  match x with
  | S754_zero s | S754_infinity s | S754_finite s _ _ => s = false
  | S754_nan => True
  end.

Definition nonneg (x : float) : Prop := SFnonneg (Prim2SF x).

End FloatSign.

(* ================================================================== *)
(** * The analytics card: week and month figures *)
(* ================================================================== *)

Module Card.

Import Num JsObject Analytics.
Local Open Scope float_scope.

(** The signals of the card that the data handlers write. *)
Record State : Type := mkState {
  weekHigh : option float;
  weekLow : option float;
  monthHigh : option float;
  monthLow : option float;
  volatility : option float;
  trend : Trend;
  avg7Days : option float;
  avg30Days : option float
}.

(** The signals at construction. *)
Definition initial : State :=
  mkState None None None None None Neutral None None.

(** [extractRates(data, currencyCode)]: [data] is the [rates] object of the
    time series, one object of rates per day in the order of its keys;
    [None] is a payload without such an object. *)
Definition extractRates (data : option (list (string * Rates)))
    (currencyCode : string) : list float :=
  match data with
  | None => []
  | Some ratesData =>
      flat_map
        (fun day =>
           match lookup currencyCode (snd day) with
           | Some rate => if isFinite rate && gtb rate 0 then [rate] else []
           | None => []
           end)
        ratesData
  end.

(** [processWeekData(rates)] *)
Definition processWeekData (rates : list float) (st : State) : State :=
  if (List.length rates =? 0)%nat then st
  else
    let validRates := filter validRate rates in
    if (List.length validRates =? 0)%nat then st
    else
      let sum := Num.sum validRates in
      mkState (Some (mathMax validRates)) (Some (mathMin validRates))
              (monthHigh st) (monthLow st)
              (calculateVolatility validRates)
              (determineTrend validRates)
              (Some (sum / ofNat (List.length validRates)))
              (avg30Days st).

(** [processMonthData(rates)] *)
Definition processMonthData (rates : list float) (st : State) : State :=
  if (List.length rates =? 0)%nat then st
  else
    let validRates := filter validRate rates in
    if (List.length validRates =? 0)%nat then st
    else
      let sum := Num.sum validRates in
      mkState (weekHigh st) (weekLow st)
              (Some (mathMax validRates)) (Some (mathMin validRates))
              (volatility st) (trend st) (avg7Days st)
              (Some (sum / ofNat (List.length validRates))).

End Card.

(* ================================================================== *)
(** * The market overview: historical rates and the two rankings *)
(* ================================================================== *)

Module Overview.

Import Num JsArray JsObject Strength.
Local Open Scope float_scope.

(** [strongestCurrencies], on the value of [currencyStrengths]. *)
Definition strongestCurrencies (strengths : list CurrencyStrength)
  : list CurrencyStrength :=
  slice 0 5
    (sort_by (fun a b => cs_strength b - cs_strength a)
       (filter (fun c => gtb (cs_strength c) STRENGTH_THRESHOLD_STRONG)
          strengths)).

(** [weakestCurrencies] *)
Definition weakestCurrencies (strengths : list CurrencyStrength)
  : list CurrencyStrength :=
  slice 0 5
    (sort_by (fun a b => cs_strength a - cs_strength b)
       (filter (fun c => cs_strength c <? STRENGTH_THRESHOLD_WEAK) strengths)).

(** The body of [symbols.forEach] in [extractRates]. *)
Definition extract_step (ratesData : Rates) (rates : Rates) (code : string)
  : Rates :=
  match lookup code ratesData with
  | Some rate =>
      if truthy rate && isFinite rate && gtb rate 0
      then assign code rate rates
      else rates
  | None => rates
  end.

(** [extractRates(data, symbols)]: [data] is the response to the request for
    the rates of a past day. *)
Definition extractRates (data : Service.Body) (symbols : list string) : Rates :=
  match data with
  | Service.BodyObject _ _ (Some ratesData) =>
      fold_left (extract_step ratesData) symbols []
  | _ => []
  end.

(** [getStrengthColor(strength)] *)
Definition getStrengthColor (strength : float) : StrengthTrend :=
  if gtb strength STRENGTH_THRESHOLD_STRONG then Strong
  else if strength <? STRENGTH_THRESHOLD_WEAK then Weak
  else Moderate.

End Overview.

(* ================================================================== *)
(** * The currency service: base currency, selection and currency data *)
(* ================================================================== *)

Module CurrencyService.

Import JsString Keys Num JsObject Strength.
Local Open Scope string_scope.
Local Open Scope nat_scope.

(** The character class of the five markup characters: the less-than and
    greater-than signs, the double and the single quote, the ampersand. *)
Definition isMarkup (c : ascii) : bool :=
  let n := nat_of_ascii c in
  (n =? 60) || (n =? 62) || (n =? 34) || (n =? 39) || (n =? 38).

(** [sanitizeString], on a string. *)
Definition sanitizeString (input : string) : string :=
  match input with
  | EmptyString => EmptyString
  | _ => slice0 100 (keep (fun c => negb (isMarkup c)) (trim input))
  end.

(** [sanitizeCurrencyArray] of this service: for an array it never gives the
    empty list.  Its [sanitizeCurrencyCode] is the one of the API service. *)
Definition sanitizeCurrencyArray (codes : option (list string)) : list string :=
  match codes with
  | None => []
  | Some l =>
      match dedup (filter isCurrencyCode (map sanitizeCurrencyCode l)) with
      | [] => ["USD"]
      | unique => unique
      end
  end.

(** The values of the two subjects [baseCurrency$] and
    [selectedCurrencies$]. *)
Record State : Type := mkState {
  baseCurrency : string;
  selectedCurrencies : list string
}.

Definition initial : State :=
  mkState "EUR" ["USD"; "GBP"; "JPY"; "CHF"; "AUD"; "CAD"].

(** [setBaseCurrency(currency)] *)
Definition setBaseCurrency (currency : string) (st : State) : State :=
  let sanitized := sanitizeCurrencyCode currency in
  if nonempty sanitized && negb (String.eqb sanitized (baseCurrency st))
  then mkState sanitized (selectedCurrencies st)
  else st.

(** [setSelectedCurrencies(currencies)]; [None] is an argument that is no
    array.  The two [JSON.stringify] texts of arrays of strings differ exactly
    when the arrays differ. *)
Definition setSelectedCurrencies (currencies : option (list string)) (st : State)
  : State :=
  match currencies with
  | None => st
  | Some l =>
      let sanitized := sanitizeCurrencyArray (Some l) in
      if (0 <? List.length sanitized)
         && negb (if list_eq_dec string_dec sanitized (selectedCurrencies st)
                  then true else false)
      then mkState (baseCurrency st) sanitized
      else st
  end.

(** What the service relies on: the base currency is a three-letter code and
    the selection is a list of distinct three-letter codes that is not
    empty. *)
Definition validState (st : State) : Prop :=
  isCurrencyCode (baseCurrency st) = true
  /\ selectedCurrencies st <> []
  /\ NoDup (selectedCurrencies st)
  /\ (forall code, In code (selectedCurrencies st) -> isCurrencyCode code = true).

(** The calls a client can make on the service. *)
Inductive Op : Type :=
| SetBase (currency : string)
| SetSelected (currencies : option (list string)).

Definition run_op (st : State) (op : Op) : State :=
  match op with
  | SetBase c => setBaseCurrency c st
  | SetSelected l => setSelectedCurrencies l st
  end.

Definition run_ops (ops : list Op) (st : State) : State :=
  fold_left run_op ops st.

(** [currencyMap[code] || code] *)
Fixpoint nameOf (code : string) (currencyMap : list (string * string)) : string :=
  match currencyMap with
  | [] => code
  | (k, v) :: r => if String.eqb k code then or_else v code else nameOf code r
  end.

(** The body of the loop over [sanitizedSymbols] in [getCurrencyData]:
    [result] after one code. *)
Definition currencyData_step (latestRates historicalRates : Rates)
    (currencyMap : list (string * string))
    (result : list CurrencyData) (code : string) : list CurrencyData :=
  match lookup code latestRates, lookup code historicalRates with
  | Some currentRate, Some previousRate =>
      if negb (isFinite currentRate) || negb (isFinite previousRate)
         || (currentRate <=? 0)%float || (previousRate <=? 0)%float
      then result
      else
        let change := (currentRate - previousRate)%float in
        let changePercent :=
          if negb (previousRate =? 0)%float
          then ((change / previousRate) * 100)%float else 0%float in
        (result ++
         [mkCurrencyData (sanitizeCurrencyCode code)
            (sanitizeString (nameOf code currencyMap))
            currentRate
            (if isFinite change then Some change else None)
            (if isFinite changePercent then Some changePercent else None)])%list
  | _, _ => result
  end.

(** The projection of [getCurrencyData] on the two responses; [None] is a
    response that failed or has no rates. *)
Definition currencyData (sanitizedSymbols : list string)
    (latest historical : option Rates) (currencyMap : list (string * string))
  : list CurrencyData :=
  match latest, historical with
  | Some latestRates, Some historicalRates =>
      fold_left (currencyData_step latestRates historicalRates currencyMap)
                sanitizedSymbols []
  | _, _ => []
  end.

(** [getCurrencyData()] for one value of the subjects and one pair of
    responses: [None] when the [filter] operator holds the value back. *)
Definition getCurrencyData (st : State) (latest historical : option Rates)
    (currencyMap : list (string * string)) : option (list CurrencyData) :=
  if isCurrencyCode (baseCurrency st)
     && (0 <? List.length (selectedCurrencies st))
  then
    let sanitizedSymbols := sanitizeCurrencyArray (Some (selectedCurrencies st)) in
    if List.length sanitizedSymbols =? 0 then Some []
    else Some (currencyData sanitizedSymbols latest historical currencyMap)
  else None.

End CurrencyService.

(* ================================================================== *)
(** * The dashboard: market statistics *)
(* ================================================================== *)

Module Dashboard.

Import Num Strength.
Local Open Scope float_scope.

Record MarketStats : Type := mkMarketStats {
  totalCurrencies : Z;
  gainers : Z;
  losers : Z;
  neutral : Z;
  avgChange : float
}.

(** [c.changePercent24h ?? 0] *)
Definition changeOf (c : CurrencyData) : float :=
  match cd_changePercent24h c with Some x => x | None => 0 end.

(** The body of the loop of [getMarketStats]: [gainers], [losers] and
    [changes] after one currency. *)
Definition stats_step (acc : Z * Z * list float) (c : CurrencyData)
  : Z * Z * list float :=
  let '(gainers, losers, changes) := acc in
  let change := changeOf c in
  if isFinite change then
    let changes' := (changes ++ [abs change])%list in
    if gtb change 0 then ((gainers + 1)%Z, losers, changes')
    else if change <? 0 then (gainers, (losers + 1)%Z, changes')
    else (gainers, losers, changes')
  else acc.

(** [getMarketStats()] on the value of the signal [currencies]. *)
Definition getMarketStats (data : list CurrencyData) : MarketStats :=
  match data with
  | [] => mkMarketStats 0 0 0 0 0
  | _ =>
      let '(gainers, losers, changes) := fold_left stats_step data (0%Z, 0%Z, []) in
      let neutral := (Z.of_nat (List.length data) - gainers - losers)%Z in
      let avgChange :=
        if (0 <? List.length changes)%nat
        then Num.sum changes / ofNat (List.length changes)
        else 0 in
      mkMarketStats (Z.of_nat (List.length data)) gainers losers neutral
                    (if isFinite avgChange then avgChange else 0)
  end.

End Dashboard.

(* ================================================================== *)
(** * The converter: favorites, targets and history *)
(* ================================================================== *)

Module Converter.

Import JsString Keys JsArray.
Local Open Scope string_scope.
Local Open Scope nat_scope.

(** [sanitizeCurrencyCode] of the converter: the empty string for what is
    no code. *)
Definition sanitizeCurrencyCode (code : string) : string :=
  match code with
  | EmptyString => EmptyString
  | _ =>
      let sanitized := slice0 3 (toUpperCase (trim code)) in
      if isCurrencyCode sanitized then sanitized else EmptyString
  end.

(** [arr.includes(x)] on an array of strings. *)
Definition includes (l : list string) (x : string) : bool :=
  existsb (String.eqb x) l.

(** [arr.filter(c => c !== x)] *)
Definition without (x : string) (l : list string) : list string :=
  filter (fun c => negb (String.eqb c x)) l.

(** The favorites at construction. *)
Definition initialFavorites : list string := ["USD"; "GBP"; "JPY"; "CHF"; "AUD"].

(** [toggleFavorite(currency)], on the value of [favoriteCurrencies]. *)
Definition toggleFavorite (currency : string) (favorites : list string)
  : list string :=
  let sanitized := sanitizeCurrencyCode currency in
  if negb (nonempty sanitized) then favorites
  else if includes favorites sanitized then without sanitized favorites
  else if List.length favorites <? 10 then (favorites ++ [sanitized])%list
  else favorites.

(** [canAddTarget] *)
Definition canAddTarget (multipleTargets : list string) : bool :=
  List.length multipleTargets <? 5.

(** [addTargetCurrency(currency)], on the value of [multipleTargets]. *)
Definition addTargetCurrency (currency : string) (multipleTargets : list string)
  : list string :=
  let sanitized := sanitizeCurrencyCode currency in
  if negb (nonempty sanitized) || includes multipleTargets sanitized
     || negb (canAddTarget multipleTargets)
  then multipleTargets
  else (multipleTargets ++ [sanitized])%list.

(** [removeTargetCurrency(currency)] *)
Definition removeTargetCurrency (currency : string)
    (multipleTargets : list string) : list string :=
  without (sanitizeCurrencyCode currency) multipleTargets.

(** [addToHistory(conversion)], on the value of [conversionHistory]. *)
Definition addToHistory {A : Type} (conversion : A) (history : list A) : list A :=
  slice 0 20 (conversion :: history).

End Converter.

(* ================================================================== *)
(** * The chart: overlay currencies *)
(* ================================================================== *)

Module Chart.

Import JsString.
Local Open Scope string_scope.
Local Open Scope nat_scope.

(** The character class [A-Z] under the flag [i]. *)
Definition isLetter (c : ascii) : bool :=
  let n := nat_of_ascii c in
  ((65 <=? n) && (n <=? 90)) || ((97 <=? n) && (n <=? 122)).

(** [sanitizeCurrencyCode] of the chart: the letters of the argument in upper
    case, three at most. *)
Definition sanitizeCurrencyCode (code : string) : string :=
  match code with
  | EmptyString => EmptyString
  | _ => slice0 3 (toUpperCase (keep isLetter code))
  end.

(** [toggleOverlayCurrency(code)], on the values of [selectedCurrency] and
    [overlayCurrencies]. *)
Definition toggleOverlayCurrency (selectedCurrency : string) (code : string)
    (overlays : list string) : list string :=
  let sanitizedCode := sanitizeCurrencyCode code in
  if negb (nonempty sanitizedCode) || String.eqb sanitizedCode selectedCurrency
  then overlays
  else if Converter.includes overlays sanitizedCode
  then Converter.without sanitizedCode overlays
  else if List.length overlays <? 5 then (overlays ++ [sanitizedCode])%list
  else overlays.

End Chart.

(* ================================================================== *)
(** * The rates table: search, pages and page numbers *)
(* ================================================================== *)

Module RatesTable.

Import JsString JsArray Strength.
Local Open Scope string_scope.

(** [toLowerCase] of one code unit: the letters A-Z and the upper-case
    letters of the Latin-1 range. *)
Definition lower (c : ascii) : ascii :=
  let n := nat_of_ascii c in
  if ((65 <=? n) && (n <=? 90))%nat then ascii_of_nat (n + 32)
  else if ((192 <=? n) && (n <=? 222) && negb (n =? 215))%nat
       then ascii_of_nat (n + 32)
  else c.

Fixpoint toLowerCase (s : string) : string :=
  match s with
  | EmptyString => EmptyString
  | String c r => String (lower c) (toLowerCase r)
  end.

(** [s.startsWith(t)] *)
Fixpoint startsWith (s t : string) : bool :=
  match t, s with
  | EmptyString, _ => true
  | String c t', String d s' => Ascii.eqb c d && startsWith s' t'
  | String _ _, EmptyString => false
  end.

(** [s.includes(t)] on strings: [t] occurs in [s]. *)
Fixpoint includes (s t : string) : bool :=
  startsWith s t
  || match s with
     | EmptyString => false
     | String _ r => includes r t
     end.

(** [sanitizeCurrencyCode] of the table: the letters of the argument in upper
    case, three at most. *)
Definition sanitizeCurrencyCode (code : string) : string :=
  match code with
  | EmptyString => EmptyString
  | _ => slice0 3 (toUpperCase (keep Chart.isLetter code))
  end.

(** [sanitizeInput(input)] *)
Definition sanitizeInput (input : string) : string :=
  match input with
  | EmptyString => EmptyString
  | _ => trim (keep (fun c => negb (CurrencyService.isMarkup c)) input)
  end.

(** The first stage of [filteredCurrencies]: the rows that the search term
    keeps. *)
Definition searchedCurrencies (searchTerm : string) (currencies : list CurrencyData)
  : list CurrencyData :=
  let term := trim (toLowerCase searchTerm) in
  if nonempty term then
    let sanitizedTerm := sanitizeInput term in
    filter
      (fun c =>
         let code := sanitizeCurrencyCode (cd_code c) in
         let name := sanitizeInput (toLowerCase (cd_name c)) in
         includes code sanitizedTerm || includes name sanitizedTerm)
      currencies
  else currencies.

Local Open Scope Z_scope.

(** [Math.ceil(a / b)] for a count [a] and a positive integer [b]: the
    quotient of two integers below 2^53 is rounded to an integer only when it
    is one. *)
Definition ceilDiv (a b : Z) : Z := - ((- a) / b).

(** [paginatedCurrencies], on the values of [filteredCurrencies],
    [currentPage] and [pageSize]. *)
Definition paginatedCurrencies {A : Type} (filtered : list A)
    (currentPage pageSize : Z) : list A :=
  let start := (currentPage - 1) * pageSize in
  let stop := start + pageSize in
  slice start stop filtered.

(** [totalPages] *)
Definition totalPages {A : Type} (filtered : list A) (pageSize : Z) : Z :=
  ceilDiv (Z.of_nat (List.length filtered)) pageSize.

(** [goToPage(page)], [previousPage()] and [nextPage()], on the values of
    [currentPage] and [totalPages]. *)
Definition goToPage (page total : Z) : Z := Z.max 1 (Z.min page total).

Definition previousPage (currentPage : Z) : Z :=
  if 1 <? currentPage then currentPage - 1 else currentPage.

Definition nextPage (currentPage total : Z) : Z :=
  if currentPage <? total then currentPage + 1 else currentPage.

(** The page controls of the table. *)
Inductive PageOp : Type :=
| GoTo (page : Z)
| Previous
| Next.

Definition run_page (total : Z) (currentPage : Z) (op : PageOp) : Z :=
  match op with
  | GoTo page => goToPage page total
  | Previous => previousPage currentPage
  | Next => nextPage currentPage total
  end.

(** [for (let i = lo; i <= hi; i++) pages.push(i)] *)
Definition pushRange (lo hi : Z) (pages : list Z) : list Z :=
  (pages ++ map (fun k => lo + Z.of_nat k) (seq 0 (Z.to_nat (hi - lo + 1))))%list.

(** [getPageNumbers()]; [-1] stands for a gap. *)
Definition getPageNumbers (total current : Z) : list Z :=
  if total <=? 7 then pushRange 1 total []
  else if current <=? 3 then (pushRange 1 5 [] ++ [-1; total])%list
  else if total - 2 <=? current
       then pushRange (total - 4) total [1; -1]
  else (pushRange (current - 1) (current + 1) [1; -1] ++ [-1; total])%list.

End RatesTable.

(* ================================================================== *)
(** * Properties of the cache-key builder *)
(* ================================================================== *)

Section KeyFacts.

Import JsString Keys.
Local Open Scope string_scope.

Lemma isAZ_plain (a : ascii) :
  isAZ a = true -> is_ws a = false /\ upper a = String a EmptyString.
Proof.
  destruct a as [[] [] [] [] [] [] [] []]; vm_compute; intros H;
    try discriminate H; split; reflexivity.
Qed.

(** A three-letter upper-case code passes the sanitizer unchanged. *)
Lemma sanitizeCurrencyCode_fixed (s : string) :
  isCurrencyCode s = true -> sanitizeCurrencyCode s = s.
Proof.
  destruct s as [|a [|b [|c [|d r]]]]; try discriminate.
  unfold isCurrencyCode. cbn [String.length Nat.eqb andb forallb_str].
  rewrite !andb_true_iff. intros [Ha [Hb [Hc _]]].
  destruct (isAZ_plain a Ha) as [Wa Ua].
  destruct (isAZ_plain b Hb) as [Wb Ub].
  destruct (isAZ_plain c Hc) as [Wc Uc].
  unfold sanitizeCurrencyCode, trim. cbn [trimStart]. rewrite Wa.
  cbn [trimEnd]. rewrite Wc.
  cbn [toUpperCase]. rewrite Ua, Ub, Uc. cbn [append keep].
  rewrite Ha, Hb, Hc. cbn [slice0].
  unfold isCurrencyCode. cbn [String.length Nat.eqb andb forallb_str].
  now rewrite Ha, Hb, Hc.
Qed.

(** The sanitizer always gives a three-letter upper-case code. *)
Lemma sanitizeCurrencyCode_valid (code : string) :
  isCurrencyCode (sanitizeCurrencyCode code) = true.
Proof.
  unfold sanitizeCurrencyCode. destruct code as [|a r]; [reflexivity|].
  cbv zeta.
  destruct (isCurrencyCode (slice0 3 (keep isAZ (toUpperCase (trim (String a r))))))
    eqn:E; [exact E | reflexivity].
Qed.

Lemma sanitizeCurrencyCode_idempotent (code : string) :
  sanitizeCurrencyCode (sanitizeCurrencyCode code) = sanitizeCurrencyCode code.
Proof. apply sanitizeCurrencyCode_fixed, sanitizeCurrencyCode_valid. Qed.

Lemma isCurrencyCode_nonempty (s : string) :
  isCurrencyCode s = true -> or_else s "EUR" = s.
Proof. destruct s; [discriminate | reflexivity]. Qed.

Lemma existsb_eqb_In (x : string) (l : list string) :
  existsb (String.eqb x) l = true <-> In x l.
Proof.
  rewrite existsb_exists. split.
  - intros [y [Hy E]]. apply String.eqb_eq in E. now subst.
  - intros H. exists x. split; [assumption | apply String.eqb_refl].
Qed.

Lemma dedup_from_In (l seen : list string) (x : string) :
  In x (dedup_from seen l) <-> In x l /\ ~ In x seen.
Proof.
  revert seen. induction l as [|y r IH]; intros seen; simpl.
  - tauto.
  - destruct (existsb (String.eqb y) seen) eqn:E.
    + apply existsb_eqb_In in E. rewrite IH. split.
      * tauto.
      * intros [[->|H] Hn]; tauto.
    + assert (Hy : ~ In y seen).
      { intros H. apply existsb_eqb_In in H. congruence. }
      simpl. rewrite IH. simpl. split.
      * intros [->|[H Hn]]; tauto.
      * intros [[->|H] Hn]; [now left|].
        destruct (string_dec y x) as [->|Hne]; [now left|right].
        split; [assumption|]. intros [?|?]; tauto.
Qed.

Lemma dedup_from_NoDup (l seen : list string) : NoDup (dedup_from seen l).
Proof.
  revert seen. induction l as [|y r IH]; intros seen; simpl.
  - constructor.
  - destruct (existsb (String.eqb y) seen); [apply IH|].
    constructor; [|apply IH].
    rewrite dedup_from_In. simpl. tauto.
Qed.

Lemma dedup_from_repeat (l seen : list string) (x : string) :
  In x seen \/ In x l -> dedup_from seen (l ++ [x])%list = dedup_from seen l.
Proof.
  revert seen. induction l as [|y r IH]; intros seen H; simpl.
  - destruct H as [H|[]]. apply existsb_eqb_In in H. now rewrite H.
  - destruct (existsb (String.eqb y) seen) eqn:E.
    + apply IH. destruct H as [H|[->|H]]; auto.
      left. now apply existsb_eqb_In.
    + f_equal. apply IH. simpl. destruct H as [H|[->|H]]; auto.
Qed.

Lemma dedup_Permutation (l1 l2 : list string) :
  Permutation l1 l2 -> Permutation (dedup l1) (dedup l2).
Proof.
  intros HP. apply NoDup_Permutation; try apply dedup_from_NoDup.
  intros x. unfold dedup. rewrite !dedup_from_In. split; intros [H Hn]; split; auto.
  - now apply (Permutation_in _ HP).
  - now apply (Permutation_in _ (Permutation_sym HP)).
Qed.

Lemma filter_Permutation {A : Type} (f : A -> bool) (l1 l2 : list A) :
  Permutation l1 l2 -> Permutation (filter f l1) (filter f l2).
Proof.
  induction 1 as [|x l l' _ IH|x y l|l l' l'' _ IH1 _ IH2]; simpl.
  - constructor.
  - destruct (f x); [now constructor | assumption].
  - destruct (f x), (f y); try apply Permutation_refl; apply perm_swap.
  - now transitivity (filter f l').
Qed.

Lemma isCurrencyCode_is_nonempty (s : string) :
  isCurrencyCode s = true -> nonempty s = true.
Proof. destruct s; [discriminate | reflexivity]. Qed.

Lemma sanitizeCurrencyArray_codes (symbols : option (list string)) (x : string) :
  In x (sanitizeCurrencyArray symbols) -> isCurrencyCode x = true.
Proof.
  destruct symbols as [l|]; simpl; [|tauto].
  unfold dedup. rewrite dedup_from_In, filter_In. tauto.
Qed.

Lemma join_nonempty (sep x : string) (r : list string) :
  nonempty x = true -> nonempty (join sep (x :: r)) = true.
Proof.
  destruct x as [|a x']; [discriminate|]. intros _.
  unfold join. simpl. now destruct r.
Qed.

Lemma requestKey_composition (prefix : list string) (base : string)
    (symbols : option (list string)) :
  requestKey prefix base symbols
  = slice0 200
      (join "_" (filter nonempty prefix
                 ++ [sanitizeCurrencyCode base;
                     match sanitizeCurrencyArray symbols with
                     | [] => "all"
                     | l => join "," l
                     end])%list).
Proof.
  unfold requestKey, buildCacheKey. do 2 f_equal.
  rewrite map_app, filter_app. f_equal.
  - induction prefix as [|p r IH]; simpl; [reflexivity|].
    destruct p; simpl; [assumption | now rewrite IH].
  - cbn [map filter part_text].
    assert (Hb : nonempty (or_else (sanitizeCurrencyCode base) EmptyString) = true).
    { pose proof (sanitizeCurrencyCode_valid base) as H.
      destruct (sanitizeCurrencyCode base); [discriminate | reflexivity]. }
    rewrite Hb.
    assert (Eb : or_else (sanitizeCurrencyCode base) EmptyString = sanitizeCurrencyCode base)
      by now destruct (sanitizeCurrencyCode base).
    rewrite Eb. f_equal.
    pose proof (sanitizeCurrencyArray_codes symbols) as Hc.
    destruct (sanitizeCurrencyArray symbols) as [|x r]; [reflexivity|].
    rewrite join_nonempty; [reflexivity|].
    apply isCurrencyCode_is_nonempty, Hc. now left.
Qed.

Lemma dedup_from_fresh (l seen : list string) :
  NoDup l -> (forall x, In x l -> ~ In x seen) -> dedup_from seen l = l.
Proof.
  revert seen. induction l as [|y r IH]; intros seen Hnd Hfresh; simpl.
  - reflexivity.
  - inversion Hnd as [|? ? Hn Hr]; subst.
    destruct (existsb (String.eqb y) seen) eqn:E.
    + apply existsb_eqb_In in E. exfalso. apply (Hfresh y); [now left | assumption].
    + f_equal. apply IH; [assumption|].
      intros x Hx [->|Hs]; [contradiction|].
      apply (Hfresh x); [now right | assumption].
Qed.

Lemma map_fixed {A : Type} (f : A -> A) (l : list A) :
  (forall x, In x l -> f x = x) -> map f l = l.
Proof.
  induction l as [|x r IH]; intros H; simpl; [reflexivity|].
  rewrite H by now left. f_equal. apply IH. intros y Hy. apply H. now right.
Qed.

Lemma filter_all {A : Type} (f : A -> bool) (l : list A) :
  (forall x, In x l -> f x = true) -> filter f l = l.
Proof.
  induction l as [|x r IH]; intros H; simpl; [reflexivity|].
  rewrite H by now left. f_equal. apply IH. intros y Hy. apply H. now right.
Qed.

Lemma flat_map_shift {A : Type} (f : nat -> list A) (n : nat) :
  flat_map f (seq 1 n) = flat_map (fun i => f (S i)) (seq 0 n).
Proof.
  rewrite <- seq_shift. induction (seq 0 n) as [|i r IH]; simpl; [reflexivity|].
  now rewrite IH.
Qed.

(** The set insertion of the code keeps an element exactly at the positions
    where it has not been seen and does not occur earlier. *)
Lemma dedup_from_positions (l : list string) : forall seen,
  dedup_from seen l
  = flat_map
      (fun i =>
         match nth_error l i with
         | Some x =>
             if existsb (String.eqb x) seen
                || existsb (String.eqb x) (firstn i l)
             then [] else [x]
         | None => []
         end)
      (seq 0 (List.length l)).
Proof.
  induction l as [|y r IH]; intros seen; [reflexivity|].
  cbn [List.length seq flat_map nth_error firstn existsb dedup_from].
  rewrite orb_false_r, flat_map_shift.
  cbn [nth_error firstn existsb].
  destruct (existsb (String.eqb y) seen) eqn:E.
  - cbn [app]. rewrite IH. apply flat_map_ext. intros i.
    destruct (nth_error r i) as [x|]; [|reflexivity].
    destruct (String.eqb_spec x y) as [->|Hne]; cbn [orb].
    + now rewrite E.
    + reflexivity.
  - cbn [app]. f_equal. rewrite IH. apply flat_map_ext. intros i.
    destruct (nth_error r i) as [x|]; [|reflexivity]. cbn [existsb].
    destruct (String.eqb x y); cbn [orb].
    + now rewrite orb_true_r.
    + reflexivity.
Qed.

Lemma filter_sanitized (l : list string) :
  filter isCurrencyCode (map sanitizeCurrencyCode l) = map sanitizeCurrencyCode l.
Proof.
  apply filter_all. intros x Hx. apply in_map_iff in Hx.
  destruct Hx as (y & <- & _). apply sanitizeCurrencyCode_valid.
Qed.

(** The symbol list of the code is the list of first occurrences. *)
Lemma sanitizeCurrencyArray_positions (l : list string) :
  sanitizeCurrencyArray (Some l)
  = KeySpec.firstOccurrences (map sanitizeCurrencyCode l).
Proof.
  unfold sanitizeCurrencyArray, dedup, KeySpec.firstOccurrences.
  rewrite filter_sanitized, dedup_from_positions. apply flat_map_ext.
  intros i. now destruct (nth_error _ i).
Qed.

Lemma dedup_from_later_repeat (a b seen : list string) (x : string) :
  In x seen \/ In x a ->
  dedup_from seen (a ++ x :: b)%list = dedup_from seen (a ++ b)%list.
Proof.
  revert seen. induction a as [|y r IH]; intros seen H; cbn [app dedup_from].
  - destruct H as [H|[]]. apply existsb_eqb_In in H. now rewrite H.
  - destruct (existsb (String.eqb y) seen) eqn:E.
    + apply IH. destruct H as [H|[->|H]]; auto.
      left. now apply existsb_eqb_In.
    + f_equal. apply IH. simpl. destruct H as [H|[->|H]]; auto.
Qed.

(** C1, as the code has it: the key is the non-empty parts joined by an
    underscore and cut to 200 characters, the last part being the symbol
    part: the sanitized symbols of the request in order of first occurrence,
    joined by commas (the word all for no symbol).  A sanitized symbol is
    kept exactly at the position where it occurs first, so none is dropped,
    none is repeated and the list is not sorted: symbols that are distinct
    three-letter codes enter the key in the order given.  For two symbol
    lists that are permutations of each other the symbol lists that enter the
    keys are duplicate-free permutations of each other, and the keys are
    identical as soon as these lists agree in order; repeating, at any later
    place, a symbol that is already in the list never changes the key. *)
Theorem requestKey_symbols_first_occurrence
    (prefix : list string) (base : string) (l1 l2 : list string) :
  Permutation l1 l2 ->
  requestKey prefix base (Some l1)
  = slice0 200
      (join "_" (filter nonempty prefix
                 ++ [sanitizeCurrencyCode base; KeySpec.symbolPart l1])%list)
  /\ sanitizeCurrencyArray (Some l1)
     = KeySpec.firstOccurrences (map sanitizeCurrencyCode l1)
  /\ (forall x, In x (KeySpec.firstOccurrences (map sanitizeCurrencyCode l1))
                <-> In x (map sanitizeCurrencyCode l1))
  /\ NoDup (KeySpec.firstOccurrences (map sanitizeCurrencyCode l1))
  /\ (NoDup l1 -> (forall x, In x l1 -> isCurrencyCode x = true) ->
      KeySpec.firstOccurrences (map sanitizeCurrencyCode l1) = l1
      /\ KeySpec.symbolPart l1
         = match l1 with [] => "all" | x :: r => join "," (x :: r) end)
  /\ Permutation (KeySpec.firstOccurrences (map sanitizeCurrencyCode l1))
                 (KeySpec.firstOccurrences (map sanitizeCurrencyCode l2))
  /\ (KeySpec.firstOccurrences (map sanitizeCurrencyCode l1)
      = KeySpec.firstOccurrences (map sanitizeCurrencyCode l2) ->
      requestKey prefix base (Some l1) = requestKey prefix base (Some l2))
  /\ (forall a b x,
        l1 = (a ++ x :: b)%list ->
        In (sanitizeCurrencyCode x) (map sanitizeCurrencyCode a) ->
        requestKey prefix base (Some l1)
        = requestKey prefix base (Some (a ++ b)%list)).
Proof.
  intros HP.
  assert (Hfix : NoDup l1 -> (forall x, In x l1 -> isCurrencyCode x = true) ->
                 KeySpec.firstOccurrences (map sanitizeCurrencyCode l1) = l1).
  { intros Hnd Hv. rewrite <- sanitizeCurrencyArray_positions.
    unfold sanitizeCurrencyArray, dedup.
    rewrite (map_fixed sanitizeCurrencyCode l1)
      by (intros x Hx; apply sanitizeCurrencyCode_fixed; auto).
    rewrite (filter_all isCurrencyCode l1 Hv).
    apply dedup_from_fresh; [assumption | intros ? _ []]. }
  split.
  { rewrite requestKey_composition. unfold KeySpec.symbolPart.
    now rewrite sanitizeCurrencyArray_positions. }
  split; [apply sanitizeCurrencyArray_positions|].
  rewrite <- !sanitizeCurrencyArray_positions.
  split.
  { intros x. unfold sanitizeCurrencyArray, dedup.
    rewrite dedup_from_In, filter_sanitized. simpl. tauto. }
  split; [apply dedup_from_NoDup|].
  split.
  { intros Hnd Hv. rewrite sanitizeCurrencyArray_positions.
    split; [now apply Hfix|]. unfold KeySpec.symbolPart.
    now rewrite (Hfix Hnd Hv). }
  split.
  { unfold sanitizeCurrencyArray.
    apply dedup_Permutation, filter_Permutation, Permutation_map, HP. }
  split.
  { intros E. unfold requestKey. now rewrite E. }
  intros a b x -> Hx. unfold requestKey.
  assert (E : sanitizeCurrencyArray (Some (a ++ x :: b)%list)
              = sanitizeCurrencyArray (Some (a ++ b)%list)); [|now rewrite E].
  unfold sanitizeCurrencyArray, dedup.
  rewrite !filter_sanitized, !map_app. cbn [map].
  apply dedup_from_later_repeat. now right.
Qed.

Lemma requestKey_symbols_first_occurrence_witness :
  Permutation ["USD"; "GBP"; "usd"] ["usd"; "GBP"; "USD"]
  /\ KeySpec.symbolPart ["USD"; "GBP"; "usd"] = "USD,GBP"
  /\ requestKey ["latest"] "EUR" (Some ["USD"; "GBP"; "usd"])
     = requestKey ["latest"] "EUR" (Some ["usd"; "GBP"; "USD"])
  /\ requestKey ["latest"] "EUR" (Some ["USD"; "GBP"; "usd"])
     = requestKey ["latest"] "EUR" (Some ["USD"; "GBP"]).
Proof.
  assert (HP : Permutation ["USD"; "GBP"; "usd"] ["usd"; "GBP"; "USD"]).
  { apply (perm_trans (perm_swap "GBP" "USD" ["usd"])).
    apply (perm_trans (perm_skip "GBP" (perm_swap "usd" "USD" []))).
    apply (perm_swap "usd" "GBP" ["USD"]). }
  split; [exact HP|]. split; [reflexivity|].
  destruct (requestKey_symbols_first_occurrence ["latest"] "EUR" _ _ HP)
    as (_ & _ & _ & _ & _ & _ & Hkey & Hrep).
  split.
  - apply Hkey. vm_compute. reflexivity.
  - apply (Hrep ["USD"; "GBP"] [] "usd"); [reflexivity|].
    vm_compute. tauto.
Defined.

(** C1, as stated, fails: the same two symbols in the other order give
    another key. *)
Lemma requestKey_not_order_invariant :
  Permutation ["USD"; "GBP"] ["GBP"; "USD"]
  /\ requestKey ["latest"] "EUR" (Some ["USD"; "GBP"]) = "latest_EUR_USD,GBP"
  /\ requestKey ["latest"] "EUR" (Some ["GBP"; "USD"]) = "latest_EUR_GBP,USD"
  /\ requestKey ["latest"] "EUR" (Some ["USD"; "GBP"])
     <> requestKey ["latest"] "EUR" (Some ["GBP"; "USD"]).
Proof.
  split; [apply perm_swap|].
  split; [vm_compute; reflexivity|]. split; [vm_compute; reflexivity|].
  vm_compute. discriminate.
Qed.

End KeyFacts.

(* ================================================================== *)
(** * Properties of the rate cache *)
(* ================================================================== *)

Lemma filter_length_le {A : Type} (f : A -> bool) (l : list A) :
  (List.length (filter f l) <= List.length l)%nat.
Proof.
  induction l as [|x r IH]; simpl; [lia|]. destruct (f x); simpl; lia.
Qed.

Section CacheFacts.

Import Cache.
Local Open Scope Z_scope.

Context {V : Type}.
Implicit Types (c : Cache.t V) (key k : string) (e : CacheEntry V).

Lemma map_get_In c key e : map_get key c = Some e -> In (key, e) c.
Proof.
  induction c as [|[k e'] r IH]; simpl; [discriminate|].
  destruct (String.eqb k key) eqn:E.
  - apply String.eqb_eq in E. intros [= ->]. subst. now left.
  - intros H. right. now apply IH.
Qed.

Lemma map_get_not_In c key : ~ In key (map fst c) -> map_get key c = None.
Proof.
  induction c as [|[k e'] r IH]; simpl; [reflexivity|].
  intros H. destruct (String.eqb k key) eqn:E.
  - apply String.eqb_eq in E. tauto.
  - apply IH. tauto.
Qed.

Lemma map_delete_keys_incl c key k :
  In k (map fst (map_delete key c)) -> In k (map fst c).
Proof.
  induction c as [|[k' e'] r IH]; simpl; [tauto|].
  destruct (String.eqb k' key); simpl; intuition.
Qed.

Lemma map_delete_NoDup c key :
  NoDup (map fst c) -> NoDup (map fst (map_delete key c)).
Proof.
  induction c as [|[k' e'] r IH]; simpl; intros H; [constructor|].
  inversion H as [|? ? Hn Hr]; subst.
  destruct (String.eqb k' key); [assumption|].
  simpl. constructor; [|now apply IH].
  intros Hin. apply Hn. eapply map_delete_keys_incl, Hin.
Qed.

Lemma map_get_delete_same c key :
  NoDup (map fst c) -> map_get key (map_delete key c) = None.
Proof.
  induction c as [|[k' e'] r IH]; simpl; intros H; [reflexivity|].
  inversion H as [|? ? Hn Hr]; subst.
  destruct (String.eqb k' key) eqn:E.
  - apply String.eqb_eq in E. subst. now apply map_get_not_In.
  - simpl. rewrite E. now apply IH.
Qed.

Lemma map_get_delete_other c key k :
  k <> key -> map_get k (map_delete key c) = map_get k c.
Proof.
  intros Hne. induction c as [|[k' e'] r IH]; simpl; [reflexivity|].
  destruct (String.eqb k' key) eqn:E.
  - apply String.eqb_eq in E. subst.
    destruct (String.eqb key k) eqn:E'; [|reflexivity].
    apply String.eqb_eq in E'. congruence.
  - simpl. now rewrite IH.
Qed.

Lemma map_delete_size c key e :
  map_get key c = Some e -> S (map_size (map_delete key c)) = map_size c.
Proof.
  unfold map_size.
  induction c as [|[k' e'] r IH]; simpl; [discriminate|].
  destruct (String.eqb k' key); [reflexivity|].
  intros H. simpl. now rewrite IH.
Qed.

Lemma map_delete_absent c key : map_get key c = None -> map_delete key c = c.
Proof.
  induction c as [|[k' e'] r IH]; simpl; [reflexivity|].
  destruct (String.eqb k' key); [discriminate|].
  intros H. now rewrite IH.
Qed.

Lemma map_set_size c key e :
  map_size (map_set key e c)
  = match map_get key c with Some _ => map_size c | None => S (map_size c) end.
Proof.
  unfold map_size.
  induction c as [|[k' e'] r IH]; simpl; [reflexivity|].
  destruct (String.eqb k' key); simpl; [reflexivity|].
  rewrite IH. now destruct (map_get key r).
Qed.

Lemma map_get_set_same c key e : map_get key (map_set key e c) = Some e.
Proof.
  induction c as [|[k' e'] r IH]; simpl.
  - now rewrite String.eqb_refl.
  - destruct (String.eqb k' key) eqn:E; simpl; now rewrite E.
Qed.

Lemma map_get_set_other c key k e :
  k <> key -> map_get k (map_set key e c) = map_get k c.
Proof.
  intros Hne. induction c as [|[k' e'] r IH]; simpl.
  - destruct (String.eqb key k) eqn:E; [|reflexivity].
    apply String.eqb_eq in E. congruence.
  - destruct (String.eqb k' key) eqn:E; simpl.
    + apply String.eqb_eq in E. subst.
      destruct (String.eqb key k) eqn:E'; [|reflexivity].
      apply String.eqb_eq in E'. congruence.
    + now rewrite IH.
Qed.

Lemma map_set_keys_incl c key k e :
  In k (map fst (map_set key e c)) -> k = key \/ In k (map fst c).
Proof.
  induction c as [|[k' e'] r IH]; simpl.
  - intuition.
  - destruct (String.eqb k' key); simpl; intuition.
Qed.

Lemma map_set_NoDup c key e :
  NoDup (map fst c) -> NoDup (map fst (map_set key e c)).
Proof.
  induction c as [|[k' e'] r IH]; simpl; intros H.
  - repeat constructor. simpl. tauto.
  - inversion H as [|? ? Hn Hr]; subst.
    destruct (String.eqb k' key) eqn:E; simpl; [now constructor|].
    constructor; [|now apply IH].
    intros Hin. apply map_set_keys_incl in Hin. destruct Hin as [->|Hin].
    + now rewrite String.eqb_refl in E.
    + contradiction.
Qed.

Lemma cleanupCache_NoDup c (now : Z) :
  NoDup (map fst c) -> NoDup (map fst (cleanupCache now c)).
Proof.
  unfold cleanupCache.
  induction c as [|[k' e'] r IH]; simpl; intros H; [constructor|].
  inversion H as [|? ? Hn Hr]; subst.
  destruct (negb _); simpl; [|now apply IH].
  constructor; [|now apply IH].
  intros Hin. apply Hn. apply in_map_iff in Hin.
  destruct Hin as ([k e] & <- & Hin). apply filter_In in Hin.
  apply in_map_iff. exists (k, e). tauto.
Qed.

(** The keys of the cache stay distinct under every operation, so they are
    distinct in every cache that the service reaches from the empty one. *)
Lemma run_ops_NoDup (ops : list (Op V)) c :
  NoDup (map fst c) -> NoDup (map fst (run_ops ops c)).
Proof.
  unfold run_ops. revert c. induction ops as [|o r IH]; intros c H; simpl.
  - assumption.
  - apply IH. destruct o as [now key|nowEvict nowSet key d|now]; simpl.
    + unfold getCached. destruct (map_get key c) as [e|]; [|assumption].
      destruct (_ <? _); simpl; [assumption | now apply map_delete_NoDup].
    + unfold setCache. apply map_set_NoDup.
      destruct (_ <=? _)%nat; [|assumption].
      unfold evictOldestCacheEntry.
      destruct (fst (oldest_scan nowEvict c)) as [k|]; [|assumption].
      destruct (JsString.nonempty k); [now apply map_delete_NoDup | assumption].
    + now apply cleanupCache_NoDup.
Qed.

(** C3: [getCached] returns the stored value exactly when the entry exists
    and its age [now - timestamp] is below five minutes, and then leaves the
    cache as it is; on an entry of age five minutes or more it returns
    nothing and deletes that entry and no other, so the key is gone on the
    next access; on a key without entry it returns nothing and changes
    nothing. *)
Theorem getCached_fresh_or_purged c (now : Z) key :
  NoDup (map fst c) ->
  (forall v, fst (getCached now key c) = Some v <->
             exists e, map_get key c = Some e /\ data e = v
                       /\ now - timestamp e < 5 * 60 * 1000)
  /\ (forall e, map_get key c = Some e -> now - timestamp e < 5 * 60 * 1000 ->
      snd (getCached now key c) = c)
  /\ (forall e, map_get key c = Some e -> 5 * 60 * 1000 <= now - timestamp e ->
      fst (getCached now key c) = None
      /\ map_get key (snd (getCached now key c)) = None
      /\ S (map_size (snd (getCached now key c))) = map_size c
      /\ (forall k, k <> key ->
          map_get k (snd (getCached now key c)) = map_get k c)
      /\ forall now', fst (getCached now' key (snd (getCached now key c))) = None)
  /\ (map_get key c = None -> getCached now key c = (None, c)).
Proof.
  intros Hnd. unfold getCached, cacheTimeout.
  destruct (map_get key c) as [e|] eqn:G.
  - destruct (now - timestamp e <? 5 * 60 * 1000) eqn:L.
    + apply Z.ltb_lt in L. split; [|split; [|split]]; simpl.
      * intros v. split.
        -- intros [= <-]. now exists e.
        -- intros (e' & [= <-] & <- & _). reflexivity.
      * reflexivity.
      * intros e' [= <-]. lia.
      * discriminate.
    + apply Z.ltb_ge in L. split; [|split; [|split]]; simpl.
      * intros v. split; [discriminate|].
        intros (e' & [= <-] & _ & H). lia.
      * intros e' [= <-]. lia.
      * intros e' _ _. split; [reflexivity|]. split.
        { now apply map_get_delete_same. }
        split. { now apply (map_delete_size c key e). }
        split. { intros k Hk. now apply map_get_delete_other. }
        intros now'. now rewrite map_get_delete_same.
      * discriminate.
  - split; [|split; [|split]]; simpl; try discriminate; try reflexivity.
    intros v. split; [discriminate|]. intros (e' & [=] & _).
Qed.

End CacheFacts.

Lemma getCached_fresh_or_purged_witness :
  let c : Cache.t nat := [("latest_EUR_USD"%string, Cache.mkEntry 7%nat 1000%Z);
            ("latest_EUR_GBP"%string, Cache.mkEntry 8%nat 2000%Z)] in
  Cache.getCached 301000%Z "latest_EUR_USD" c
  = (None, [("latest_EUR_GBP"%string, Cache.mkEntry 8%nat 2000%Z)])
  /\ fst (Cache.getCached 301000%Z "latest_EUR_GBP" c) = Some 8%nat.
Proof.
  intros c. unfold Cache.t in c.
  assert (Hnd : NoDup (map fst c)).
  { repeat constructor; simpl; intuition discriminate. }
  split.
  - reflexivity.
  - apply (proj1 (getCached_fresh_or_purged c 301000%Z "latest_EUR_GBP" Hnd)).
    exists (Cache.mkEntry 8%nat 2000%Z). repeat split.
Defined.

Section CacheEviction.

Import Cache.
Local Open Scope Z_scope.

Context {V : Type}.
Implicit Types (c : Cache.t V) (key k : string) (e : CacheEntry V).

Lemma In_map_get c k e : In (k, e) c -> exists e', map_get k c = Some e'.
Proof.
  induction c as [|[k' e'] r IH]; simpl; [tauto|].
  intros H. destruct (String.eqb k' k) eqn:E; [now eexists|].
  destruct H as [[= -> ->]|H]; [|now apply IH].
  now rewrite String.eqb_refl in E.
Qed.

(** The scan either finds no entry older than its start value, or ends on an
    entry whose timestamp is the smallest of the cache. *)
Lemma oldest_scan_inv c : forall (ok : option string) (ot : Z),
  (fold_left oldest_step c (ok, ot) = (ok, ot)
   /\ forall k e, In (k, e) c -> ot <= timestamp e)
  \/ (exists k e, In (k, e) c
        /\ fold_left oldest_step c (ok, ot) = (Some k, timestamp e)
        /\ timestamp e < ot
        /\ forall k' e', In (k', e') c -> timestamp e <= timestamp e').
Proof.
  induction c as [|[k0 e0] r IH]; intros ok ot; simpl.
  - left. split; [reflexivity | tauto].
  - destruct (timestamp e0 <? ot) eqn:L.
    + apply Z.ltb_lt in L. right.
      destruct (IH (Some k0) (timestamp e0)) as [[E Hall]|(k & e & Hin & E & Hlt & Hall)].
      * exists k0, e0. repeat split; auto.
        intros k' e' [[= <- <-]|H]; [lia | eauto].
      * exists k, e. repeat split; auto; [lia|].
        intros k' e' [[= <- <-]|H]; [lia | eauto].
    + apply Z.ltb_ge in L.
      destruct (IH ok ot) as [[E Hall]|(k & e & Hin & E & Hlt & Hall)].
      * left. split; [assumption|].
        intros k' e' [[= <- <-]|H]; [lia | eauto].
      * right. exists k, e. repeat split; auto.
        intros k' e' [[= <- <-]|H]; [lia | eauto].
Qed.

(** Where some entry is older than the clock value read by the eviction (and
    no key is the empty string), exactly one entry is deleted, one of smallest
    timestamp, and the others stay. *)
Lemma evict_removes_oldest c (now : Z) :
  (forall k e, In (k, e) c -> JsString.nonempty k = true) ->
  (exists k e, In (k, e) c /\ timestamp e < now) ->
  exists k e, In (k, e) c
    /\ (forall k' e', In (k', e') c -> timestamp e <= timestamp e')
    /\ evictOldestCacheEntry now c = map_delete k c
    /\ S (map_size (evictOldestCacheEntry now c)) = map_size c
    /\ forall k', k' <> k ->
         map_get k' (evictOldestCacheEntry now c) = map_get k' c.
Proof.
  intros Hne (k1 & e1 & Hin1 & Hlt1).
  unfold evictOldestCacheEntry, oldest_scan.
  destruct (oldest_scan_inv c None now) as [[E Hall]|(k & e & Hin & E & Hlt & Hall)].
  - specialize (Hall _ _ Hin1). lia.
  - rewrite E. simpl. rewrite (Hne _ _ Hin).
    exists k, e. repeat split; auto.
    + destruct (In_map_get _ _ _ Hin) as [e' G]. now apply (map_delete_size c k e').
    + intros k' Hk. now apply map_get_delete_other.
Qed.

(** Where no entry is older than the clock value read by the eviction,
    nothing is deleted. *)
Lemma evict_none_older c (now : Z) :
  (forall k e, In (k, e) c -> now <= timestamp e) ->
  evictOldestCacheEntry now c = c.
Proof.
  intros Hall. unfold evictOldestCacheEntry, oldest_scan.
  destruct (oldest_scan_inv c None now) as [[E _]|(k & e & Hin & _ & Hlt & _)].
  - now rewrite E.
  - specialize (Hall _ _ Hin). lia.
Qed.

(** With an entry older than the clock at every insertion into a full cache,
    the bound of 100 entries is kept. *)
Lemma setCache_size_bound c (nowEvict nowSet : Z) key (d : V) :
  (map_size c <= 100)%nat ->
  (forall k e, In (k, e) c -> JsString.nonempty k = true) ->
  (map_size c = 100%nat -> exists k e, In (k, e) c /\ timestamp e < nowEvict) ->
  (map_size (setCache nowEvict nowSet key d c) <= 100)%nat.
Proof.
  intros Hsz Hne Hold. unfold setCache, maxCacheSize.
  destruct (100 <=? map_size c)%nat eqn:L.
  - apply Nat.leb_le in L. assert (Hs : map_size c = 100%nat) by lia.
    destruct (evict_removes_oldest c nowEvict Hne (Hold Hs))
      as (k & e & _ & _ & _ & Hsize & _).
    rewrite map_set_size.
    destruct (map_get key (evictOldestCacheEntry nowEvict c)); lia.
  - apply Nat.leb_gt in L. rewrite map_set_size.
    destruct (map_get key c); lia.
Qed.

(** With no entry older than the clock, an insertion of a new key into a full
    cache evicts nothing and the cache grows past its bound. *)
Lemma setCache_grows_past_capacity c (nowEvict nowSet : Z) key (d : V) :
  (100 <= map_size c)%nat ->
  (forall k e, In (k, e) c -> nowEvict <= timestamp e) ->
  map_get key c = None ->
  map_size (setCache nowEvict nowSet key d c) = S (map_size c)
  /\ forall k, k <> key ->
       map_get k (setCache nowEvict nowSet key d c) = map_get k c.
Proof.
  intros Hsz Hall Hnew. unfold setCache, maxCacheSize.
  apply Nat.leb_le in Hsz. rewrite Hsz, (evict_none_older c nowEvict Hall).
  split.
  - now rewrite map_set_size, Hnew.
  - intros k Hk. now apply map_get_set_other.
Qed.

Lemma map_delete_incl c key k e : In (k, e) (map_delete key c) -> In (k, e) c.
Proof.
  induction c as [|[k' e'] r IH]; simpl; [tauto|].
  destruct (String.eqb k' key); simpl; intuition.
Qed.

Lemma map_set_incl c key e0 k e :
  In (k, e) (map_set key e0 c) -> k = key \/ In (k, e) c.
Proof.
  induction c as [|[k' e'] r IH]; simpl.
  - intros [[= <- <-]|[]]. now left.
  - destruct (String.eqb k' key) eqn:E; simpl.
    + apply String.eqb_eq in E. subst. intros [[= <- <-]|H]; auto.
    + intros [H|H]; auto. destruct (IH H); auto.
Qed.

Lemma evict_incl c (now : Z) k e :
  In (k, e) (evictOldestCacheEntry now c) -> In (k, e) c.
Proof.
  unfold evictOldestCacheEntry.
  destruct (fst (oldest_scan now c)) as [k0|]; [|tauto].
  destruct (JsString.nonempty k0); [apply map_delete_incl | tauto].
Qed.

(** While the clock is ahead of the cache, no run of operations takes the
    cache above 100 entries. *)
Lemma run_ops_size_bound (ops : list (Op V)) : forall c,
  (map_size c <= 100)%nat ->
  (forall k e, In (k, e) c -> JsString.nonempty k = true) ->
  clock_ahead c ops ->
  (map_size (run_ops ops c) <= 100)%nat.
Proof.
  unfold run_ops.
  induction ops as [|o rest IH]; intros c Hsz Hne Hclock; simpl; [assumption|].
  destruct Hclock as [Ho Hrest].
  apply IH; [| |exact Hrest]; clear IH Hrest;
    destruct o as [now key|nowEvict nowSet key d|now]; simpl.
  - unfold getCached. destruct (map_get key c) as [e|] eqn:G; [|assumption].
    destruct (_ <? _); simpl; [assumption|].
    pose proof (map_delete_size c key e G). lia.
  - destruct Ho as [Hold Hkey]. apply setCache_size_bound; try assumption.
    intros Hfull. destruct c as [|[k e] r]; [discriminate|].
    exists k, e. split; [now left | apply (Hold k e); now left].
  - unfold cleanupCache, map_size in *.
    pose proof (filter_length_le
                  (fun ke => negb (cacheTimeout <=? now - timestamp (snd ke))) c).
    lia.
  - unfold getCached. destruct (map_get key c) as [e|]; [|assumption].
    destruct (_ <? _); simpl; [assumption|].
    intros k e' H. eapply Hne, map_delete_incl, H.
  - destruct Ho as [_ Hkey]. unfold setCache. intros k e H.
    apply map_set_incl in H. destruct H as [->|H]; [assumption|].
    destruct (_ <=? _)%nat; [|now apply (Hne k e)].
    eapply Hne, evict_incl, H.
  - unfold cleanupCache. intros k e H. apply filter_In in H.
    now apply (Hne k e).
Qed.

End CacheEviction.

(** C2, the code where no entry is older than the clock: 101 insertions
    under different keys, all within one tick of the clock, or with the wall
    clock set back before the last one.  The first 100 fill the cache; at the
    101st [evictOldestCacheEntry] looks for an entry with a timestamp below
    [Date.now()], finds none, deletes nothing, and the cache holds 101
    entries, above [maxCacheSize]. *)
Theorem setCache_exceeds_capacity :
  (let full := Cache.run_ops (firstn 100 (Scenario.puts Scenario.sameTick)) [] in
   Cache.map_size full = 100%nat
   /\ Cache.evictOldestCacheEntry (Scenario.sameTick 100) full = full
   /\ Cache.map_size (Cache.run_ops (Scenario.puts Scenario.sameTick) [])
      = 101%nat)
  /\ (let full :=
        Cache.run_ops (firstn 100 (Scenario.puts Scenario.clockSetBack)) [] in
      Cache.map_size full = 100%nat
      /\ Cache.evictOldestCacheEntry (Scenario.clockSetBack 100) full = full
      /\ Cache.map_size (Cache.run_ops (Scenario.puts Scenario.clockSetBack) [])
         = 101%nat).
Proof.
  vm_compute. repeat split.
Qed.

(* ================================================================== *)
(** * Facts about binary64 numbers *)
(* ================================================================== *)

Section FloatFacts.

Local Open Scope float_scope.

Lemma Prim2SF_nan : Prim2SF nan = S754_nan.
Proof. reflexivity. Qed.

Lemma Prim2SF_zero : Prim2SF 0 = S754_zero false.
Proof. reflexivity. Qed.

Lemma Prim2SF_infinity : Prim2SF infinity = S754_infinity false.
Proof. reflexivity. Qed.

(** No number is above or below NaN. *)
Lemma ltb_nan_l (y : float) : (nan <? y) = false.
Proof. rewrite FloatAxioms.ltb_spec, Prim2SF_nan. reflexivity. Qed.

Lemma ltb_nan_r (y : float) : (y <? nan) = false.
Proof.
  rewrite FloatAxioms.ltb_spec, Prim2SF_nan. unfold SFltb.
  destruct (Prim2SF y) as [[]|[]| |[] ? ?]; reflexivity.
Qed.

Lemma mul_comm (x y : float) : x * y = y * x.
Proof.
  apply Prim2SF_inj. rewrite !FloatAxioms.mul_spec.
  destruct (Prim2SF x) as [sx|sx| |sx mx ex], (Prim2SF y) as [sy|sy| |sy my ey];
    cbn; try reflexivity; try (destruct sx, sy; reflexivity).
  now rewrite (Pos.mul_comm my mx), (Z.add_comm ey ex), (Bool.xorb_comm sy sx).
Qed.

Lemma is_finite_SF (x : float) :
  is_finite x = true ->
  (exists s, Prim2SF x = S754_zero s)
  \/ (exists s m e, Prim2SF x = S754_finite s m e).
Proof.
  unfold is_finite, is_nan, is_infinity.
  rewrite !FloatAxioms.eqb_spec, abs_spec, Prim2SF_infinity.
  destruct (Prim2SF x) as [s|s| |s m e].
  - intros _. left. now exists s.
  - destruct s; cbv; discriminate.
  - cbv; discriminate.
  - intros _. right. now exists s, m, e.
Qed.

Lemma positive_SF (x : float) :
  (0 <? x) = true -> is_finite x = true ->
  exists m e, Prim2SF x = S754_finite false m e.
Proof.
  intros H F. apply is_finite_SF in F.
  rewrite FloatAxioms.ltb_spec, Prim2SF_zero in H.
  destruct F as [[s E]|(s & m & e & E)]; rewrite E in H.
  - destruct s; discriminate.
  - destruct s; [discriminate|]. now exists m, e.
Qed.

(** A finite number that is not [<= 0] is [> 0]. *)
Lemma not_leb_zero_positive (x : float) :
  is_finite x = true -> (x <=? 0) = false -> (0 <? x) = true.
Proof.
  intros F H. apply is_finite_SF in F.
  rewrite FloatAxioms.leb_spec, Prim2SF_zero in H.
  rewrite FloatAxioms.ltb_spec, Prim2SF_zero.
  destruct F as [[s E]|(s & m & e & E)]; rewrite E in *.
  - destruct s; discriminate.
  - destruct s; [discriminate|reflexivity].
Qed.

(** A finite product of two positive finite numbers is not negative (it may
    round to zero). *)
Lemma mul_positive_nonneg (a k : float) :
  (0 <? a) = true -> is_finite a = true ->
  (0 <? k) = true -> is_finite k = true ->
  is_finite (a * k) = true -> (0 <=? a * k) = true.
Proof.
  intros Ha Fa Hk Fk F.
  destruct (positive_SF a Ha Fa) as (ma & ea & Ea).
  destruct (positive_SF k Hk Fk) as (mk & ek & Ek).
  apply is_finite_SF in F.
  rewrite FloatAxioms.leb_spec, Prim2SF_zero.
  rewrite FloatAxioms.mul_spec, Ea, Ek in *.
  unfold SF64mul, SFmul in *. simpl xorb in *.
  unfold binary_round_aux in *.
  destruct (shr_fexp prec emax (Z.pos (ma * mk)) (ea + ek) loc_Exact)
    as [mrs' e'].
  destruct (shr_fexp prec emax
              (round_nearest_even (shr_m mrs') (loc_of_shr_record mrs'))
              e' loc_Exact) as [mrs'' e''].
  destruct (shr_m mrs'') as [|p|p].
  - reflexivity.
  - destruct (e'' <=? emax - prec)%Z; [reflexivity|].
    destruct F as [[s E]|(s & m & e & E)]; discriminate.
  - destruct F as [[s E]|(s & m & e & E)]; discriminate.
Qed.

Lemma SFeqb_refl_finite (m : positive) (e : Z) :
  SFeqb (S754_finite false m e) (S754_finite false m e) = true.
Proof.
  unfold SFeqb, SFcompare.
  now rewrite Z.compare_refl, Pos.compare_cont_refl.
Qed.

(** A number above 0 is truthy. *)
Lemma positive_truthy (r : float) : (0 <? r) = true -> Num.truthy r = true.
Proof.
  unfold Num.truthy, is_zero, is_nan. change zero with 0.
  rewrite FloatAxioms.ltb_spec, !FloatAxioms.eqb_spec, Prim2SF_zero.
  destruct (Prim2SF r) as [s|s| |s m e]; try (destruct s); try discriminate.
  - reflexivity.
  - intros _. now rewrite SFeqb_refl_finite.
Qed.

Lemma finite_leb_zero (x : float) :
  is_finite x = true -> (x <=? 0) = negb (0 <? x).
Proof.
  intros F. apply is_finite_SF in F.
  rewrite FloatAxioms.leb_spec, FloatAxioms.ltb_spec, Prim2SF_zero.
  destruct F as [[s E]|(s & m & e & E)]; rewrite E; destruct s; reflexivity.
Qed.

End FloatFacts.

(* ================================================================== *)
(** * Volatility and trend *)
(* ================================================================== *)

Section VolatilityTrend.

Import Num JsArray Analytics.
Local Open Scope float_scope.

(** The rates [calculateMetrics] keeps are the valid subset of the numbers
    of the series. *)
Lemma metrics_rates_valid (series : list (option float)) :
  flat_map (fun r => match r with
                     | Some rate => if isFinite rate && gtb rate 0 then [rate] else []
                     | None => []
                     end) series
  = Spec.validSubset (Spec.present series).
Proof.
  unfold Spec.validSubset, validRate.
  induction series as [|[x|] r IH]; simpl; [reflexivity| |assumption].
  destruct (isFinite x && gtb x 0); simpl; now rewrite IH.
Qed.

(** With a single rate the first half is empty, its average is NaN, and no
    comparison with NaN holds. *)
Lemma metricsTrend_single (x : float) : metricsTrend [x] = Neutral.
Proof.
  change (metricsTrend [x])
    with (if gtb (Num.sum [x] / ofNat 1) ((Num.sum [] / ofNat 0) * 1.01) then Up
          else if Num.sum [x] / ofNat 1 <? (Num.sum [] / ofNat 0) * 0.99 then Down
          else Neutral).
  replace ((Num.sum [] / ofNat 0) * 1.01) with nan by (vm_compute; reflexivity).
  replace ((Num.sum [] / ofNat 0) * 0.99) with nan by (vm_compute; reflexivity).
  unfold gtb. now rewrite ltb_nan_l, ltb_nan_r.
Qed.

Lemma calculateVolatility_eq (rates : list float) :
  calculateVolatility rates
  = match Spec.volatility rates with
    | Some v =>
        if isFinite (Spec.populationStdDev (Spec.validSubset rates)) && isFinite v
        then Some v else None
    | None => None
    end.
Proof.
  unfold calculateVolatility, Spec.volatility, Spec.validSubset.
  pose proof (filter_length_le validRate rates) as Hle.
  destruct (List.length rates <? 2)%nat eqn:L.
  - apply Nat.ltb_lt in L.
    assert (E : (List.length (filter validRate rates) <? 2)%nat = true)
      by (apply Nat.ltb_lt; lia).
    now rewrite E.
  - destruct (List.length (filter validRate rates) <? 2)%nat; [reflexivity|].
    fold (Num.sum (filter validRate rates)).
    fold (Spec.mean (filter validRate rates)).
    destruct (isFinite (Spec.mean (filter validRate rates)));
      destruct (Spec.mean (filter validRate rates) =? 0); simpl; try reflexivity.
    fold (Spec.populationStdDev (filter validRate rates)).
    destruct (isFinite (Spec.populationStdDev (filter validRate rates)));
      reflexivity.
Qed.

Lemma metrics_volatility_eq (series : list (option float)) :
  option_map volatility (calculateMetrics series)
  = match Spec.validSubset (Spec.present series) with
    | [] => None
    | v => Some (if Spec.mean v =? 0 then 0
                 else Spec.populationStdDev v / Spec.mean v * 100)
    end.
Proof.
  unfold calculateMetrics. rewrite metrics_rates_valid.
  destruct (Spec.validSubset (Spec.present series)) as [|x r]; [reflexivity|].
  cbn [option_map volatility]. f_equal. unfold metricsVolatility.
  fold (Spec.mean (x :: r)).
  now destruct (Spec.mean (x :: r) =? 0).
Qed.

(** C4, as the code has it.  In the analytics card ([calculateVolatility])
    the volatility is the population standard deviation of the valid subset
    divided by its mean, times 100; it is absent when the valid subset has
    fewer than 2 points or the mean is 0 or non-finite, and also when the
    standard deviation or the percentage itself is non-finite (an overflow);
    [10,10,10] gives 0 and [10] gives no value.  In the chart
    ([calculateMetrics]) there is no volatility without a valid point, and
    with at least one it is never absent: 0 where the mean is 0, else the
    same quotient, so a single point gives 0. *)
Theorem volatility_card_and_chart :
  (forall rates,
      calculateVolatility rates
      = match Spec.volatility rates with
        | Some v =>
            if isFinite (Spec.populationStdDev (Spec.validSubset rates))
               && isFinite v
            then Some v else None
        | None => None
        end)
  /\ calculateVolatility [10; 10; 10] = Some 0
  /\ calculateVolatility [10] = None
  /\ (forall series,
        option_map volatility (calculateMetrics series)
        = match Spec.validSubset (Spec.present series) with
          | [] => None
          | v => Some (if Spec.mean v =? 0 then 0
                       else Spec.populationStdDev v / Spec.mean v * 100)
          end).
Proof.
  split; [exact calculateVolatility_eq|].
  split; [vm_compute; reflexivity|].
  split; [vm_compute; reflexivity|].
  exact metrics_volatility_eq.
Qed.

(** C4, as stated, fails: on [1e200, 1] the valid subset has two points and
    a finite mean other than 0, the quotient of the specification is
    infinite, and the card gives no value; on the one-point series [10] the
    specification has no value and the chart gives 0. *)
Lemma volatility_not_as_stated :
  Spec.volatility [1e200; 1] = Some infinity
  /\ calculateVolatility [1e200; 1] = None
  /\ calculateVolatility [1e200; 1] <> Spec.volatility [1e200; 1]
  /\ Spec.volatility [10] = None
  /\ option_map volatility (calculateMetrics [Some 10]) = Some 0.
Proof.
  repeat split; vm_compute; try reflexivity. discriminate.
Qed.

Lemma metrics_trend_eq (series : list (option float)) :
  option_map trend (calculateMetrics series)
  = match Spec.validSubset (Spec.present series) with
    | [] => None
    | _ => Some (Spec.trend (Spec.present series))
    end.
Proof.
  unfold calculateMetrics. rewrite metrics_rates_valid.
  unfold Spec.trend.
  destruct (Spec.validSubset (Spec.present series)) as [|x [|y r]];
    [reflexivity| |reflexivity].
  cbn [option_map trend]. now rewrite metricsTrend_single.
Qed.

Lemma determineTrend_eq (rates : list float) :
  determineTrend rates
  = let v := Spec.validSubset rates in
    if (List.length v <? 2)%nat then Neutral
    else
      let first := Spec.mean (firstn (List.length v / 2) v) in
      let second := Spec.mean (skipn (List.length v / 2) v) in
      let change := (second - first) / first * 100 in
      if isFinite first && isFinite second && negb (first =? 0)
         && isFinite change
      then if gtb change 0.1 then Up
           else if change <? -0.1 then Down
           else Neutral
      else Neutral.
Proof.
  unfold determineTrend, Spec.validSubset. cbv zeta.
  pose proof (filter_length_le validRate rates) as Hle.
  destruct (List.length rates <? 2)%nat eqn:L.
  - apply Nat.ltb_lt in L.
    assert (E : (List.length (filter validRate rates) <? 2)%nat = true)
      by (apply Nat.ltb_lt; lia).
    now rewrite E.
  - destruct (List.length (filter validRate rates) <? 2)%nat; [reflexivity|].
    set (v := filter validRate rates).
    fold (Spec.mean (firstn (List.length v / 2) v)).
    fold (Spec.mean (skipn (List.length v / 2) v)).
    destruct (isFinite (Spec.mean (firstn (List.length v / 2) v)));
      destruct (isFinite (Spec.mean (skipn (List.length v / 2) v)));
      destruct (Spec.mean (firstn (List.length v / 2) v) =? 0);
      simpl; try reflexivity.
    match goal with |- context [isFinite ?c] => destruct (isFinite c) end;
      reflexivity.
Qed.

(** C5, as the code has it.  The chart ([calculateMetrics]) has no trend
    without a valid point; otherwise it splits the valid subset at its
    floor-division midpoint and gives up if the mean of the second half
    exceeds the mean of the first half times 1.01, down if it is below that
    mean times 0.99, and neutral otherwise, also with a single valid point.
    The analytics card ([determineTrend]) splits in the same way but compares
    the relative change [(second - first) / first * 100] with 0.1 and -0.1,
    and is neutral with fewer than 2 valid points or where a mean or the
    change is non-finite or the first mean is 0.  Both give up on
    [1,1,1,2,2,2], down on [2,2,2,1,1,1] and neutral on [1,1,1,1]. *)
Theorem trend_chart_and_card :
  (forall series,
      option_map trend (calculateMetrics series)
      = match Spec.validSubset (Spec.present series) with
        | [] => None
        | _ => Some (Spec.trend (Spec.present series))
        end)
  /\ (forall rates,
        determineTrend rates
        = let v := Spec.validSubset rates in
          if (List.length v <? 2)%nat then Neutral
          else
            let first := Spec.mean (firstn (List.length v / 2) v) in
            let second := Spec.mean (skipn (List.length v / 2) v) in
            let change := (second - first) / first * 100 in
            if isFinite first && isFinite second && negb (first =? 0)
               && isFinite change
            then if gtb change 0.1 then Up
                 else if change <? -0.1 then Down
                 else Neutral
            else Neutral)
  /\ map (fun l => option_map trend (calculateMetrics (map Some l)))
         [[1; 1; 1; 2; 2; 2]; [2; 2; 2; 1; 1; 1]; [1; 1; 1; 1]]
     = [Some Up; Some Down; Some Neutral]
  /\ map determineTrend [[1; 1; 1; 2; 2; 2]; [2; 2; 2; 1; 1; 1]; [1; 1; 1; 1]]
     = [Up; Down; Neutral].
Proof.
  split; [exact metrics_trend_eq|].
  split; [exact determineTrend_eq|].
  split; vm_compute; reflexivity.
Qed.

(** C5, as stated, fails for the analytics card: on [100, 100.5] the second
    mean, 100.5, does not exceed 100 * 1.01, so the rule of the specification
    gives neutral, and [determineTrend] gives up (a change of 0.5 percent is
    above its threshold of 0.1). *)
Lemma trend_card_threshold :
  Spec.trend [100; 100.5] = Neutral
  /\ determineTrend [100; 100.5] = Up
  /\ determineTrend [100; 100.5] <> Spec.trend [100; 100.5].
Proof.
  repeat split; vm_compute; try reflexivity. discriminate.
Qed.

End VolatilityTrend.

(* ================================================================== *)
(** * Moving averages *)
(* ================================================================== *)

Section MovingAverages.

Import Num JsArray Analytics.

(** A loop that pushes one element per turn builds the list of these
    elements. *)
Lemma fold_push_on {A : Type} (P : nat -> Prop)
    (body : list A -> nat -> list A) (f : nat -> A) (l : list nat) :
  (forall r i, P i -> body r i = r ++ [f i]) ->
  Forall P l ->
  forall init, fold_left body l init = init ++ map f l.
Proof.
  intros Hb. induction l as [|i r IH]; intros HF init; simpl.
  - now rewrite app_nil_r.
  - inversion HF as [|? ? Hi HF']; subst.
    now rewrite Hb, IH, <- app_assoc.
Qed.

Lemma nth_error_map_seq {A : Type} (f : nat -> A) (n i : nat) :
  nth_error (map f (seq 0 n)) i = if (i <? n)%nat then Some (f i) else None.
Proof.
  destruct (i <? n)%nat eqn:L.
  - apply Nat.ltb_lt in L.
    rewrite nth_error_map, nth_error_seq.
    apply Nat.ltb_lt in L. now rewrite L.
  - apply Nat.ltb_ge in L. apply nth_error_None. now rewrite length_map, length_seq.
Qed.

Lemma clampPeriod_clamp (period : Z) :
  clampPeriod period = Z.of_nat (Spec.clamp period).
Proof.
  unfold clampPeriod, Spec.clamp.
  destruct (period <? 2)%Z eqn:L2; [apply Z.ltb_lt in L2; lia|].
  apply Z.ltb_ge in L2.
  destruct (100 <? period)%Z eqn:L100;
    [apply Z.ltb_lt in L100 | apply Z.ltb_ge in L100]; lia.
Qed.

Lemma clamp_bounds (period : Z) : (2 <= Spec.clamp period <= 100)%nat.
Proof.
  unfold Spec.clamp.
  destruct (period <? 2)%Z eqn:L2; [lia|]. apply Z.ltb_ge in L2.
  destruct (100 <? period)%Z eqn:L100;
    [apply Z.ltb_lt in L100 | apply Z.ltb_ge in L100]; lia.
Qed.

(** The slice of [calculateMA] is the trailing window. *)
Lemma slice_trailing {A : Type} (data : list A) (p i : nat) :
  (p - 1 <= i)%nat -> (i < List.length data)%nat -> (1 <= p)%nat ->
  slice (Z.of_nat i - Z.of_nat p + 1) (Z.of_nat i + 1) data
  = Spec.trailingWindow p i data.
Proof.
  intros Hp Hi H1. unfold slice, Spec.trailingWindow.
  destruct (Z.of_nat i - Z.of_nat p + 1 <? 0)%Z eqn:L1; [apply Z.ltb_lt in L1; lia|].
  destruct (Z.of_nat i + 1 <? 0)%Z eqn:L2; [apply Z.ltb_lt in L2; lia|].
  f_equal; [|f_equal]; lia.
Qed.

(** The slice of the seed of [calculateEMA] is a prefix. *)
Lemma slice_prefix {A : Type} (data : list A) (p i : nat) :
  (i < List.length data)%nat ->
  slice 0 (Z.min (Z.of_nat p) (Z.of_nat i + 1)) data
  = firstn (Nat.min p (i + 1)) data.
Proof.
  intros Hi. unfold slice. change (0 <? 0)%Z with false. cbv iota.
  destruct (Z.min (Z.of_nat p) (Z.of_nat i + 1) <? 0)%Z eqn:L;
    [apply Z.ltb_lt in L; lia|].
  replace (Z.min 0 (Z.of_nat (List.length data))) with 0%Z by lia.
  simpl skipn. f_equal. lia.
Qed.

Lemma meanOpt_guard (l : list float) :
  (if (0 <? List.length l)%nat
   then Some (Num.sum l / ofNat (List.length l))%float else None)
  = Spec.meanOpt l.
Proof. now destruct l. Qed.

(** The filter of the code keeps the valid points: the values that are
    present and finite. *)
Lemma validNumbers_points (l : list (option float)) :
  validNumbers l = Spec.validPoints l.
Proof.
  unfold validNumbers, Spec.validPoints, Spec.present, isFinite.
  induction l as [|[x|] r IH]; simpl; [reflexivity| |exact IH].
  destruct (is_finite x); simpl; now rewrite IH.
Qed.

Lemma validPoints_In (l : list (option float)) (x : float) :
  In x (Spec.validPoints l) <-> In (Some x) l /\ is_finite x = true.
Proof.
  unfold Spec.validPoints, Spec.present. rewrite filter_In, in_flat_map.
  split.
  - intros [(o & Ho & Hx) F]. destruct o as [y|]; [|destruct Hx].
    destruct Hx as [->|[]]. now split.
  - intros [H F]. split; [|exact F]. exists (Some x). split; [exact H | now left].
Qed.

Lemma ma_step_eq (data : list (option float)) (period : Z)
    (result : list (option float)) (i : nat) :
  (i < List.length data)%nat ->
  ma_step data period result i = result ++ [Spec.movingAverageAt data period i].
Proof.
  intros Hi. unfold ma_step, Spec.movingAverageAt. cbv zeta.
  pose proof (clamp_bounds period) as Hb.
  rewrite clampPeriod_clamp.
  destruct (Z.of_nat i <? Z.of_nat (Spec.clamp period) - 1)%Z eqn:L.
  - apply Z.ltb_lt in L.
    assert (E : (i <? Spec.clamp period - 1)%nat = true)
      by (apply Nat.ltb_lt; lia).
    now rewrite E.
  - apply Z.ltb_ge in L.
    assert (E : (i <? Spec.clamp period - 1)%nat = false)
      by (apply Nat.ltb_ge; lia).
    rewrite E, slice_trailing by lia.
    rewrite <- validNumbers_points, <- meanOpt_guard.
    now destruct (0 <? _)%nat.
Qed.

Lemma calculateMA_eq (data : list (option float)) (period : Z) :
  calculateMA data period
  = map (Spec.movingAverageAt data period) (seq 0 (List.length data)).
Proof.
  unfold calculateMA, for_each.
  rewrite (fold_push_on (fun i => (i < List.length data)%nat)
             (ma_step data period) (Spec.movingAverageAt data period)).
  - reflexivity.
  - intros r i. apply ma_step_eq.
  - apply Forall_forall. intros i Hi. apply in_seq in Hi. lia.
Qed.

(** C7: [calculateMA] clamps the period to [2, 100]; the output has one
    element per input; at an index below period - 1 it is absent, and from
    there on it is the mean of the valid points of the trailing window of
    period elements, their sum divided by their count (absent where the
    window holds none).  The valid points of a window are its values that
    are present and finite: an absent value, NaN and the infinities are
    ignored and do not count.  [movingAverage([1,2,3,4,5], 3)] is
    [absent, absent, 2, 3, 4], and with period 2 the series
    [1, absent, NaN, 4, infinity, 6] gives [absent, 1, absent, 4, 4, 6]. *)
Theorem calculateMA_trailing_mean (data : list (option float)) (period : Z) :
  List.length (calculateMA data period) = List.length data
  /\ (2 <= Spec.clamp period <= 100)%nat
  /\ ((2 <= period <= 100)%Z -> Z.of_nat (Spec.clamp period) = period)
  /\ clampPeriod period = Z.of_nat (Spec.clamp period)
  /\ (forall i,
        nth_error (calculateMA data period) i
        = if (i <? List.length data)%nat
          then Some (if (i <? Spec.clamp period - 1)%nat then None
                     else Spec.meanOpt
                            (Spec.validPoints
                               (Spec.trailingWindow (Spec.clamp period) i data)))
          else None)
  /\ (forall i x,
        In x (Spec.validPoints (Spec.trailingWindow (Spec.clamp period) i data))
        <-> In (Some x) (Spec.trailingWindow (Spec.clamp period) i data)
            /\ is_finite x = true)
  /\ (forall i,
        (Spec.clamp period - 1 <= i < List.length data)%nat ->
        nth_error (calculateMA data period) i
        = Some (match Spec.validPoints
                        (Spec.trailingWindow (Spec.clamp period) i data) with
                | [] => None
                | x :: r =>
                    Some (Num.sum (x :: r) / ofNat (List.length (x :: r)))%float
                end))
  /\ calculateMA [Some 1; Some 2; Some 3; Some 4; Some 5]%float 3
     = [None; None; Some 2; Some 3; Some 4]%float
  /\ calculateMA [Some 1; None; Some nan; Some 4; Some infinity; Some 6]%float 2
     = [None; Some 1; None; Some 4; Some 4; Some 6]%float
  /\ calculateMA [Some 1; None; Some nan; Some 4; Some infinity; Some 6]%float 1
     = [None; Some 1; None; Some 4; Some 4; Some 6]%float
  /\ calculateMA [Some 3; Some neg_infinity; None; Some 9; Some 6]%float 3
     = [None; None; Some 3; Some 9; Some 7.5]%float.
Proof.
  rewrite calculateMA_eq.
  split; [now rewrite length_map, length_seq|].
  split; [apply clamp_bounds|].
  split.
  { intros [H2 H100]. unfold Spec.clamp.
    destruct (period <? 2)%Z eqn:L2; [apply Z.ltb_lt in L2; lia|].
    destruct (100 <? period)%Z eqn:L100; [apply Z.ltb_lt in L100; lia|]. lia. }
  split; [apply clampPeriod_clamp|].
  split; [intros i; now rewrite nth_error_map_seq|].
  split; [intros i x; apply validPoints_In|].
  split; [|repeat split; vm_compute; reflexivity].
  intros i [Hlo Hhi]. rewrite nth_error_map_seq.
  apply Nat.ltb_lt in Hhi. rewrite Hhi. unfold Spec.movingAverageAt.
  assert (E : (i <? Spec.clamp period - 1)%nat = false)
    by (apply Nat.ltb_ge; lia).
  rewrite E. unfold Spec.meanOpt, Spec.mean.
  now destruct (Spec.validPoints _).
Qed.

Lemma calculateMA_trailing_mean_witness :
  (2 <= 2 <= 100)%Z
  /\ Z.of_nat (Spec.clamp 2) = 2%Z
  /\ nth_error
       (calculateMA
          [Some 1; None; Some nan; Some 4; Some infinity; Some 6]%float 2) 4
     = Some (Spec.meanOpt
               (Spec.validPoints
                  (Spec.trailingWindow (Spec.clamp 2) 4
                     [Some 1; None; Some nan; Some 4; Some infinity; Some 6]%float)))
  /\ Spec.validPoints
       (Spec.trailingWindow (Spec.clamp 2) 4
          [Some 1; None; Some nan; Some 4; Some infinity; Some 6]%float)
     = [4]%float.
Proof.
  assert (H : (2 <= 2 <= 100)%Z) by lia.
  split; [exact H|].
  destruct (calculateMA_trailing_mean
              [Some 1; None; Some nan; Some 4; Some infinity; Some 6]%float 2)
    as (_ & _ & Hclamp & _ & Hnth & _).
  split; [exact (Hclamp H)|].
  split; [exact (Hnth 4%nat) | reflexivity].
Defined.

Lemma multiplier_smoothing (period : Z) : multiplier period = Spec.smoothing period.
Proof.
  unfold multiplier, Spec.smoothing. rewrite clampPeriod_clamp.
  do 2 f_equal. lia.
Qed.

Lemma lastPresent_push (outputs : list (option float)) (o : option float) :
  Spec.lastPresent (outputs ++ [o])
  = match o with Some x => Some x | None => Spec.lastPresent outputs end.
Proof. unfold Spec.lastPresent. now rewrite fold_left_app. Qed.

Lemma firstn_snoc {A : Type} (l : list A) (n : nat) (d : A) :
  (n < List.length l)%nat -> firstn (S n) l = (firstn n l ++ [nth n l d])%list.
Proof.
  revert n. induction l as [|x r IH]; intros n Hn; [simpl in Hn; lia|].
  destruct n as [|n]; [reflexivity|].
  simpl in Hn. cbn [firstn nth app]. f_equal. apply IH. lia.
Qed.

Lemma validNumbers_app (a b : list (option float)) :
  validNumbers (a ++ b) = (validNumbers a ++ validNumbers b)%list.
Proof. unfold validNumbers. apply flat_map_app. Qed.

(** One turn of the loop pushes the output the specification gives for the
    state before it, and keeps the state unless that output is present.  In
    a state without a value no input before the turn, among the first
    period, is valid. *)
Lemma ema_step_eq (data : list (option float)) (period : Z)
    (ema : option float) (result : list (option float)) (i : nat) :
  (i < List.length data)%nat ->
  (ema = None ->
   validNumbers (firstn (Nat.min (Spec.clamp period) i) data) = []) ->
  ema_step data period (ema, result) i
  = (match Spec.emaAt data period ema i with Some x => Some x | None => ema end,
     result ++ [Spec.emaAt data period ema i]).
Proof.
  intros Hi Hno. unfold ema_step, Spec.emaAt.
  destruct (nth i data None) as [x|] eqn:N; [|reflexivity].
  unfold isFinite. destruct (is_finite x) eqn:F; [|reflexivity]. cbn [negb].
  destruct ema as [e|].
  - now rewrite multiplier_smoothing.
  - rewrite clampPeriod_clamp, slice_prefix, meanOpt_guard by assumption.
    specialize (Hno eq_refl).
    assert (E : Spec.meanOpt
                  (validNumbers
                     (firstn (Nat.min (Spec.clamp period) (i + 1)) data))
                = if (i <? Spec.clamp period)%nat
                  then Some (Spec.mean [x]) else None).
    { destruct (i <? Spec.clamp period)%nat eqn:L.
      - apply Nat.ltb_lt in L.
        replace (Nat.min (Spec.clamp period) (i + 1)) with (S i) by lia.
        replace (Nat.min (Spec.clamp period) i) with i in Hno by lia.
        rewrite (firstn_snoc data i None Hi), validNumbers_app, Hno, N.
        unfold validNumbers, isFinite. cbn [flat_map app]. now rewrite F.
      - apply Nat.ltb_ge in L.
        replace (Nat.min (Spec.clamp period) (i + 1)) with (Spec.clamp period)
          by lia.
        replace (Nat.min (Spec.clamp period) i) with (Spec.clamp period)
          in Hno by lia.
        now rewrite Hno. }
    rewrite E. now destruct (i <? Spec.clamp period)%nat.
Qed.

Lemma emaAt_invalid (data : list (option float)) (period : Z)
    (ema : option float) (i : nat) :
  Spec.emaAt data period ema i = None -> ema = None ->
  (i < Spec.clamp period)%nat ->
  validNumbers [nth i data None] = [].
Proof.
  unfold Spec.emaAt, validNumbers, isFinite. intros H -> L.
  apply Nat.ltb_lt in L. rewrite L in H.
  destruct (nth i data None) as [x|]; [|reflexivity]. cbn [flat_map app].
  destruct (is_finite x); [discriminate | reflexivity].
Qed.

Lemma ema_loop_inv (data : list (option float)) (period : Z) (n : nat) :
  (n <= List.length data)%nat ->
  let st := fold_left (ema_step data period) (seq 0 n) (None, []) in
  List.length (snd st) = n
  /\ fst st = Spec.lastPresent (snd st)
  /\ (fst st = None ->
      validNumbers (firstn (Nat.min (Spec.clamp period) n) data) = [])
  /\ forall i, (i < n)%nat ->
       nth_error (snd st) i
       = Some (Spec.emaAt data period (Spec.lastPresent (firstn i (snd st))) i).
Proof.
  induction n as [|n IH]; intros Hn; cbv zeta.
  - simpl. rewrite Nat.min_0_r. repeat split. intros i Hi. lia.
  - rewrite seq_S, fold_left_app. cbn [fold_left Nat.add].
    destruct (IH ltac:(lia)) as (Hlen & Hst & Hno & Hout).
    destruct (fold_left (ema_step data period) (seq 0 n) (None, []))
      as [ema result].
    simpl in Hlen, Hst, Hno, Hout.
    rewrite ema_step_eq by (try lia; exact Hno). cbn [fst snd].
    split; [rewrite length_app; simpl; lia|].
    split; [|split].
    + rewrite lastPresent_push, <- Hst.
      now destruct (Spec.emaAt data period ema n).
    + intros Hnone.
      destruct (Spec.emaAt data period ema n) as [v|] eqn:E; [discriminate|].
      specialize (Hno Hnone).
      destruct (Nat.lt_ge_cases n (Spec.clamp period)) as [L|L].
      * replace (Nat.min (Spec.clamp period) (S n)) with (S n) by lia.
        replace (Nat.min (Spec.clamp period) n) with n in Hno by lia.
        rewrite (firstn_snoc data n None) by lia.
        rewrite validNumbers_app, Hno.
        now rewrite (emaAt_invalid data period ema n E Hnone L).
      * replace (Nat.min (Spec.clamp period) (S n)) with (Spec.clamp period)
          by lia.
        now replace (Nat.min (Spec.clamp period) n) with (Spec.clamp period)
          in Hno by lia.
    + intros i Hi.
      assert (Hcase : (i < n)%nat \/ i = n) by lia.
      destruct Hcase as [Hlt | ->].
      * rewrite nth_error_app1, firstn_app by lia.
        replace (i - List.length result)%nat with 0%nat by lia.
        simpl firstn at 2. rewrite app_nil_r. now apply Hout.
      * rewrite nth_error_app2 by lia.
        replace (n - List.length result)%nat with 0%nat by lia.
        rewrite firstn_app.
        replace (n - List.length result)%nat with 0%nat by lia.
        simpl firstn at 2. rewrite app_nil_r.
        rewrite firstn_all2 by lia. now rewrite Hst.
Qed.

Lemma lastPresent_none (outputs : list (option float)) :
  (forall o, In o outputs -> o = None) -> Spec.lastPresent outputs = None.
Proof.
  induction outputs as [|o r IH] using rev_ind; intros H; [reflexivity|].
  rewrite lastPresent_push, (H o) by (apply in_or_app; right; now left).
  apply IH. intros o' Ho'. apply H, in_or_app. now left.
Qed.

Lemma validNumbers_prefix_nil (l : list (option float)) : forall k p,
  (k <= p)%nat ->
  validNumbers (firstn p l) = [] -> validNumbers (firstn k l) = [].
Proof.
  induction l as [|o r IH]; intros k p Hk H.
  - now rewrite firstn_nil.
  - destruct k as [|k]; [reflexivity|].
    destruct p as [|p]; [lia|].
    simpl in *. unfold validNumbers in *. simpl in *.
    apply app_eq_nil in H. destruct H as [Ho Hr].
    rewrite Ho. simpl. apply (IH k p); [lia | exact Hr].
Qed.

Lemma ema_unseeded_loop (data : list (option float)) (period : Z) (n : nat) :
  validNumbers (firstn (Spec.clamp period) data) = [] ->
  (n <= List.length data)%nat ->
  fold_left (ema_step data period) (seq 0 n) (None, []) = (None, repeat None n).
Proof.
  intros Hno. induction n as [|n IH]; intros Hn; [reflexivity|].
  rewrite seq_S, fold_left_app, IH by lia. cbn [fold_left Nat.add].
  assert (Hpre : validNumbers
                   (firstn (Nat.min (Spec.clamp period) n) data) = [])
    by (apply (validNumbers_prefix_nil data _ (Spec.clamp period));
        [lia | exact Hno]).
  rewrite (ema_step_eq data period None _ n ltac:(lia) (fun _ => Hpre)).
  assert (E : Spec.emaAt data period None n = None).
  { unfold Spec.emaAt. destruct (nth n data None) as [x|] eqn:N; [|reflexivity].
    destruct (is_finite x) eqn:F; [|reflexivity].
    destruct (n <? Spec.clamp period)%nat eqn:L; [|reflexivity].
    exfalso. apply Nat.ltb_lt in L.
    pose proof (validNumbers_prefix_nil data (S n) (Spec.clamp period)
                  ltac:(lia) Hno) as C.
    rewrite (firstn_snoc data n None) in C by lia.
    rewrite validNumbers_app, N in C.
    apply app_eq_nil in C. destruct C as [_ C].
    unfold validNumbers, isFinite in C. cbn [flat_map app] in C.
    rewrite F in C. discriminate C. }
  rewrite E. f_equal.
  change [@None float] with (repeat (@None float) 1).
  rewrite <- repeat_app. f_equal. lia.
Qed.

(** C6: [calculateEMA] clamps the period to [2, 100] and uses the factor
    [2 / (period + 1)]; the output has one element per input.  An input that
    is absent or not finite gives an absent output and leaves the state as
    it was.  The first valid input gives the seed when it is one of the
    first period inputs: the seed is the average of this one value, not of
    the valid values among the first period inputs; when none of the first
    period inputs is valid there is no output at all.  Every valid input
    after an output gives [(current - prev) * factor + prev], where [prev]
    is the last output that is present before it. *)
Theorem calculateEMA_recursion (data : list (option float)) (period : Z) :
  List.length (calculateEMA data period) = List.length data
  /\ (2 <= Spec.clamp period <= 100)%nat
  /\ clampPeriod period = Z.of_nat (Spec.clamp period)
  /\ multiplier period = (2 / ofNat (Spec.clamp period + 1))%float
  /\ (forall i,
        nth_error (calculateEMA data period) i
        = if (i <? List.length data)%nat
          then Some (Spec.emaAt data period
                       (Spec.lastPresent (firstn i (calculateEMA data period))) i)
          else None)
  /\ (forall i,
        nth_error data i = Some None
        \/ (exists x, nth_error data i = Some (Some x) /\ is_finite x = false) ->
        nth_error (calculateEMA data period) i = Some None)
  /\ (forall i x,
        nth_error data i = Some (Some x) -> is_finite x = true ->
        (forall j y, (j < i)%nat -> nth_error data j = Some (Some y) ->
                     is_finite y = false) ->
        nth_error (calculateEMA data period) i
        = Some (if (i <? Spec.clamp period)%nat
                then Some (Num.sum [x] / ofNat 1)%float else None))
  /\ (forall i x prev,
        nth_error data i = Some (Some x) -> is_finite x = true ->
        Spec.lastPresent (firstn i (calculateEMA data period)) = Some prev ->
        nth_error (calculateEMA data period) i
        = Some (Some ((x - prev) * (2 / ofNat (Spec.clamp period + 1)) + prev)%float))
  /\ (Spec.validPoints (firstn (Spec.clamp period) data) = [] ->
      calculateEMA data period = repeat None (List.length data))
  /\ calculateEMA [Some 2; None; Some 4; Some infinity; Some 6]%float 3
     = [Some 2; None; Some 3; None; Some 4.5]%float
  /\ calculateEMA [Some 1; Some 2; Some 3; Some 4; Some 5]%float 3
     = [Some 1; Some 1.5; Some 2.25; Some 3.125; Some 4.0625]%float
  /\ calculateEMA [Some infinity; Some nan; Some 1; Some 2]%float 3
     = [None; None; Some 1; Some 1.5]%float
  /\ calculateEMA [None; Some infinity; Some 5; Some 6]%float 2
     = [None; None; None; None]
  /\ calculateEMA [None; None; Some 5; Some 6]%float 2
     = [None; None; None; None].
Proof.
  destruct (ema_loop_inv data period (List.length data) (le_n _))
    as (Hlen & _ & _ & Hout).
  fold (for_each (List.length data) (ema_step data period) (None, [])) in *.
  fold (calculateEMA data period) in *.
  assert (Hnth : forall i,
             nth_error (calculateEMA data period) i
             = if (i <? List.length data)%nat
               then Some (Spec.emaAt data period
                            (Spec.lastPresent
                               (firstn i (calculateEMA data period))) i)
               else None).
  { intros i. destruct (i <? List.length data)%nat eqn:L.
    - apply Nat.ltb_lt in L. now apply Hout.
    - apply Nat.ltb_ge in L. apply nth_error_None. lia. }
  assert (Hin : forall i o, nth_error data i = Some o ->
                            (i <? List.length data)%nat = true
                            /\ nth i data None = o).
  { intros i o H. split.
    - apply Nat.ltb_lt, nth_error_Some. rewrite H. discriminate.
    - now apply nth_error_nth. }
  assert (Hbad : forall i,
             nth_error data i = Some None
             \/ (exists x, nth_error data i = Some (Some x)
                           /\ is_finite x = false) ->
             nth_error (calculateEMA data period) i = Some None).
  { intros i H. rewrite Hnth. unfold Spec.emaAt.
    destruct H as [H|(x & H & F)]; destruct (Hin _ _ H) as [L N];
      rewrite L, N; [reflexivity | now rewrite F]. }
  split; [exact Hlen|].
  split; [apply clamp_bounds|].
  split; [apply clampPeriod_clamp|].
  split; [apply multiplier_smoothing|].
  split; [exact Hnth|].
  split; [exact Hbad|].
  split; [|split; [|split; [|repeat split; vm_compute; reflexivity]]].
  3:{ rewrite <- validNumbers_points. intros Hno.
      unfold calculateEMA, for_each.
      now rewrite (ema_unseeded_loop data period _ Hno (le_n _)). }
  - intros i x Hi F Hbefore. rewrite Hnth.
    destruct (Hin _ _ Hi) as [L N]. rewrite L. f_equal.
    assert (Hprev : Spec.lastPresent (firstn i (calculateEMA data period)) = None).
    { apply lastPresent_none. intros o Ho.
      apply In_nth_error in Ho. destruct Ho as [j Hj].
      assert (Hji : (j < i)%nat).
      { destruct (Nat.lt_ge_cases j i) as [H|H]; [exact H|].
        rewrite nth_error_firstn in Hj.
        apply Nat.ltb_ge in H. now rewrite H in Hj. }
      rewrite nth_error_firstn in Hj.
      pose proof Hji as Hji'. apply Nat.ltb_lt in Hji'. rewrite Hji' in Hj.
      assert (Hjl : (j < List.length data)%nat).
      { apply Nat.ltb_lt in L. lia. }
      destruct (nth_error data j) as [[y|]|] eqn:Dj.
      - rewrite (Hbad j) in Hj; [congruence|].
        right. exists y. split; [exact Dj|]. now apply (Hbefore j y).
      - rewrite (Hbad j) in Hj; [congruence | left; exact Dj].
      - apply nth_error_None in Dj. lia. }
    rewrite Hprev. unfold Spec.emaAt. rewrite N, F. reflexivity.
  - intros i x prev Hi F Hprev. rewrite Hnth.
    destruct (Hin _ _ Hi) as [L N]. rewrite L, Hprev.
    unfold Spec.emaAt. now rewrite N, F.
Qed.

(** C6, as stated, fails: for the series 1, 2, 3, 4, 5 and period 3 the
    average of the valid values among the first three inputs is 2, the
    outputs of [calculateEMA] begin with 1, and 2 is none of them. *)
Theorem ema_seed_not_as_stated :
  Spec.seedAsStated [Some 1; Some 2; Some 3; Some 4; Some 5]%float 3
  = Some 2%float
  /\ calculateEMA [Some 1; Some 2; Some 3; Some 4; Some 5]%float 3
     = [Some 1; Some 1.5; Some 2.25; Some 3.125; Some 4.0625]%float
  /\ Spec.firstPresent
       (calculateEMA [Some 1; Some 2; Some 3; Some 4; Some 5]%float 3)
     = Some 1%float
  /\ Spec.firstPresent
       (calculateEMA [Some 1; Some 2; Some 3; Some 4; Some 5]%float 3)
     <> Spec.seedAsStated [Some 1; Some 2; Some 3; Some 4; Some 5]%float 3
  /\ ~ In (Spec.seedAsStated [Some 1; Some 2; Some 3; Some 4; Some 5]%float 3)
          (calculateEMA [Some 1; Some 2; Some 3; Some 4; Some 5]%float 3).
Proof.
  assert (E : calculateEMA [Some 1; Some 2; Some 3; Some 4; Some 5]%float 3
              = [Some 1; Some 1.5; Some 2.25; Some 3.125; Some 4.0625]%float)
    by (vm_compute; reflexivity).
  assert (S2 : Spec.seedAsStated [Some 1; Some 2; Some 3; Some 4; Some 5]%float 3
               = Some 2%float) by (vm_compute; reflexivity).
  rewrite E, S2. split; [reflexivity|]. split; [reflexivity|].
  split; [reflexivity|]. split.
  - intros H.
    apply (f_equal (fun o => match o with
                             | Some z => Prim2SF z
                             | None => S754_nan
                             end)) in H.
    vm_compute in H. discriminate H.
  - cbn [In]. intros [H|[H|[H|[H|[H|[]]]]]];
      apply (f_equal (fun o => match o with
                               | Some z => Prim2SF z
                               | None => S754_nan
                               end)) in H;
      vm_compute in H; discriminate H.
Qed.

End MovingAverages.

(* ================================================================== *)
(** * Currency strength *)
(* ================================================================== *)

Section StrengthFacts.

Import Num JsObject Strength.
Local Open Scope float_scope.

Lemma changeSince_term (current : float) (past : option float) :
  changeSince current past = Spec.changeTerm current past.
Proof.
  unfold changeSince, Spec.changeTerm. destruct past as [r|]; [|reflexivity].
  unfold gtb. destruct (0 <? r) eqn:L.
  - rewrite (positive_truthy r L). simpl. now rewrite andb_true_r.
  - now rewrite !andb_false_r.
Qed.

Lemma change24hOf_term (c : CurrencyData) :
  change24hOf c = Spec.change24Term (cd_changePercent24h c).
Proof.
  unfold change24hOf, Spec.change24Term, truthy, isFinite, is_finite.
  destruct (cd_changePercent24h c) as [x|]; [|reflexivity].
  now destruct (is_zero x), (is_nan x), (is_infinity x).
Qed.

Lemma strengthOf_score (a b c : float) :
  strengthOf a b c = Spec.strengthScore a b c.
Proof.
  unfold strengthOf, Spec.strengthScore.
  now rewrite (mul_comm a), (mul_comm b), (mul_comm c).
Qed.

Lemma strength_step_entry (h7 h30 : Rates) (results : list CurrencyStrength)
    (c : CurrencyData) :
  strength_step h7 h30 results c
  = results ++ match Spec.strengthEntry h7 h30 c with
               | Some r => [r]
               | None => []
               end.
Proof.
  unfold strength_step, Spec.strengthEntry, Analytics.validRate, Spec.scoreOf.
  cbv zeta. rewrite !changeSince_term, change24hOf_term, strengthOf_score.
  destruct (isFinite (cd_rate c)) eqn:F; simpl.
  - unfold gtb. rewrite (finite_leb_zero _ F).
    destruct (0 <? cd_rate c); simpl; [|now rewrite app_nil_r].
    destruct (isFinite (Spec.strengthScore _ _ _)); [reflexivity|].
    now rewrite app_nil_r.
  - now rewrite app_nil_r.
Qed.

Lemma strength_loop (h7 h30 : Rates) (currencies : list CurrencyData) :
  forall init,
    fold_left (strength_step h7 h30) currencies init
    = init ++ flat_map (fun c => match Spec.strengthEntry h7 h30 c with
                                 | Some r => [r]
                                 | None => []
                                 end) currencies.
Proof.
  induction currencies as [|c r IH]; intros init; simpl.
  - now rewrite app_nil_r.
  - now rewrite strength_step_entry, IH, <- app_assoc.
Qed.

Lemma insert_by_In {A : Type} (compare : A -> A -> float) (x y : A) (l : list A) :
  In y (insert_by compare x l) <-> y = x \/ In y l.
Proof.
  induction l as [|z r IH]; simpl.
  - intuition.
  - destruct (gtb (compare z x) 0); simpl; [intuition|].
    rewrite IH. intuition.
Qed.

Lemma sort_by_In {A : Type} (compare : A -> A -> float) (y : A) (l : list A) :
  In y (sort_by compare l) <-> In y l.
Proof.
  unfold sort_by.
  assert (H : forall acc,
             In y (fold_left (fun acc x => insert_by compare x acc) l acc)
             <-> In y l \/ In y acc).
  { induction l as [|x r IH]; intros acc; simpl.
    - intuition.
    - rewrite IH, insert_by_In. intuition. }
  rewrite H. simpl. intuition.
Qed.

Lemma sort_by_length {A : Type} (compare : A -> A -> float) (l : list A) :
  List.length (sort_by compare l) = List.length l.
Proof.
  unfold sort_by.
  assert (Hins : forall x acc,
             List.length (insert_by compare x acc) = S (List.length acc)).
  { intros x acc. induction acc as [|z r IH]; simpl; [reflexivity|].
    destruct (gtb (compare z x) 0); simpl; now rewrite ?IH. }
  assert (H : forall acc,
             List.length (fold_left (fun acc x => insert_by compare x acc) l acc)
             = (List.length l + List.length acc)%nat).
  { induction l as [|x r IH]; intros acc; simpl; [reflexivity|].
    rewrite IH, Hins. lia. }
  rewrite H. simpl. lia.
Qed.

(** C8: the result set of [calculateStrengths] holds, for every currency
    with a finite positive current rate and a finite score, one entry, and
    nothing else.  The score of the entry is
    [0.5 * change24h + 0.3 * change7d + 0.2 * change30d], where a term is 0
    when its source (the 24 hour change of the currency, the rate of 7 or of
    30 days ago) is unavailable or non-finite; the entry is strong for a score
    above 2, weak for a score below -2 and moderate otherwise.  A currency
    whose score is not finite has no entry. *)
Theorem calculateStrengths_entries
    (currencies : list CurrencyData) (h7 h30 : Rates) :
  (forall r,
      In r (calculateStrengths currencies h7 h30)
      <-> exists c, In c currencies /\ Spec.strengthEntry h7 h30 c = Some r)
  /\ List.length (calculateStrengths currencies h7 h30)
     = List.length (flat_map (fun c => match Spec.strengthEntry h7 h30 c with
                                       | Some r => [r]
                                       | None => []
                                       end) currencies)
  /\ (forall r,
        In r (calculateStrengths currencies h7 h30) ->
        exists c, In c currencies
          /\ Analytics.validRate (cd_rate c) = true
          /\ cs_code r = cd_code c
          /\ cs_strength r
             = 0.5 * Spec.change24Term (cd_changePercent24h c)
               + 0.3 * Spec.changeTerm (cd_rate c) (lookup (cd_code c) h7)
               + 0.2 * Spec.changeTerm (cd_rate c) (lookup (cd_code c) h30)
          /\ isFinite (cs_strength r) = true
          /\ cs_trend r = (if 2 <? cs_strength r then Strong
                           else if cs_strength r <? -2 then Weak
                           else Moderate))
  /\ (forall current, Spec.changeTerm current None = 0)
  /\ (forall current rate,
        isFinite rate = false -> Spec.changeTerm current (Some rate) = 0)
  /\ Spec.change24Term None = 0
  /\ (forall c, isFinite c = false -> Spec.change24Term (Some c) = 0).
Proof.
  assert (Hin : forall r,
      In r (calculateStrengths currencies h7 h30)
      <-> exists c, In c currencies /\ Spec.strengthEntry h7 h30 c = Some r).
  { intros r. unfold calculateStrengths.
    destruct currencies as [|c0 cs] eqn:E.
    - simpl. split; [tauto | intros (c & [] & _)].
    - rewrite <- E. rewrite sort_by_In, strength_loop. simpl.
      rewrite in_flat_map. split.
      + intros (c & Hc & Hr). exists c. split; [assumption|].
        destruct (Spec.strengthEntry h7 h30 c) as [r'|]; simpl in Hr; [|tauto].
        destruct Hr as [->|[]]. reflexivity.
      + intros (c & Hc & Hr). exists c. split; [assumption|].
        rewrite Hr. now left. }
  split; [exact Hin|].
  split.
  { unfold calculateStrengths. destruct currencies as [|c0 cs] eqn:E.
    - reflexivity.
    - rewrite <- E. now rewrite sort_by_length, strength_loop. }
  split.
  { intros r Hr. apply Hin in Hr. destruct Hr as (c & Hc & Hr).
    exists c. split; [assumption|].
    unfold Spec.strengthEntry in Hr.
    destruct (Analytics.validRate (cd_rate c)); [|discriminate].
    destruct (isFinite (Spec.scoreOf c h7 h30)) eqn:F; [|discriminate].
    simpl in Hr. injection Hr as <-. simpl.
    repeat split; assumption. }
  split; [reflexivity|].
  split; [intros current rate F; simpl; now rewrite F|].
  split; [reflexivity|].
  intros c F. simpl. now rewrite F.
Qed.

End StrengthFacts.

(* ================================================================== *)
(** * The API service *)
(* ================================================================== *)

Section ServiceFacts.

Import JsString Keys Num JsObject Service.
Local Open Scope string_scope.

(** The request fails exactly when the first attempt and the retries all
    fail. *)
Lemma retry_failed (count : nat) (outcomes : list HttpResult) :
  retry count outcomes = Failed
  <-> forall n, (n <= count)%nat -> nth n outcomes HttpError = HttpError.
Proof.
  revert outcomes. induction count as [|count IH]; intros outcomes.
  - destruct outcomes as [|[body|] rest]; simpl.
    + split; [intros _ [|n] _; reflexivity | reflexivity].
    + split; [discriminate|]. intros H. specialize (H 0%nat (le_n _)). discriminate.
    + split; [|reflexivity]. intros _ n Hn. assert (n = 0)%nat by lia. now subst.
  - destruct outcomes as [|[body|] rest]; simpl.
    + split; [intros _ [|n] _; reflexivity | reflexivity].
    + split; [discriminate|]. intros H. specialize (H 0%nat ltac:(lia)). discriminate.
    + rewrite IH. split.
      * intros H [|n] Hn; [reflexivity|]. apply H. lia.
      * intros H n Hn. apply (H (S n)). lia.
Qed.

Variable dateParses : string -> bool.
Variable today : string.

(** C9: when the entry of the request is not served from the cache and the
    first attempt and the two retries all fail, [getLatestRates] delivers a
    value and no error: the rate object with no rates whose base is the
    sanitized base currency of the request, a three-letter code, EUR by
    default (as for the empty string or a base of two letters); the cache is
    left as the lookup left it. *)
Theorem getLatestRates_fallback_on_failure
    (tGet tEvict tSet : Z) (requested : string) (symbols : option (list string))
    (cache : Cache.t ExchangeRate) (outcomes : list HttpResult) :
  fst (Cache.getCached tGet (latestKey requested symbols) cache) = None ->
  (forall n, (n <= 2)%nat -> nth n outcomes HttpError = HttpError) ->
  getLatestRates dateParses today tGet tEvict tSet requested symbols cache outcomes
  = (Next (mkExchangeRate (sanitizeCurrencyCode requested) today []),
     snd (Cache.getCached tGet (latestKey requested symbols) cache))
  /\ isCurrencyCode (sanitizeCurrencyCode requested) = true
  /\ sanitizeCurrencyCode EmptyString = "EUR"
  /\ sanitizeCurrencyCode "us" = "EUR"
  /\ sanitizeCurrencyCode " usd " = "USD".
Proof.
  intros Hmiss Hfail.
  apply (retry_failed retryAttempts) in Hfail.
  split; [|split; [apply sanitizeCurrencyCode_valid | repeat split]].
  unfold getLatestRates.
  change (buildCacheKey
            [PStr "latest"; PStr (sanitizeCurrencyCode requested);
             PArr (sanitizeCurrencyArray symbols)])
    with (latestKey requested symbols).
  destruct (Cache.getCached tGet (latestKey requested symbols) cache)
    as [[cached|] cache1]; simpl in Hmiss; [discriminate|].
  rewrite Hfail. cbn [obs_map catchError]. unfold getFallbackExchangeRate.
  unfold createEmptyExchangeRate.
  rewrite sanitizeCurrencyCode_idempotent.
  now rewrite (isCurrencyCode_nonempty _ (sanitizeCurrencyCode_valid requested)).
Qed.

End ServiceFacts.

Lemma getLatestRates_fallback_on_failure_witness :
  Service.getLatestRates (fun _ => true) "2024-12-26" 0 0 0
    "usd" (Some ["GBP"%string]) []
    [Service.HttpError; Service.HttpError; Service.HttpError]
  = (Service.Next (Service.mkExchangeRate "USD" "2024-12-26" []), []).
Proof.
  assert (Hmiss : fst (Cache.getCached (V := Service.ExchangeRate) 0
                         (Keys.latestKey "usd" (Some ["GBP"%string])) [])
                  = None) by reflexivity.
  assert (Hfail : forall n, (n <= 2)%nat ->
            nth n [Service.HttpError; Service.HttpError; Service.HttpError]
                Service.HttpError = Service.HttpError).
  { intros [|[|[|n]]] Hn; try reflexivity. lia. }
  exact (proj1 (getLatestRates_fallback_on_failure
                  (fun _ => true) "2024-12-26" 0 0 0 "usd"
                  (Some ["GBP"%string]) [] _ Hmiss Hfail)).
Defined.

Section ConversionFacts.

Import JsString Keys Num JsObject Service.
Local Open Scope float_scope.

Variable parseFloat : string -> float.
Variable dateParses : string -> bool.
Variable today : string.

Lemma sanitizeAmount_finite (amount : JsValue) :
  isFinite (sanitizeAmount parseFloat amount) = true.
Proof.
  unfold sanitizeAmount. destruct amount as [x|s|]; [| |reflexivity].
  - destruct (isFinite x) eqn:F; simpl; [|reflexivity].
    now destruct (geb x 0).
  - destruct (isFinite (parseFloat s)) eqn:F; simpl; [|reflexivity].
    now destruct (geb (parseFloat s) 0).
Qed.

(** [getLatestRates] always delivers a value. *)
Lemma getLatestRates_delivers (tGet tEvict tSet : Z) (requested : string)
    (symbols : option (list string)) (cache : Cache.t ExchangeRate)
    (outcomes : list HttpResult) :
  exists data,
    fst (getLatestRates dateParses today tGet tEvict tSet requested symbols
           cache outcomes) = Next data.
Proof.
  unfold getLatestRates.
  destruct (Cache.getCached tGet _ cache) as [[cached|] cache1];
    [now exists cached|].
  destruct (retry retryAttempts outcomes) as [body|]; cbn [obs_map catchError fst].
  - eexists. reflexivity.
  - eexists. reflexivity.
Qed.

(** The rate test of [convertCurrency] accepts the finite positive rates. *)
Lemma rate_test (rate : float) :
  negb (truthy rate) || negb (isFinite rate) || (rate <=? 0)
  = negb (isFinite rate && (0 <? rate)).
Proof.
  destruct (isFinite rate) eqn:F.
  - unfold isFinite in F. rewrite (finite_leb_zero rate F).
    destruct (0 <? rate) eqn:L; [|now rewrite orb_true_r].
    now rewrite (positive_truthy rate L).
  - now rewrite orb_true_r.
Qed.

(** C10: [convertCurrency] delivers exactly one number, finite and not
    negative: 0 when the sanitized amount is not positive, when the latest
    rates hold no rate for the target currency or one that is non-finite or
    not positive, or when the product is non-finite; otherwise the sanitized
    amount times that rate. *)
Theorem convertCurrency_result
    (tGet tEvict tSet : Z) (from to : string) (amount : JsValue)
    (cache : Cache.t ExchangeRate) (outcomes : list HttpResult) :
  exists result data,
    fst (convertCurrency parseFloat dateParses today tGet tEvict tSet
           from to amount cache outcomes) = Next result
    /\ isFinite result = true
    /\ (0 <=? result) = true
    /\ fst (getLatestRates dateParses today tGet tEvict tSet
              (sanitizeCurrencyCode from) (Some [sanitizeCurrencyCode to])
              cache outcomes) = Next data
    /\ result
       = let sanitizedAmount := sanitizeAmount parseFloat amount in
         if sanitizedAmount <=? 0 then 0
         else match lookup (sanitizeCurrencyCode to) (rates data) with
              | None => 0
              | Some rate =>
                  if isFinite rate && (0 <? rate)
                     && isFinite (sanitizedAmount * rate)
                  then sanitizedAmount * rate
                  else 0
              end.
Proof.
  destruct (getLatestRates_delivers tGet tEvict tSet (sanitizeCurrencyCode from)
              (Some [sanitizeCurrencyCode to]) cache outcomes) as [data Hdata].
  pose proof (sanitizeAmount_finite amount) as Fa.
  unfold convertCurrency. cbv zeta.
  destruct (sanitizeAmount parseFloat amount <=? 0) eqn:La.
  - exists 0, data. repeat split; assumption.
  - destruct (getLatestRates dateParses today tGet tEvict tSet
                (sanitizeCurrencyCode from) (Some [sanitizeCurrencyCode to])
                cache outcomes) as [latest cache'].
    simpl in Hdata. subst latest. cbn [obs_map catchError fst].
    destruct (lookup (sanitizeCurrencyCode to) (rates data)) as [rate|] eqn:Hl.
    + rewrite rate_test.
      destruct (isFinite rate) eqn:Fr; cbn [andb negb];
        [|exists 0, data; rewrite Hl, Fr; repeat split].
      destruct (0 <? rate) eqn:Lr; cbn [andb negb];
        [|exists 0, data; rewrite Hl, Fr, Lr; repeat split].
      destruct (isFinite (sanitizeAmount parseFloat amount * rate)) eqn:Fp;
        [|exists 0, data; rewrite Hl, Fr, Lr, Fp; repeat split].
      exists (sanitizeAmount parseFloat amount * rate), data.
      rewrite Hl, Fr, Lr, Fp.
      repeat split; try assumption.
      apply mul_positive_nonneg; try assumption.
      now apply not_leb_zero_positive.
    + exists 0, data. rewrite Hl. repeat split.
Qed.

End ConversionFacts.

Lemma calculateStrengths_entries_witness :
  In (Strength.mkCurrencyStrength "USD" "US Dollar" 17 Strength.Strong 4 50 0)
     (Strength.calculateStrengths
        [Strength.mkCurrencyData "USD" "US Dollar" 3 None (Some 4%float)]
        [("USD"%string, 2%float)] [])
  /\ exists c,
       In c [Strength.mkCurrencyData "USD" "US Dollar" 3 None (Some 4%float)]
       /\ Spec.strengthEntry [("USD"%string, 2%float)] [] c
          = Some (Strength.mkCurrencyStrength
                    "USD" "US Dollar" 17 Strength.Strong 4 50 0).
Proof.
  assert (H : In (Strength.mkCurrencyStrength
                    "USD" "US Dollar" 17 Strength.Strong 4 50 0)
                 (Strength.calculateStrengths
                    [Strength.mkCurrencyData "USD" "US Dollar" 3 None (Some 4%float)]
                    [("USD"%string, 2%float)] [])).
  { left. vm_compute. reflexivity. }
  split; [exact H|].
  exact (proj1 (proj1 (calculateStrengths_entries
                         [Strength.mkCurrencyData "USD" "US Dollar" 3 None
                            (Some 4%float)]
                         [("USD"%string, 2%float)] []) _) H).
Defined.

(* ================================================================== *)
(** * Further properties of the rate cache *)
(* ================================================================== *)

Section CacheRoundTrip.

Import Cache.
Local Open Scope Z_scope.

Context {V : Type}.
Implicit Types (c : Cache.t V) (key k : string) (e : CacheEntry V).

(** X1: a lookup after an insertion under the same key gives back the value
    just stored as long as less than five minutes have passed on the clock
    since the insertion, and nothing from then on, whatever the cache held
    before and whether or not the insertion evicted an entry. *)
Theorem getCached_after_setCache c (now nowEvict nowSet : Z) key (d : V) :
  fst (getCached now key (setCache nowEvict nowSet key d c))
  = if now - nowSet <? 5 * 60 * 1000 then Some d else None.
Proof.
  unfold getCached, setCache, cacheTimeout.
  rewrite map_get_set_same. cbn [timestamp data].
  now destruct (now - nowSet <? 5 * 60 * 1000).
Qed.

Lemma map_set_keys_present c key e e0 :
  map_get key c = Some e0 -> map fst (map_set key e c) = map fst c.
Proof.
  induction c as [|[k' e'] r IH]; simpl; [discriminate|].
  destruct (String.eqb k' key) eqn:E; simpl; [reflexivity|].
  intros H. now rewrite IH.
Qed.

Lemma map_set_keys_absent c key e :
  map_get key c = None -> map fst (map_set key e c) = map fst c ++ [key].
Proof.
  induction c as [|[k' e'] r IH]; simpl; [reflexivity|].
  destruct (String.eqb k' key) eqn:E; simpl; [discriminate|].
  intros H. now rewrite IH.
Qed.

(** X2: below the capacity of 100 entries an insertion touches the entry of
    its key only: every other key keeps its entry, the keys keep their
    order, a key that was present keeps its place and the size, and a new key
    goes last and adds one to the size. *)
Theorem setCache_below_capacity c (nowEvict nowSet : Z) key (d : V) :
  (map_size c < 100)%nat ->
  (forall k, k <> key ->
     map_get k (setCache nowEvict nowSet key d c) = map_get k c)
  /\ match map_get key c with
     | Some _ =>
         map fst (setCache nowEvict nowSet key d c) = map fst c
         /\ map_size (setCache nowEvict nowSet key d c) = map_size c
     | None =>
         map fst (setCache nowEvict nowSet key d c) = (map fst c ++ [key])%list
         /\ map_size (setCache nowEvict nowSet key d c) = S (map_size c)
     end.
Proof.
  intros Hsz. unfold setCache, maxCacheSize.
  assert (E : (100 <=? map_size c)%nat = false) by (apply Nat.leb_gt; lia).
  rewrite E. split.
  - intros k Hk. now apply map_get_set_other.
  - rewrite map_set_size.
    destruct (map_get key c) as [e0|] eqn:G; split; try reflexivity.
    + now apply (map_set_keys_present c key _ e0).
    + now apply map_set_keys_absent.
Qed.

Lemma map_get_filter c key (f : string * CacheEntry V -> bool) :
  NoDup (map fst c) ->
  map_get key (filter f c)
  = match map_get key c with
    | Some e => if f (key, e) then Some e else None
    | None => None
    end.
Proof.
  induction c as [|[k' e'] r IH]; simpl; intros H; [reflexivity|].
  inversion H as [|? ? Hn Hr]; subst.
  destruct (String.eqb k' key) eqn:E.
  - apply String.eqb_eq in E. subst.
    destruct (f (key, e')) eqn:F; simpl.
    + now rewrite String.eqb_refl.
    + rewrite (IH Hr). now rewrite (map_get_not_In r key Hn).
  - destruct (f (k', e')); simpl; [rewrite E|]; now apply IH.
Qed.

(** X3: [cleanupCache] removes exactly the entries that a lookup at the same
    clock value would refuse: every entry left is younger than five minutes,
    the cache does not grow, and every key is answered by [getCached] after
    the cleanup as it was before. *)
Theorem cleanupCache_keeps_fresh c (now : Z) :
  NoDup (map fst c) ->
  (forall k e, In (k, e) (cleanupCache now c) ->
     In (k, e) c /\ now - timestamp e < 5 * 60 * 1000)
  /\ (forall k e, In (k, e) c -> now - timestamp e < 5 * 60 * 1000 ->
      In (k, e) (cleanupCache now c))
  /\ (map_size (cleanupCache now c) <= map_size c)%nat
  /\ (forall key,
        fst (getCached now key (cleanupCache now c))
        = fst (getCached now key c)).
Proof.
  intros Hnd. unfold cleanupCache, cacheTimeout.
  split; [|split; [|split]].
  - intros k e H. apply filter_In in H. destruct H as [Hin Hf].
    split; [assumption|]. simpl in Hf.
    apply negb_true_iff, Z.leb_gt in Hf. lia.
  - intros k e Hin Hage. apply filter_In. split; [assumption|]. simpl.
    apply negb_true_iff, Z.leb_gt. lia.
  - apply filter_length_le.
  - intros key. unfold getCached, cacheTimeout.
    rewrite map_get_filter by assumption.
    destruct (map_get key c) as [e|]; [|reflexivity]. cbn [snd negb].
    destruct (5 * 60 * 1000 <=? now - timestamp e) eqn:L; cbn [negb].
    + apply Z.leb_le in L.
      assert (E : (now - timestamp e <? 5 * 60 * 1000) = false)
        by (apply Z.ltb_ge; lia).
      now rewrite E.
    + apply Z.leb_gt in L.
      assert (E : (now - timestamp e <? 5 * 60 * 1000) = true)
        by (apply Z.ltb_lt; lia).
      now rewrite E.
Qed.

End CacheRoundTrip.

Lemma setCache_below_capacity_witness :
  let c : Cache.t nat := [("latest_EUR_USD"%string, Cache.mkEntry 7%nat 1000%Z)] in
  (Cache.map_size c < 100)%nat
  /\ Cache.map_get "latest_EUR_USD"
       (Cache.setCache 2000%Z 2000%Z "latest_EUR_GBP" 8%nat c)
     = Some (Cache.mkEntry 7%nat 1000%Z).
Proof.
  intros c. unfold Cache.t in c.
  assert (Hsz : (Cache.map_size c < 100)%nat) by (vm_compute; lia).
  split; [exact Hsz|].
  apply (proj1 (setCache_below_capacity c 2000%Z 2000%Z "latest_EUR_GBP" 8%nat Hsz)).
  discriminate.
Defined.

Lemma cleanupCache_keeps_fresh_witness :
  let c : Cache.t nat :=
    [("latest_EUR_USD"%string, Cache.mkEntry 7%nat 1000%Z);
     ("latest_EUR_GBP"%string, Cache.mkEntry 8%nat 2000%Z)] in
  NoDup (map fst c)
  /\ (Cache.map_size (Cache.cleanupCache 301000%Z c) <= Cache.map_size c)%nat.
Proof.
  intros c. unfold Cache.t in c.
  assert (Hnd : NoDup (map fst c)).
  { repeat constructor; simpl; intuition discriminate. }
  split; [exact Hnd|].
  exact (proj1 (proj2 (proj2 (cleanupCache_keeps_fresh c 301000%Z Hnd)))).
Defined.

(* ================================================================== *)
(** * Further properties of the sanitizers and the key builder *)
(* ================================================================== *)

Section KeyBounds.

Import JsString Keys.
Local Open Scope string_scope.

Lemma slice0_length (n : nat) (s : string) : (String.length (slice0 n s) <= n)%nat.
Proof.
  revert s. induction n as [|n IH]; intros s; simpl; [lia|].
  destruct s as [|a r]; simpl; [lia|]. specialize (IH r). lia.
Qed.

Lemma slice0_nonempty (n : nat) (s : string) :
  nonempty (slice0 (S n) s) = nonempty s.
Proof. now destruct s. Qed.

(** X4: a cache key is at most 200 characters long, and the key of a request
    is never the empty string (the base currency is always part of it), so
    the test [if (oldestKey)] of the eviction never mistakes a key of the
    service for no key. *)
Theorem buildCacheKey_bounded_nonempty :
  (forall parts, (String.length (buildCacheKey parts) <= 200)%nat)
  /\ (forall prefix base symbols,
        nonempty (requestKey prefix base symbols) = true)
  /\ (forall prefix base symbols,
        (1 <= String.length (requestKey prefix base symbols) <= 200)%nat).
Proof.
  assert (Hlen : forall parts, (String.length (buildCacheKey parts) <= 200)%nat).
  { intros parts. apply slice0_length. }
  assert (Hne : forall prefix base symbols,
             nonempty (requestKey prefix base symbols) = true).
  { intros prefix base symbols. rewrite requestKey_composition.
    rewrite slice0_nonempty.
    destruct (filter nonempty prefix) as [|x r] eqn:F.
    - cbn [app]. apply join_nonempty.
      apply isCurrencyCode_is_nonempty, sanitizeCurrencyCode_valid.
    - cbn [app]. apply join_nonempty.
      assert (Hin : In x (filter nonempty prefix)) by (rewrite F; now left).
      apply filter_In in Hin. tauto. }
  split; [exact Hlen|]. split; [exact Hne|].
  intros prefix base symbols. split; [|apply Hlen].
  specialize (Hne prefix base symbols).
  destruct (requestKey prefix base symbols); [discriminate|simpl; lia].
Qed.

(** X5: [sanitizeCurrencyCode] always gives a code of exactly three
    letters A-Z; it leaves a code of three letters A-Z as it is, so
    sanitizing twice is sanitizing once. *)
Theorem sanitizeCurrencyCode_canonical :
  (forall code, isCurrencyCode (sanitizeCurrencyCode code) = true)
  /\ (forall code, String.length (sanitizeCurrencyCode code) = 3%nat)
  /\ (forall code, isCurrencyCode code = true -> sanitizeCurrencyCode code = code)
  /\ (forall code,
        sanitizeCurrencyCode (sanitizeCurrencyCode code) = sanitizeCurrencyCode code).
Proof.
  split; [exact sanitizeCurrencyCode_valid|].
  split.
  { intros code. pose proof (sanitizeCurrencyCode_valid code) as H.
    unfold isCurrencyCode in H. apply andb_true_iff in H.
    now apply Nat.eqb_eq. }
  split; [exact sanitizeCurrencyCode_fixed | exact sanitizeCurrencyCode_idempotent].
Qed.

Lemma sanitizeCurrencyCode_canonical_witness :
  isCurrencyCode "JPY" = true /\ sanitizeCurrencyCode "JPY" = "JPY".
Proof.
  assert (H : isCurrencyCode "JPY" = true) by reflexivity.
  split; [exact H|].
  exact (proj1 (proj2 (proj2 sanitizeCurrencyCode_canonical)) "JPY" H).
Defined.

Lemma dedup_from_length (l seen : list string) :
  (List.length (dedup_from seen l) <= List.length l)%nat.
Proof.
  revert seen. induction l as [|y r IH]; intros seen; simpl; [lia|].
  destruct (existsb (String.eqb y) seen); simpl.
  - specialize (IH seen). lia.
  - specialize (IH (y :: seen)). lia.
Qed.

(** X6: [sanitizeCurrencyArray] gives a list of distinct three-letter codes
    that holds exactly the sanitized codes of the elements of its argument:
    no element is dropped, a bad one counts as EUR.  Applied to its own
    result it changes nothing. *)
Theorem sanitizeCurrencyArray_distinct_codes (l : list string) :
  NoDup (sanitizeCurrencyArray (Some l))
  /\ (forall x, In x (sanitizeCurrencyArray (Some l)) -> isCurrencyCode x = true)
  /\ (forall x, In x (sanitizeCurrencyArray (Some l))
                <-> exists y, In y l /\ x = sanitizeCurrencyCode y)
  /\ sanitizeCurrencyArray (Some (sanitizeCurrencyArray (Some l)))
     = sanitizeCurrencyArray (Some l)
  /\ (List.length (sanitizeCurrencyArray (Some l)) <= List.length l)%nat.
Proof.
  assert (Hnd : NoDup (sanitizeCurrencyArray (Some l))) by apply dedup_from_NoDup.
  assert (Hcodes : forall x, In x (sanitizeCurrencyArray (Some l)) ->
                             isCurrencyCode x = true)
    by apply sanitizeCurrencyArray_codes.
  split; [exact Hnd|]. split; [exact Hcodes|]. split; [|split].
  - intros x. unfold sanitizeCurrencyArray, dedup.
    rewrite dedup_from_In, filter_In, in_map_iff. split.
    + intros [[(y & <- & Hy) _] _]. now exists y.
    + intros (y & Hy & ->). split; [|tauto]. split.
      * now exists y.
      * apply sanitizeCurrencyCode_valid.
  - set (r := sanitizeCurrencyArray (Some l)) in *.
    unfold sanitizeCurrencyArray at 1.
    rewrite map_fixed.
    + rewrite filter_all by assumption.
      apply dedup_from_fresh; [assumption | intros x _ []].
    + intros x Hx. apply sanitizeCurrencyCode_fixed, Hcodes, Hx.
  - unfold sanitizeCurrencyArray, dedup.
    rewrite dedup_from_length, filter_length_le. now rewrite length_map.
Qed.

End KeyBounds.

Lemma sanitizeCurrencyArray_distinct_codes_witness :
  In "USD"%string (Keys.sanitizeCurrencyArray (Some ["usd"; "USD"]%string))
  /\ Keys.isCurrencyCode "USD" = true.
Proof.
  assert (H : In "USD"%string
                (Keys.sanitizeCurrencyArray (Some ["usd"; "USD"]%string)))
    by (vm_compute; left; reflexivity).
  split; [exact H|].
  exact (proj1 (proj2 (sanitizeCurrencyArray_distinct_codes
                         ["usd"; "USD"]%string)) "USD"%string H).
Defined.

(* ================================================================== *)
(** * Validated responses *)
(* ================================================================== *)

Section ValidatedRates.

Import JsString Keys Num JsObject Service WellFormed.
Local Open Scope float_scope.

Lemma assign_In (key : string) (x : float) (o : Rates) (k : string) (v : float) :
  In (k, v) (assign key x o) -> (k = key /\ v = x) \/ In (k, v) o.
Proof.
  induction o as [|[k' v'] r IH]; simpl.
  - intros [[= <- <-]|[]]. now left.
  - destruct (String.eqb k' key) eqn:E; simpl.
    + apply String.eqb_eq in E. subst. intros [[= <- <-]|H]; auto.
    + intros [H|H]; auto. destruct (IH H); auto.
Qed.

Lemma assign_keys (key : string) (x : float) (o : Rates) (k : string) :
  In k (map fst (assign key x o)) -> k = key \/ In k (map fst o).
Proof.
  induction o as [|[k' v'] r IH]; simpl.
  - intuition.
  - destruct (String.eqb k' key); simpl; intuition.
Qed.

Lemma assign_NoDup (key : string) (x : float) (o : Rates) :
  NoDup (map fst o) -> NoDup (map fst (assign key x o)).
Proof.
  induction o as [|[k' v'] r IH]; simpl; intros H.
  - repeat constructor. simpl. tauto.
  - inversion H as [|? ? Hn Hr]; subst.
    destruct (String.eqb k' key) eqn:E; simpl; [now constructor|].
    constructor; [|now apply IH].
    intros Hin. apply assign_keys in Hin. destruct Hin as [->|Hin].
    + now rewrite String.eqb_refl in E.
    + contradiction.
Qed.

Lemma assign_fresh (key : string) (x : float) (o : Rates) :
  ~ In key (map fst o) -> assign key x o = o ++ [(key, x)].
Proof.
  induction o as [|[k' v'] r IH]; simpl; intros H; [reflexivity|].
  destruct (String.eqb k' key) eqn:E.
  - apply String.eqb_eq in E. tauto.
  - f_equal. apply IH. tauto.
Qed.

Lemma rates_step_valid (acc : Rates) (kv : string * float) :
  validRates acc -> validRates (rates_step acc kv).
Proof.
  intros [Hnd Hv]. unfold rates_step. destruct kv as [key x]. cbn [fst snd].
  destruct (nonempty _ && isFinite x && gtb x 0) eqn:C; [|split; assumption].
  apply andb_true_iff in C. destruct C as [C Hpos].
  apply andb_true_iff in C. destruct C as [_ Hfin].
  split; [now apply assign_NoDup|].
  intros code rate Hin. apply assign_In in Hin.
  destruct Hin as [[-> ->]|Hin]; [|now apply Hv].
  split; [apply sanitizeCurrencyCode_valid | now split].
Qed.

Lemma rates_loop_valid (entries : list (string * float)) : forall acc,
  validRates acc -> validRates (fold_left rates_step entries acc).
Proof.
  induction entries as [|kv r IH]; intros acc H; simpl; [assumption|].
  now apply IH, rates_step_valid.
Qed.

(** Every rate of the result comes from an entry of the body whose key
    sanitizes to its code. *)
Lemma rates_loop_source (entries : list (string * float)) : forall acc code rate,
  In (code, rate) (fold_left rates_step entries acc) ->
  In (code, rate) acc
  \/ exists key, In (key, rate) entries /\ sanitizeCurrencyCode key = code.
Proof.
  induction entries as [|[key x] r IH]; intros acc code rate Hin; simpl in Hin.
  - now left.
  - destruct (IH _ _ _ Hin) as [Hacc|(k0 & Hk0 & E)].
    + unfold rates_step in Hacc. cbn [fst snd] in Hacc.
      destruct (nonempty _ && isFinite x && gtb x 0); [|now left].
      apply assign_In in Hacc. destruct Hacc as [[-> ->]|Hacc]; [|now left].
      right. exists key. split; [now left | reflexivity].
    + right. exists k0. split; [now right | assumption].
Qed.

Lemma rates_loop_fixed (l : Rates) : forall acc,
  NoDup (map fst (acc ++ l)) ->
  (forall code rate, In (code, rate) l ->
     isCurrencyCode code = true /\ isFinite rate = true /\ (0 <? rate) = true) ->
  fold_left rates_step l acc = acc ++ l.
Proof.
  induction l as [|[k v] r IH]; intros acc Hnd Hv; simpl.
  - now rewrite app_nil_r.
  - destruct (Hv k v (or_introl eq_refl)) as (Hk & Hf & Hp).
    unfold rates_step at 2. cbn [fst snd].
    rewrite (sanitizeCurrencyCode_fixed k Hk), (isCurrencyCode_is_nonempty k Hk), Hf.
    unfold gtb. rewrite Hp. cbn [andb].
    rewrite map_app in Hnd. simpl in Hnd.
    rewrite assign_fresh.
    + rewrite IH.
      * now rewrite <- app_assoc.
      * rewrite <- app_assoc. now rewrite map_app.
      * intros code rate Hin. apply Hv. now right.
    + apply NoDup_remove_2 in Hnd. intros Hin. apply Hnd.
      apply in_or_app. now left.
Qed.

Lemma isDigit_plain (c : ascii) :
  isDigit c = true ->
  is_ws c = false /\ (isDigit c || Ascii.eqb c "-")%bool = true.
Proof.
  destruct c as [[] [] [] [] [] [] [] []]; vm_compute; intros H;
    try discriminate H; split; reflexivity.
Qed.

Variable dateParses : string -> bool.
Variable today : string.

(** A date of the form YYYY-MM-DD that the host parses passes the date
    sanitizer unchanged. *)
Lemma sanitizeDate_fixed (d : string) :
  isDateShape d = true -> dateParses d = true ->
  sanitizeDate dateParses today d = d.
Proof.
  intros Hshape Hparse.
  destruct d as [|y1 [|y2 [|y3 [|y4 [|h1 [|m1 [|m2 [|h2 [|d1 [|d2 [|x r]]]]]]]]]]];
    try discriminate Hshape.
  pose proof Hshape as Hs.
  unfold isDateShape in Hs. cbn [list_ascii_of_string forallb] in Hs.
  rewrite !andb_true_iff in Hs.
  destruct Hs as [[(Hy1 & Hy2 & Hy3 & Hy4 & Hm1 & Hm2 & Hd1 & Hd2 & _) Hh1] Hh2].
  apply Ascii.eqb_eq in Hh1, Hh2. subst h1 h2.
  destruct (isDigit_plain _ Hy1) as [Wy1 Ky1].
  destruct (isDigit_plain _ Hy2) as [_ Ky2].
  destruct (isDigit_plain _ Hy3) as [_ Ky3].
  destruct (isDigit_plain _ Hy4) as [_ Ky4].
  destruct (isDigit_plain _ Hm1) as [_ Km1].
  destruct (isDigit_plain _ Hm2) as [_ Km2].
  destruct (isDigit_plain _ Hd1) as [_ Kd1].
  destruct (isDigit_plain _ Hd2) as [Wd2 Kd2].
  unfold sanitizeDate, trim. cbn [trimStart]. rewrite Wy1.
  cbn [trimEnd]. rewrite Wd2.
  cbn [keep]. rewrite Ky1, Ky2, Ky3, Ky4, Km1, Km2, Kd1, Kd2.
  change (isDigit "-" || Ascii.eqb "-" "-")%bool with true. cbn [slice0].
  now rewrite Hshape, Hparse.
Qed.

(** X7: whatever the body of the response, [validateExchangeRate] gives a
    well-formed rate object: its base is a three-letter code, the codes of
    its rates are distinct three-letter codes, and every rate is finite and
    above 0.  Each rate is a value the body gives for a key that sanitizes to
    its code; a body without base or rates gives no rate at all. *)
Theorem validateExchangeRate_well_formed (data : Body) (base : string) :
  validExchangeRate (validateExchangeRate dateParses today data base)
  /\ match data with
     | BodyObject (Some b) _ (Some entries) =>
         forall code rate,
           In (code, rate)
              (rates (validateExchangeRate dateParses today data base)) ->
           exists key, In (key, rate) entries /\ sanitizeCurrencyCode key = code
     | _ => rates (validateExchangeRate dateParses today data base) = []
     end.
Proof.
  assert (Hempty : forall b0, validExchangeRate (createEmptyExchangeRate today b0)).
  { intros b0. unfold createEmptyExchangeRate. split; simpl.
    - rewrite (isCurrencyCode_nonempty _ (sanitizeCurrencyCode_valid b0)).
      apply sanitizeCurrencyCode_valid.
    - split; [constructor | intros ? ? []]. }
  unfold validateExchangeRate.
  destruct data as [[b|] d [entries|]|]; try (split; [apply Hempty | reflexivity]).
  destruct (nonempty b) eqn:Hb; cbn [negb].
  - change (fold_left _ entries []) with (fold_left rates_step entries []).
    split.
    + split; simpl.
      * pose proof (sanitizeCurrencyCode_valid b) as Hv.
        destruct (sanitizeCurrencyCode b); [discriminate | exact Hv].
      * apply rates_loop_valid. split; [constructor | intros ? ? []].
    + intros code rate Hin. simpl in Hin.
      destruct (rates_loop_source _ _ _ _ Hin) as [[]|H]; exact H.
  - split; [apply Hempty|]. intros code rate [].
Qed.

(** X8: validation is the identity on validated data: a well-formed rate
    object whose date has the form YYYY-MM-DD and is accepted by the host's
    date parser comes back unchanged when it is validated as a response
    body. *)
Theorem validateExchangeRate_round_trip (er : ExchangeRate) (base : string) :
  validExchangeRate er ->
  isDateShape (date er) = true ->
  dateParses (date er) = true ->
  validateExchangeRate dateParses today (bodyOf er) base = er.
Proof.
  intros [Hbase [Hnd Hv]] Hshape Hparse.
  destruct er as [b d r]. simpl in *.
  unfold validateExchangeRate, bodyOf. cbn [Service.base Service.date Service.rates].
  rewrite (isCurrencyCode_is_nonempty b Hbase). cbn [negb].
  change (fold_left _ r []) with (fold_left rates_step r []).
  rewrite (rates_loop_fixed r [] Hnd Hv). cbn [app].
  rewrite (sanitizeCurrencyCode_fixed b Hbase), (sanitizeDate_fixed d Hshape Hparse).
  destruct b; [discriminate | reflexivity].
Qed.

Lemma setCache_incl (c : Cache.t ExchangeRate) (tEvict tSet : Z) (key : string)
    (d : ExchangeRate) (k : string) (e : Cache.CacheEntry ExchangeRate) :
  In (k, e) (Cache.setCache tEvict tSet key d c) ->
  e = Cache.mkEntry d tSet \/ In (k, e) c.
Proof.
  unfold Cache.setCache. intros H.
  assert (Hset : forall c0, In (k, e) (Cache.map_set key (Cache.mkEntry d tSet) c0) ->
                            e = Cache.mkEntry d tSet \/ In (k, e) c0).
  { induction c0 as [|[k' e'] r IH]; simpl.
    - intros [[= <- <-]|[]]. now left.
    - destruct (String.eqb k' key); simpl.
      + intros [[= <- <-]|Hr]; auto.
      + intros [Hh|Hr]; auto. destruct (IH Hr); auto. }
  apply Hset in H. destruct H as [H|H]; [now left | right].
  destruct (_ <=? _)%nat; [now apply (evict_incl c tEvict) | assumption].
Qed.

(** X9: a cache that holds well-formed rate objects only keeps doing so
    under [getLatestRates], and the value delivered is well formed too: no
    caller ever receives a rate that is not finite or not above 0, or a code
    that is not three letters, whatever the network answers. *)
Theorem getLatestRates_well_formed
    (tGet tEvict tSet : Z) (requested : string) (symbols : option (list string))
    (cache : Cache.t ExchangeRate) (outcomes : list HttpResult) :
  validCache cache ->
  validCache (snd (getLatestRates dateParses today tGet tEvict tSet requested
                     symbols cache outcomes))
  /\ exists data,
       fst (getLatestRates dateParses today tGet tEvict tSet requested
              symbols cache outcomes) = Next data
       /\ validExchangeRate data.
Proof.
  intros Hc. unfold getLatestRates.
  set (key := buildCacheKey _).
  assert (Hget : validCache (snd (Cache.getCached tGet key cache))
                 /\ forall d, fst (Cache.getCached tGet key cache) = Some d ->
                              validExchangeRate d).
  { unfold Cache.getCached.
    destruct (Cache.map_get key cache) as [e|] eqn:G; [|split; [exact Hc | discriminate]].
    apply map_get_In in G.
    destruct (_ <? _)%Z; simpl.
    - split; [exact Hc|]. intros d [= <-]. apply (Hc _ _ G).
    - split; [|discriminate]. intros k e' Hin.
      apply (Hc k e'). eapply map_delete_incl, Hin. }
  destruct (Cache.getCached tGet key cache) as [[cached|] cache1];
    simpl in Hget; destruct Hget as [Hc1 Hd].
  - split; [exact Hc1|]. exists cached. split; [reflexivity | now apply Hd].
  - destruct (retry retryAttempts outcomes) as [body|]; cbn [obs_map catchError fst snd].
    + destruct (validateExchangeRate_well_formed body (sanitizeCurrencyCode requested))
        as [Hv _].
      split.
      * intros k e Hin. apply setCache_incl in Hin.
        destruct Hin as [->|Hin]; [exact Hv | now apply (Hc1 k e)].
      * eexists. split; [reflexivity | exact Hv].
    + split; [exact Hc1|]. eexists. split; [reflexivity|].
      destruct (validateExchangeRate_well_formed BodyOther (sanitizeCurrencyCode requested))
        as [Hv _].
      exact Hv.
Qed.

(** X10: after a request that was not served from the cache and whose fetch
    succeeded, the same request is answered from the cache for the next five
    minutes: it delivers the same value, leaves the cache as it is, and does
    not depend on what the network would answer. *)
Theorem getLatestRates_served_from_cache
    (tGet tEvict tSet : Z) (requested : string) (symbols : option (list string))
    (cache : Cache.t ExchangeRate) (outcomes : list HttpResult)
    (tGet' tEvict' tSet' : Z) (outcomes' : list HttpResult) :
  fst (Cache.getCached tGet (latestKey requested symbols) cache) = None ->
  retry retryAttempts outcomes <> Failed ->
  (tGet' - tSet < 5 * 60 * 1000)%Z ->
  getLatestRates dateParses today tGet' tEvict' tSet' requested symbols
    (snd (getLatestRates dateParses today tGet tEvict tSet requested symbols
            cache outcomes))
    outcomes'
  = getLatestRates dateParses today tGet tEvict tSet requested symbols
      cache outcomes.
Proof.
  intros Hmiss Hok Hfresh. unfold getLatestRates.
  change (buildCacheKey
            [PStr "latest"; PStr (sanitizeCurrencyCode requested);
             PArr (sanitizeCurrencyArray symbols)])
    with (latestKey requested symbols).
  set (key := latestKey requested symbols) in *.
  destruct (Cache.getCached tGet key cache) as [[cached|] cache1];
    simpl in Hmiss; [discriminate|].
  destruct (retry retryAttempts outcomes) as [body|]; [|contradiction].
  cbn [obs_map catchError fst snd].
  unfold Cache.getCached at 1. unfold Cache.setCache at 1.
  rewrite map_get_set_same. cbn [Cache.timestamp Cache.data].
  unfold Cache.cacheTimeout.
  assert (E : (tGet' - tSet <? 5 * 60 * 1000)%Z = true) by (apply Z.ltb_lt; lia).
  now rewrite E.
Qed.

End ValidatedRates.

Lemma valid_sample_rate :
  WellFormed.validExchangeRate
    (Service.mkExchangeRate "EUR"%string "2024-12-26"%string [("USD"%string, 1.1%float)]).
Proof.
  split; [reflexivity|]. split.
  - constructor; [intros [] | constructor].
  - intros code rate [[= <- <-]|[]]. repeat split; reflexivity.
Defined.

Lemma validateExchangeRate_round_trip_witness :
  WellFormed.validExchangeRate
    (Service.mkExchangeRate "EUR"%string "2024-12-26"%string [("USD"%string, 1.1%float)])
  /\ Service.validateExchangeRate (fun _ => true) "2024-12-27"%string
       (WellFormed.bodyOf
          (Service.mkExchangeRate "EUR"%string "2024-12-26"%string [("USD"%string, 1.1%float)]))
       "GBP"%string
     = Service.mkExchangeRate "EUR"%string "2024-12-26"%string [("USD"%string, 1.1%float)].
Proof.
  split; [exact valid_sample_rate|].
  apply (validateExchangeRate_round_trip (fun _ => true) "2024-12-27"%string
           (Service.mkExchangeRate "EUR"%string "2024-12-26"%string [("USD"%string, 1.1%float)])
           "GBP"%string valid_sample_rate); reflexivity.
Defined.

Lemma getLatestRates_well_formed_witness :
  WellFormed.validCache
    [("latest_EUR_USD"%string,
      Cache.mkEntry
        (Service.mkExchangeRate "EUR"%string "2024-12-26"%string [("USD"%string, 1.1%float)]) 0%Z)]
  /\ exists data,
       fst (Service.getLatestRates (fun _ => true) "2024-12-27"%string
              400000 400000 400000 "eur"%string (Some ["usd"%string])
              [("latest_EUR_USD"%string,
                Cache.mkEntry
                  (Service.mkExchangeRate "EUR"%string "2024-12-26"%string [("USD"%string, 1.1%float)])
                  0%Z)]
              [Service.HttpError; Service.HttpError; Service.HttpError])
       = Service.Next data
       /\ WellFormed.validExchangeRate data.
Proof.
  assert (H : WellFormed.validCache
                [("latest_EUR_USD"%string,
                  Cache.mkEntry
                    (Service.mkExchangeRate "EUR"%string "2024-12-26"%string
                       [("USD"%string, 1.1%float)]) 0%Z)]).
  { intros key e [[= <- <-]|[]]. exact valid_sample_rate. }
  split; [exact H|].
  exact (proj2 (getLatestRates_well_formed (fun _ => true) "2024-12-27"%string
                  400000 400000 400000 "eur"%string (Some ["usd"%string]) _
                  [Service.HttpError; Service.HttpError; Service.HttpError] H)).
Defined.

Lemma getLatestRates_served_from_cache_witness :
  Service.getLatestRates (fun _ => true) "2024-12-27"%string 100 100 100
    "eur"%string (Some ["usd"%string])
    (snd (Service.getLatestRates (fun _ => true) "2024-12-27"%string 0 5 10
            "eur"%string (Some ["usd"%string]) []
            [Service.HttpOk
               (Service.BodyObject (Some "EUR"%string) None
                  (Some [("USD"%string, 1.1%float)]))]))
    [Service.HttpError; Service.HttpError; Service.HttpError]
  = Service.getLatestRates (fun _ => true) "2024-12-27"%string 0 5 10
      "eur"%string (Some ["usd"%string]) []
      [Service.HttpOk
         (Service.BodyObject (Some "EUR"%string) None
            (Some [("USD"%string, 1.1%float)]))].
Proof.
  apply (getLatestRates_served_from_cache (fun _ => true) "2024-12-27"%string).
  - reflexivity.
  - vm_compute. discriminate.
  - lia.
Defined.

(* ================================================================== *)
(** * Order and signs of binary64 numbers *)
(* ================================================================== *)

Section FloatOrder.

Import FloatSign.
Local Open Scope float_scope.

Lemma SFltb_trans (x y z : spec_float) :
  SFltb x y = true -> SFltb y z = true -> SFltb x z = true.
Proof.
  unfold SFltb.
  destruct x as [sx|sx| |sx mx ex], y as [sy|sy| |sy my ey],
           z as [sz|sz| |sz mz ez];
    simpl; try discriminate; try reflexivity;
    try (destruct sx; simpl; try discriminate; try reflexivity);
    try (destruct sy; simpl; try discriminate; try reflexivity);
    try (destruct sz; simpl; try discriminate; try reflexivity).
  all: repeat match goal with
       | |- context [Z.compare ?a ?b] =>
           destruct (Z.compare_spec a b); subst; simpl
       end; try discriminate; try reflexivity; try lia.
  all: rewrite ?Pos.compare_cont_spec; unfold Pos.switch_Eq;
       repeat match goal with
       | |- context [Pos.compare ?a ?b] =>
           destruct (Pos.compare_spec a b); subst; simpl
       end; try discriminate; try reflexivity; try lia.
Qed.

Lemma SFleb_negb_ltb (x y : spec_float) :
  x <> S754_nan -> y <> S754_nan -> SFleb x y = negb (SFltb y x).
Proof.
  unfold SFleb, SFltb.
  destruct x as [sx|sx| |sx mx ex], y as [sy|sy| |sy my ey];
    simpl; try congruence; try reflexivity; intros _ _;
    try (destruct sx; simpl; try reflexivity);
    try (destruct sy; simpl; try reflexivity).
  all: rewrite (Z.compare_antisym ex ey);
       destruct (Z.compare ex ey) eqn:E; simpl; try reflexivity.
  all: rewrite !Pos.compare_cont_spec; unfold Pos.switch_Eq;
       rewrite (Pos.compare_antisym mx my);
       destruct (Pos.compare mx my); reflexivity.
Qed.

(** [<] on numbers is transitive. *)
Lemma ltb_trans (x y z : float) :
  (x <? y) = true -> (y <? z) = true -> (x <? z) = true.
Proof. rewrite !FloatAxioms.ltb_spec. apply SFltb_trans. Qed.

Lemma ltb_irrefl (x : float) : (x <? x) = false.
Proof.
  rewrite FloatAxioms.ltb_spec. unfold SFltb.
  destruct (Prim2SF x) as [sx|sx| |sx mx ex]; simpl; try reflexivity;
    destruct sx; simpl; try reflexivity;
    now rewrite Z.compare_refl, Pos.compare_cont_refl.
Qed.

Lemma finite_not_nan (x : float) : is_finite x = true -> Prim2SF x <> S754_nan.
Proof.
  intros F. destruct (is_finite_SF x F) as [[s E]|(s & m & e & E)];
    rewrite E; discriminate.
Qed.

(** On finite numbers [x <= y] is the negation of [y < x]. *)
Lemma finite_leb_negb_ltb (x y : float) :
  is_finite x = true -> is_finite y = true -> (x <=? y) = negb (y <? x).
Proof.
  intros Fx Fy. rewrite FloatAxioms.leb_spec, FloatAxioms.ltb_spec.
  apply SFleb_negb_ltb; now apply finite_not_nan.
Qed.

Lemma round_aux_sign (s : bool) (m e : Z) (l : location) :
  match binary_round_aux prec emax s m e l with
  | S754_zero s' | S754_infinity s' | S754_finite s' _ _ => s' = s
  | S754_nan => True
  end.
Proof.
  unfold binary_round_aux.
  destruct (shr_fexp prec emax m e l) as [mrs' e'].
  destruct (shr_fexp prec emax
              (round_nearest_even (shr_m mrs') (loc_of_shr_record mrs'))
              e' loc_Exact) as [mrs'' e''].
  destruct (shr_m mrs''); [reflexivity| |exact I].
  destruct (e'' <=? emax - prec)%Z; reflexivity.
Qed.

Lemma round_aux_nonneg (m e : Z) (l : location) :
  SFnonneg (binary_round_aux prec emax false m e l).
Proof.
  pose proof (round_aux_sign false m e l) as H. unfold SFnonneg.
  destruct (binary_round_aux prec emax false m e l); auto.
Qed.

Lemma round_nonneg (m : positive) (e : Z) :
  SFnonneg (binary_round prec emax false m e).
Proof.
  unfold binary_round. destruct (shl_align _ _ _). apply round_aux_nonneg.
Qed.

Lemma mul_nonneg (x y : float) : nonneg x -> nonneg y -> nonneg (x * y).
Proof.
  unfold nonneg. rewrite FloatAxioms.mul_spec. unfold SF64mul, SFmul.
  destruct (Prim2SF x) as [sx|sx| |sx mx ex], (Prim2SF y) as [sy|sy| |sy my ey];
    simpl; intros; subst; simpl; auto.
  apply round_aux_nonneg.
Qed.

(** A square is not negative. *)
Lemma square_nonneg (x : float) : nonneg (x * x).
Proof.
  unfold nonneg. rewrite FloatAxioms.mul_spec. unfold SF64mul, SFmul.
  destruct (Prim2SF x) as [sx|sx| |sx mx ex]; simpl; auto; try (now destruct sx).
  rewrite xorb_nilpotent. apply round_aux_nonneg.
Qed.

Lemma div_nonneg (x y : float) : nonneg x -> nonneg y -> nonneg (x / y).
Proof.
  unfold nonneg. rewrite FloatAxioms.div_spec. unfold SF64div, SFdiv.
  destruct (Prim2SF x) as [sx|sx| |sx mx ex], (Prim2SF y) as [sy|sy| |sy my ey];
    simpl; intros; subst; simpl; auto.
  destruct (SFdiv_core_binary _ _ _ _ _ _) as [[mz ez] lz].
  apply round_aux_nonneg.
Qed.

Lemma add_nonneg (x y : float) : nonneg x -> nonneg y -> nonneg (x + y).
Proof.
  unfold nonneg. rewrite FloatAxioms.add_spec. unfold SF64add, SFadd.
  destruct (Prim2SF x) as [sx|sx| |sx mx ex], (Prim2SF y) as [sy|sy| |sy my ey];
    simpl; intros; subst; simpl; auto.
  unfold binary_normalize.
  destruct (shl_align mx ex _) as [a ?], (shl_align my ey _) as [b ?]. simpl.
  apply round_nonneg.
Qed.

Lemma sqrt_nonneg (x : float) : nonneg x -> nonneg (sqrt x).
Proof.
  unfold nonneg. rewrite FloatAxioms.sqrt_spec. unfold SF64sqrt, SFsqrt.
  destruct (Prim2SF x) as [sx|sx| |sx mx ex]; simpl; intros; subst; simpl; auto.
  destruct (SFsqrt_core_binary _ _ _ _) as [[mz ez] lz].
  apply round_aux_nonneg.
Qed.

Lemma ofNat_nonneg (n : nat) : nonneg (Num.ofNat n).
Proof.
  unfold nonneg, Num.ofNat. rewrite of_uint63_spec.
  pose proof (Uint63.to_Z_bounded (Uint63.of_Z (Z.of_nat n))) as H.
  unfold binary_normalize.
  destruct (Uint63.to_Z (Uint63.of_Z (Z.of_nat n))) eqn:E; simpl; auto.
  - apply round_nonneg.
  - lia.
Qed.

(** A number above 0 is not negative. *)
Lemma positive_nonneg (x : float) : (0 <? x) = true -> nonneg x.
Proof.
  unfold nonneg. rewrite FloatAxioms.ltb_spec, Prim2SF_zero. unfold SFltb.
  destruct (Prim2SF x) as [s|s| |s m e]; simpl; try discriminate;
    destruct s; try discriminate; reflexivity.
Qed.

(** A finite number that is not negative is [>= 0]. *)
Lemma nonneg_finite_leb (x : float) :
  nonneg x -> is_finite x = true -> (0 <=? x) = true.
Proof.
  unfold nonneg. intros H F. apply is_finite_SF in F.
  rewrite FloatAxioms.leb_spec, Prim2SF_zero.
  destruct F as [[s E]|(s & m & e & E)]; rewrite E in *; simpl in H; subst;
    reflexivity.
Qed.

Lemma sum_from_nonneg (l : list float) : forall acc,
  nonneg acc -> Forall nonneg l -> nonneg (fold_left PrimFloat.add l acc).
Proof.
  induction l as [|x r IH]; intros acc Ha Hl; simpl; [assumption|].
  inversion Hl as [|? ? Hx Hr]; subst. apply IH; [|assumption].
  now apply add_nonneg.
Qed.

Lemma zero_nonneg : nonneg 0.
Proof. reflexivity. Qed.

End FloatOrder.

(* ================================================================== *)
(** * Further properties of the statistics *)
(* ================================================================== *)

Section StatisticsFacts.

Import Num JsArray Analytics FloatSign.
Local Open Scope float_scope.

Lemma filter_idempotent {A : Type} (f : A -> bool) (l : list A) :
  filter f (filter f l) = filter f l.
Proof.
  apply filter_all. intros x Hx. apply filter_In in Hx. tauto.
Qed.

Lemma present_map_Some (l : list float) : Spec.present (map Some l) = l.
Proof. induction l as [|x r IH]; simpl; [reflexivity | now rewrite IH]. Qed.

(** X11: values that are not finite or not above 0 never influence a
    statistic: the volatility and the trend of the analytics card and the
    metrics of the chart are those of the valid values alone, in their
    order. *)
Theorem statistics_ignore_invalid_values :
  (forall rates,
      calculateVolatility rates = calculateVolatility (filter validRate rates))
  /\ (forall rates,
        determineTrend rates = determineTrend (filter validRate rates))
  /\ (forall series,
        calculateMetrics series
        = calculateMetrics (map Some (filter validRate (Spec.present series)))).
Proof.
  split; [|split].
  - intros rates. rewrite !calculateVolatility_eq.
    unfold Spec.volatility, Spec.validSubset. now rewrite filter_idempotent.
  - intros rates. rewrite !determineTrend_eq.
    unfold Spec.validSubset. now rewrite filter_idempotent.
  - intros series. unfold calculateMetrics.
    rewrite !metrics_rates_valid. unfold Spec.validSubset.
    now rewrite present_map_Some, filter_idempotent.
Qed.

Lemma valid_rates_nonneg (rates : list float) :
  Forall nonneg (filter validRate rates).
Proof.
  apply Forall_forall. intros x Hx. apply filter_In in Hx.
  destruct Hx as [_ Hv]. unfold validRate, gtb in Hv.
  apply andb_true_iff in Hv. now apply positive_nonneg.
Qed.

Lemma squares_from_nonneg (mean : float) (l : list float) : forall acc,
  nonneg acc ->
  nonneg (fold_left (fun sum rate => let diff := rate - mean in sum + diff * diff)
                    l acc).
Proof.
  induction l as [|x r IH]; intros acc Ha; simpl; [assumption|].
  apply IH. apply add_nonneg; [assumption | apply square_nonneg].
Qed.

(** X12: a volatility that the analytics card shows is a finite number and
    not negative: [calculateVolatility] never sets NaN, an infinity or a
    negative value. *)
Theorem calculateVolatility_finite_nonneg (rates : list float) (v : float) :
  calculateVolatility rates = Some v ->
  isFinite v = true /\ (0 <=? v) = true.
Proof.
  unfold calculateVolatility.
  destruct (List.length rates <? 2)%nat; [discriminate|].
  set (valid := filter validRate rates).
  destruct (List.length valid <? 2)%nat; [discriminate|].
  set (mean := fold_left PrimFloat.add valid 0 / ofNat (List.length valid)).
  destruct (negb (isFinite mean) || (mean =? 0)); [discriminate|].
  set (variance := fold_left _ valid 0 / ofNat (List.length valid)).
  destruct (negb (isFinite (sqrt variance))); [discriminate|].
  destruct (isFinite (sqrt variance / mean * 100)) eqn:F; [|discriminate].
  intros [= <-]. split; [exact F|].
  apply nonneg_finite_leb; [|exact F].
  apply mul_nonneg; [|reflexivity].
  apply div_nonneg.
  - apply sqrt_nonneg, div_nonneg; [|apply ofNat_nonneg].
    apply squares_from_nonneg, zero_nonneg.
  - apply div_nonneg; [|apply ofNat_nonneg].
    apply sum_from_nonneg; [apply zero_nonneg | apply valid_rates_nonneg].
Qed.

End StatisticsFacts.

Lemma calculateVolatility_finite_nonneg_witness :
  Analytics.calculateVolatility [1; 2; 3; 4]%float = Some 44.721359549995796%float
  /\ Num.isFinite 44.721359549995796%float = true.
Proof.
  assert (H : Analytics.calculateVolatility [1; 2; 3; 4]%float
              = Some 44.721359549995796%float) by (vm_compute; reflexivity).
  split; [exact H|].
  exact (proj1 (calculateVolatility_finite_nonneg _ _ H)).
Defined.

Section EmaPresence.

Import Num JsArray Analytics.

Lemma lastPresent_In (l : list (option float)) (v : float) :
  In (Some v) l -> exists p, Spec.lastPresent l = Some p.
Proof.
  induction l as [|o r IH] using rev_ind; [intros []|].
  intros Hin. rewrite lastPresent_push.
  destruct o as [x|]; [now exists x|].
  apply in_app_or in Hin. destruct Hin as [Hin|[Hin|[]]]; [auto | discriminate].
Qed.

(** X13: the exponential moving average has no output at all when the
    first period inputs hold no valid value, however many valid inputs
    follow; and once it has one output, every later valid input has an
    output. *)
Theorem calculateEMA_presence (data : list (option float)) (period : Z) :
  (validNumbers (firstn (Spec.clamp period) data) = [] ->
   calculateEMA data period = repeat None (List.length data))
  /\ (forall i j v x,
        (j < i)%nat ->
        nth_error (calculateEMA data period) j = Some (Some v) ->
        nth_error data i = Some (Some x) ->
        isFinite x = true ->
        exists w, nth_error (calculateEMA data period) i = Some (Some w)).
Proof.
  split.
  - intros Hno. unfold calculateEMA, for_each.
    now rewrite (ema_unseeded_loop data period _ Hno (le_n _)).
  - intros i j v x Hji Hj Hi Hfin.
    destruct (ema_loop_inv data period (List.length data) (le_n _))
      as (Hlen & _ & _ & Hout).
    fold (for_each (List.length data) (ema_step data period) (None, [])) in *.
    fold (calculateEMA data period) in *.
    unfold isFinite in Hfin.
    assert (Hil : (i < List.length data)%nat).
    { apply nth_error_Some. rewrite Hi. discriminate. }
    rewrite (Hout i Hil).
    assert (Hprev : exists p,
               Spec.lastPresent (firstn i (calculateEMA data period)) = Some p).
    { apply (lastPresent_In _ v).
      apply (nth_error_In _ j). rewrite nth_error_firstn.
      apply Nat.ltb_lt in Hji. now rewrite Hji. }
    destruct Hprev as [p Hp]. rewrite Hp.
    unfold Spec.emaAt. rewrite (nth_error_nth _ _ _ Hi), Hfin.
    eexists. reflexivity.
Qed.

End EmaPresence.

Lemma calculateEMA_presence_witness :
  JsArray.validNumbers
    (firstn (Spec.clamp 2) [None; None; Some 5%float; Some 6%float]) = []
  /\ Analytics.calculateEMA [None; None; Some 5%float; Some 6%float] 2
     = [None; None; None; None].
Proof.
  assert (H : JsArray.validNumbers
                (firstn (Spec.clamp 2) [None; None; Some 5%float; Some 6%float])
              = []) by reflexivity.
  split; [exact H|].
  exact (proj1 (calculateEMA_presence
                  [None; None; Some 5%float; Some 6%float] 2) H).
Defined.

(* ================================================================== *)
(** * The analytics card *)
(* ================================================================== *)

Section CardFacts.

Import Num JsObject Analytics Card.
Local Open Scope float_scope.

Lemma SFltb_neg_trans (x y z : spec_float) :
  x <> S754_nan -> y <> S754_nan -> z <> S754_nan ->
  SFltb x y = false -> SFltb y z = false -> SFltb x z = false.
Proof.
  unfold SFltb.
  destruct x as [sx|sx| |sx mx ex], y as [sy|sy| |sy my ey],
           z as [sz|sz| |sz mz ez];
    simpl; try congruence; intros _ _ _; try discriminate; try reflexivity;
    try (destruct sx; simpl; try discriminate; try reflexivity);
    try (destruct sy; simpl; try discriminate; try reflexivity);
    try (destruct sz; simpl; try discriminate; try reflexivity).
  all: repeat match goal with
       | |- context [Z.compare ?a ?b] =>
           destruct (Z.compare_spec a b); subst; simpl
       end; try discriminate; try reflexivity; try lia.
  all: rewrite ?Pos.compare_cont_spec; unfold Pos.switch_Eq;
       repeat match goal with
       | |- context [Pos.compare ?a ?b] =>
           destruct (Pos.compare_spec a b); subst; simpl
       end; try discriminate; try reflexivity; try lia.
Qed.

(** Where none of the numbers is NaN, [x >= y] and [y >= z] give
    [x >= z]. *)
Lemma ltb_neg_trans (x y z : float) :
  Prim2SF x <> S754_nan -> Prim2SF y <> S754_nan -> Prim2SF z <> S754_nan ->
  (x <? y) = false -> (y <? z) = false -> (x <? z) = false.
Proof. rewrite !FloatAxioms.ltb_spec. apply SFltb_neg_trans. Qed.

Lemma ltb_false_of_trans (r a x : float) :
  (a <? x) = true -> (r <? x) = false -> (r <? a) = false.
Proof.
  intros Hax Hrx. destruct (r <? a) eqn:E; [|reflexivity].
  now rewrite (ltb_trans r a x E Hax) in Hrx.
Qed.

Lemma max_fold (l : list float) : forall acc,
  Prim2SF acc <> S754_nan ->
  Forall (fun x => isFinite x = true) l ->
  let r := fold_left (fun m x => if m <? x then x else m) l acc in
  (r = acc \/ In r l)
  /\ (r <? acc) = false
  /\ forall x, In x l -> (r <? x) = false.
Proof.
  induction l as [|x rest IH]; intros acc Hacc Hfin; cbv zeta; simpl.
  - split; [now left|]. split; [apply ltb_irrefl | intros ? []].
  - inversion Hfin as [|? ? Fx Frest]; subst.
    pose proof (finite_not_nan x Fx) as Nx.
    destruct (acc <? x) eqn:L.
    + destruct (IH x Nx Frest) as (Hin & Hx & Hall). cbv zeta in *.
      split; [destruct Hin; auto|]. split.
      * now apply (ltb_false_of_trans _ acc x).
      * intros y [<-|Hy]; auto.
    + destruct (IH acc Hacc Frest) as (Hin & Ha & Hall). cbv zeta in *.
      split; [destruct Hin; auto|]. split; [assumption|].
      intros y [<-|Hy]; [|auto].
      set (r := fold_left _ rest acc) in *.
      apply (ltb_neg_trans r acc x); try assumption.
      destruct Hin as [->|Hr]; [assumption|].
      apply finite_not_nan. rewrite Forall_forall in Frest. now apply Frest.
Qed.

Lemma min_fold (l : list float) : forall acc,
  Prim2SF acc <> S754_nan ->
  Forall (fun x => isFinite x = true) l ->
  let r := fold_left (fun m x => if x <? m then x else m) l acc in
  (r = acc \/ In r l)
  /\ (acc <? r) = false
  /\ forall x, In x l -> (x <? r) = false.
Proof.
  induction l as [|x rest IH]; intros acc Hacc Hfin; cbv zeta; simpl.
  - split; [now left|]. split; [apply ltb_irrefl | intros ? []].
  - inversion Hfin as [|? ? Fx Frest]; subst.
    pose proof (finite_not_nan x Fx) as Nx.
    destruct (x <? acc) eqn:L.
    + destruct (IH x Nx Frest) as (Hin & Hx & Hall). cbv zeta in *.
      split; [destruct Hin; auto|]. split.
      * set (r := fold_left _ rest x) in *.
        destruct (acc <? r) eqn:E; [|reflexivity].
        now rewrite (ltb_trans x acc r L E) in Hx.
      * intros y [<-|Hy]; auto.
    + destruct (IH acc Hacc Frest) as (Hin & Ha & Hall). cbv zeta in *.
      split; [destruct Hin; auto|]. split; [assumption|].
      intros y [<-|Hy]; [|auto].
      set (r := fold_left _ rest acc) in *.
      apply (ltb_neg_trans x acc r); try assumption.
      destruct Hin as [->|Hr]; [assumption|].
      apply finite_not_nan. rewrite Forall_forall in Frest. now apply Frest.
Qed.

Lemma neg_infinity_below (x : float) :
  isFinite x = true -> (neg_infinity <? x) = true.
Proof.
  intros F. apply is_finite_SF in F. rewrite FloatAxioms.ltb_spec.
  change (Prim2SF neg_infinity) with (S754_infinity true).
  destruct F as [[s E]|(s & m & e & E)]; rewrite E; reflexivity.
Qed.

Lemma infinity_above (x : float) :
  isFinite x = true -> (x <? infinity) = true.
Proof.
  intros F. apply is_finite_SF in F. rewrite FloatAxioms.ltb_spec.
  change (Prim2SF infinity) with (S754_infinity false).
  destruct F as [[s E]|(s & m & e & E)]; rewrite E; reflexivity.
Qed.

(** On finite values [Math.max] gives an element that none exceeds. *)
Lemma mathMax_greatest (l : list float) :
  l <> [] -> Forall (fun x => isFinite x = true) l ->
  In (mathMax l) l /\ forall x, In x l -> (x <=? mathMax l) = true.
Proof.
  intros Hne Hfin. destruct l as [|x rest]; [contradiction|].
  inversion Hfin as [|? ? Fx Frest]; subst.
  unfold mathMax. cbn [fold_left]. rewrite (neg_infinity_below x Fx).
  destruct (max_fold rest x (finite_not_nan x Fx) Frest) as (Hin & Hx & Hall).
  cbv zeta in *. set (r := fold_left _ rest x) in *.
  assert (Hr : In r (x :: rest)) by (destruct Hin as [->|]; [now left | now right]).
  split; [exact Hr|].
  assert (Fr : isFinite r = true) by (rewrite Forall_forall in Hfin; now apply Hfin).
  intros y Hy.
  assert (Fy : isFinite y = true) by (rewrite Forall_forall in Hfin; now apply Hfin).
  rewrite (finite_leb_negb_ltb y r Fy Fr).
  destruct Hy as [<-|Hy]; [now rewrite Hx | now rewrite Hall].
Qed.

Lemma mathMin_least (l : list float) :
  l <> [] -> Forall (fun x => isFinite x = true) l ->
  In (mathMin l) l /\ forall x, In x l -> (mathMin l <=? x) = true.
Proof.
  intros Hne Hfin. destruct l as [|x rest]; [contradiction|].
  inversion Hfin as [|? ? Fx Frest]; subst.
  unfold mathMin. cbn [fold_left]. rewrite (infinity_above x Fx).
  destruct (min_fold rest x (finite_not_nan x Fx) Frest) as (Hin & Hx & Hall).
  cbv zeta in *. set (r := fold_left _ rest x) in *.
  assert (Hr : In r (x :: rest)) by (destruct Hin as [->|]; [now left | now right]).
  split; [exact Hr|].
  assert (Fr : isFinite r = true) by (rewrite Forall_forall in Hfin; now apply Hfin).
  intros y Hy.
  assert (Fy : isFinite y = true) by (rewrite Forall_forall in Hfin; now apply Hfin).
  rewrite (finite_leb_negb_ltb r y Fr Fy).
  destruct Hy as [<-|Hy]; [now rewrite Hx | now rewrite Hall].
Qed.

Lemma valid_rates_finite (rates : list float) :
  Forall (fun x => isFinite x = true) (filter validRate rates).
Proof.
  apply Forall_forall. intros x Hx. apply filter_In in Hx.
  destruct Hx as [_ Hv]. unfold validRate in Hv.
  now apply andb_true_iff in Hv.
Qed.

(** X14: [processWeekData] leaves every figure of the card as it was when
    the series holds no valid rate.  Otherwise the week high and the week low
    are rates of the series, finite and above 0, no valid rate of the series
    is above the high or below the low, and the figures of the month are not
    touched. *)
Theorem processWeekData_high_low (rates : list float) (st : State) :
  (filter validRate rates = [] -> processWeekData rates st = st)
  /\ (filter validRate rates <> [] ->
      exists high low,
        weekHigh (processWeekData rates st) = Some high
        /\ weekLow (processWeekData rates st) = Some low
        /\ In high (filter validRate rates)
        /\ In low (filter validRate rates)
        /\ (forall x, In x rates -> validRate x = true ->
              (x <=? high) = true /\ (low <=? x) = true)
        /\ monthHigh (processWeekData rates st) = monthHigh st
        /\ monthLow (processWeekData rates st) = monthLow st
        /\ avg30Days (processWeekData rates st) = avg30Days st).
Proof.
  unfold processWeekData. split.
  - intros E. rewrite E. simpl. now destruct (List.length rates =? 0)%nat.
  - intros Hne.
    destruct (List.length rates =? 0)%nat eqn:L0.
    { apply Nat.eqb_eq, length_zero_iff_nil in L0. subst. now contradiction Hne. }
    destruct (List.length (filter validRate rates) =? 0)%nat eqn:L1.
    { apply Nat.eqb_eq, length_zero_iff_nil in L1. contradiction. }
    cbn [weekHigh weekLow monthHigh monthLow avg30Days].
    destruct (mathMax_greatest _ Hne (valid_rates_finite rates)) as [Hmax Hge].
    destruct (mathMin_least _ Hne (valid_rates_finite rates)) as [Hmin Hle].
    exists (mathMax (filter validRate rates)), (mathMin (filter validRate rates)).
    repeat split; try assumption.
    + apply Hge, filter_In. now split.
    + apply Hle, filter_In. now split.
Qed.

End CardFacts.

Lemma processWeekData_high_low_witness :
  filter Analytics.validRate [1; nan; 3; 2]%float <> []
  /\ exists high low,
       Card.weekHigh (Card.processWeekData [1; nan; 3; 2]%float Card.initial)
       = Some high
       /\ Card.weekLow (Card.processWeekData [1; nan; 3; 2]%float Card.initial)
          = Some low
       /\ In high (filter Analytics.validRate [1; nan; 3; 2]%float)
       /\ In low (filter Analytics.validRate [1; nan; 3; 2]%float).
Proof.
  assert (H : filter Analytics.validRate [1; nan; 3; 2]%float <> [])
    by (vm_compute; discriminate).
  split; [exact H|].
  destruct (proj2 (processWeekData_high_low [1; nan; 3; 2]%float Card.initial) H)
    as (high & low & Hh & Hl & Hih & Hil & _).
  exists high, low. repeat split; assumption.
Defined.

(* ================================================================== *)
(** * The market overview *)
(* ================================================================== *)

Section OverviewFacts.

Import Num JsArray JsObject Strength Overview.
Local Open Scope float_scope.

Lemma slice_first {A : Type} (n : nat) (l : list A) :
  slice 0 (Z.of_nat n) l = firstn n l.
Proof.
  unfold slice. cbv zeta.
  change (0 <? 0)%Z with false. cbv iota.
  destruct (Z.of_nat n <? 0)%Z eqn:E; [apply Z.ltb_lt in E; lia|].
  rewrite (Z.min_l 0) by lia. change (Z.to_nat 0) with 0%nat. cbn [skipn].
  rewrite Z.sub_0_r.
  destruct (Nat.le_gt_cases n (List.length l)) as [H|H].
  - rewrite Z.min_l by lia. now rewrite Nat2Z.id.
  - rewrite Z.min_r by lia. rewrite Nat2Z.id.
    rewrite !firstn_all2 by lia. reflexivity.
Qed.

Lemma firstn_incl {A : Type} (n : nat) (l : list A) (x : A) :
  In x (firstn n l) -> In x l.
Proof.
  revert l. induction n as [|n IH]; intros [|y r]; simpl; try tauto.
  intros [H|H]; auto.
Qed.

Lemma insert_by_Permutation {A : Type} (compare : A -> A -> float) (x : A)
    (l : list A) :
  Permutation (insert_by compare x l) (x :: l).
Proof.
  induction l as [|y r IH]; simpl; [reflexivity|].
  destruct (gtb (compare y x) 0); [reflexivity|].
  rewrite IH. apply perm_swap.
Qed.

Lemma sort_by_Permutation {A : Type} (compare : A -> A -> float) (l : list A) :
  Permutation (sort_by compare l) l.
Proof.
  unfold sort_by.
  assert (H : forall acc,
             Permutation (fold_left (fun acc x => insert_by compare x acc) l acc)
                         (acc ++ l)).
  { induction l as [|x r IH]; intros acc; simpl.
    - now rewrite app_nil_r.
    - rewrite IH, insert_by_Permutation. apply Permutation_middle. }
  apply (H []).
Qed.

Lemma strength_step_trend (h7 h30 : Rates) (results : list CurrencyStrength)
    (c : CurrencyData) :
  Forall (fun e => cs_trend e = trendOf (cs_strength e)) results ->
  Forall (fun e => cs_trend e = trendOf (cs_strength e))
         (strength_step h7 h30 results c).
Proof.
  intros H. unfold strength_step. cbv zeta.
  destruct (negb _ || _); [exact H|].
  destruct (isFinite (strengthOf _ _ _)); [|exact H].
  apply Forall_app. split; [exact H|]. now constructor.
Qed.

Lemma calculateStrengths_trend (currencies : list CurrencyData) (h7 h30 : Rates)
    (e : CurrencyStrength) :
  In e (calculateStrengths currencies h7 h30) ->
  cs_trend e = trendOf (cs_strength e).
Proof.
  unfold calculateStrengths. destruct currencies as [|c0 r0]; [intros []|].
  rewrite sort_by_In.
  assert (H : forall l init,
             Forall (fun e => cs_trend e = trendOf (cs_strength e)) init ->
             Forall (fun e => cs_trend e = trendOf (cs_strength e))
                    (fold_left (strength_step h7 h30) l init)).
  { induction l as [|c r IH]; intros init Hi; simpl; [exact Hi|].
    apply IH. now apply strength_step_trend. }
  intros Hin. specialize (H (c0 :: r0) [] (Forall_nil _)).
  rewrite Forall_forall in H. now apply H.
Qed.

Lemma strong_not_weak (s : float) :
  gtb s STRENGTH_THRESHOLD_STRONG = true ->
  (s <? STRENGTH_THRESHOLD_WEAK) = false.
Proof.
  unfold gtb, STRENGTH_THRESHOLD_STRONG, STRENGTH_THRESHOLD_WEAK. intros H.
  destruct (s <? -2) eqn:E; [|reflexivity].
  pose proof (ltb_trans _ _ _ H E) as C. vm_compute in C. discriminate C.
Qed.

(** X15: the two rankings of the market overview hold at most five entries
    each, all of them entries of the strength list; every entry of the first
    has a strength above 2 and every entry of the second a strength below -2,
    so no entry is in both.  A ranking leaves no candidate out when there are
    at most five.  On the strengths that [calculateStrengths] computes the
    rankings agree with its classification: the first holds entries classified
    strong only, the second entries classified weak only. *)
Theorem rankings_sound (strengths : list CurrencyStrength) :
  (List.length (strongestCurrencies strengths) <= 5)%nat
  /\ (List.length (weakestCurrencies strengths) <= 5)%nat
  /\ (forall c, In c (strongestCurrencies strengths) ->
        In c strengths /\ gtb (cs_strength c) 2 = true
        /\ ~ In c (weakestCurrencies strengths))
  /\ (forall c, In c (weakestCurrencies strengths) ->
        In c strengths /\ (cs_strength c <? -2) = true)
  /\ ((List.length (filter (fun c => gtb (cs_strength c) 2%float) strengths)
       <= 5)%nat ->
      Permutation (strongestCurrencies strengths)
                  (filter (fun c => gtb (cs_strength c) 2) strengths))
  /\ ((List.length (filter (fun c => (cs_strength c <? -2)%float) strengths)
       <= 5)%nat ->
      Permutation (weakestCurrencies strengths)
                  (filter (fun c => cs_strength c <? -2) strengths))
  /\ (forall currencies h7 h30,
        strengths = calculateStrengths currencies h7 h30 ->
        (forall c, In c (strongestCurrencies strengths) -> cs_trend c = Strong)
        /\ (forall c, In c (weakestCurrencies strengths) -> cs_trend c = Weak)).
Proof.
  unfold strongestCurrencies, weakestCurrencies.
  change 5%Z with (Z.of_nat 5). rewrite !slice_first.
  change STRENGTH_THRESHOLD_STRONG with 2. change STRENGTH_THRESHOLD_WEAK with (-2).
  set (strong := fun c => gtb (cs_strength c) 2).
  set (weak := fun c => cs_strength c <? -2).
  set (desc := fun a b => cs_strength b - cs_strength a).
  set (asc := fun a b => cs_strength a - cs_strength b).
  assert (Hs : forall c, In c (firstn 5 (sort_by desc (filter strong strengths))) ->
                         In c strengths /\ strong c = true).
  { intros c Hin. apply firstn_incl, sort_by_In, filter_In in Hin. exact Hin. }
  assert (Hw : forall c, In c (firstn 5 (sort_by asc (filter weak strengths))) ->
                         In c strengths /\ weak c = true).
  { intros c Hin. apply firstn_incl, sort_by_In, filter_In in Hin. exact Hin. }
  split; [apply firstn_le_length|]. split; [apply firstn_le_length|].
  split; [|split; [|split; [|split]]].
  - intros c Hin. destruct (Hs c Hin) as [H1 H2]. split; [exact H1|].
    split; [exact H2|]. intros Hin'. destruct (Hw c Hin') as [_ H3].
    unfold strong, weak in *.
    pose proof (strong_not_weak _ H2) as C.
    unfold STRENGTH_THRESHOLD_WEAK in C. congruence.
  - exact Hw.
  - intros Hle. rewrite firstn_all2 by (now rewrite sort_by_length).
    apply sort_by_Permutation.
  - intros Hle. rewrite firstn_all2 by (now rewrite sort_by_length).
    apply sort_by_Permutation.
  - intros currencies h7 h30 E. split; intros c Hin.
    + destruct (Hs c Hin) as [H1 H2]. rewrite E in H1.
      rewrite (calculateStrengths_trend _ _ _ _ H1). unfold trendOf.
      unfold strong in H2. change STRENGTH_THRESHOLD_STRONG with 2.
      now rewrite H2.
    + destruct (Hw c Hin) as [H1 H2]. rewrite E in H1.
      rewrite (calculateStrengths_trend _ _ _ _ H1). unfold trendOf.
      unfold weak in H2.
      change STRENGTH_THRESHOLD_STRONG with 2.
      change STRENGTH_THRESHOLD_WEAK with (-2).
      rewrite H2.
      destruct (gtb (cs_strength c) 2) eqn:G; [|reflexivity].
      pose proof (strong_not_weak _ G) as C.
      unfold STRENGTH_THRESHOLD_WEAK in C. congruence.
Qed.

Lemma lookup_assign (key : string) (v : float) (o : Rates) (k : string) :
  lookup k (assign key v o) = if String.eqb key k then Some v else lookup k o.
Proof.
  induction o as [|[k' v'] r IH]; simpl.
  - reflexivity.
  - destruct (String.eqb k' key) eqn:E; simpl.
    + apply String.eqb_eq in E. subst k'.
      now destruct (String.eqb key k).
    + rewrite IH. destruct (String.eqb k' k) eqn:E'; [|reflexivity].
      apply String.eqb_eq in E'. subst k'. now rewrite String.eqb_sym, E.
Qed.

Lemma extract_guard (rate : float) :
  truthy rate && isFinite rate && gtb rate 0 = isFinite rate && gtb rate 0.
Proof.
  unfold gtb. destruct (0 <? rate) eqn:P.
  - now rewrite (positive_truthy rate P).
  - now rewrite !andb_false_r.
Qed.

Lemma extract_loop (ratesData : Rates) (code : string) (symbols : list string) :
  forall rates,
    lookup code (fold_left (extract_step ratesData) symbols rates)
    = match (if existsb (String.eqb code) symbols
             then match lookup code ratesData with
                  | Some rate =>
                      if isFinite rate && gtb rate 0 then Some rate else None
                  | None => None
                  end
             else None) with
      | Some rate => Some rate
      | None => lookup code rates
      end.
Proof.
  induction symbols as [|s rest IH]; intros rates; simpl; [reflexivity|].
  rewrite IH. unfold extract_step.
  destruct (String.eqb code s) eqn:E; cbn [orb].
  - apply String.eqb_eq in E. subst s.
    destruct (lookup code ratesData) as [rate|].
    + rewrite extract_guard.
      destruct (isFinite rate && gtb rate 0).
      * rewrite lookup_assign, String.eqb_refl.
        now destruct (existsb _ rest).
      * now destruct (existsb _ rest).
    + now destruct (existsb _ rest).
  - assert (L : lookup code
                  (match lookup s ratesData with
                   | Some rate =>
                       if truthy rate && isFinite rate && gtb rate 0
                       then assign s rate rates else rates
                   | None => rates
                   end) = lookup code rates).
    { destruct (lookup s ratesData) as [rate|]; [|reflexivity].
      destruct (_ && _); [|reflexivity].
      rewrite lookup_assign, String.eqb_sym, E. reflexivity. }
    now rewrite L.
Qed.

(** X16: [extractRates] keeps, of the rates of a past day, exactly those of
    the requested symbols that are finite and above 0: looking a code up in
    its result gives the rate of the response when the code was requested and
    the rate is valid, and nothing otherwise.  So the guard of
    [calculateStrengths] never rejects a rate that [extractRates] kept: the
    change since that day is the relative change in percent whenever the
    code has a rate, and 0 only for a code without one. *)
Theorem extractRates_lookup (b d : option string) (ratesData : Rates)
    (symbols : list string) (code : string) :
  lookup code (extractRates (Service.BodyObject b d (Some ratesData)) symbols)
  = (if existsb (String.eqb code) symbols
     then match lookup code ratesData with
          | Some rate => if isFinite rate && gtb rate 0 then Some rate else None
          | None => None
          end
     else None)
  /\ forall currentRate,
       changeSince currentRate
         (lookup code
            (extractRates (Service.BodyObject b d (Some ratesData)) symbols))
       = match lookup code
                 (extractRates (Service.BodyObject b d (Some ratesData)) symbols)
         with
         | Some rate => ((currentRate - rate) / rate) * 100
         | None => 0
         end.
Proof.
  assert (E : lookup code
                (extractRates (Service.BodyObject b d (Some ratesData)) symbols)
              = if existsb (String.eqb code) symbols
                then match lookup code ratesData with
                     | Some rate =>
                         if isFinite rate && gtb rate 0 then Some rate else None
                     | None => None
                     end
                else None).
  { unfold extractRates. rewrite extract_loop. cbn [lookup].
    now destruct (if existsb _ symbols then _ else _). }
  split; [exact E|]. intros currentRate. rewrite E.
  destruct (existsb _ symbols); [|reflexivity].
  destruct (lookup code ratesData) as [rate|]; [|reflexivity].
  destruct (isFinite rate && gtb rate 0) eqn:G; [|reflexivity].
  unfold changeSince.
  apply andb_true_iff in G. destruct G as [F P].
  unfold gtb in *. now rewrite (positive_truthy rate P), P, F.
Qed.

End OverviewFacts.

(* ================================================================== *)
(** * The currency service *)
(* ================================================================== *)

Section CurrencyServiceFacts.

Import JsString Keys Num JsObject Strength CurrencyService.

Lemma service_array_valid (l : list string) :
  sanitizeCurrencyArray (Some l) <> []
  /\ NoDup (sanitizeCurrencyArray (Some l))
  /\ (forall code, In code (sanitizeCurrencyArray (Some l)) ->
        isCurrencyCode code = true).
Proof.
  unfold sanitizeCurrencyArray.
  pose proof (dedup_from_NoDup (filter isCurrencyCode (map sanitizeCurrencyCode l)) [])
    as Hnd.
  assert (Hv : forall code,
             In code (dedup (filter isCurrencyCode (map sanitizeCurrencyCode l))) ->
             isCurrencyCode code = true).
  { intros code Hin. apply dedup_from_In in Hin. destruct Hin as [Hin _].
    now apply filter_In in Hin. }
  fold (dedup (filter isCurrencyCode (map sanitizeCurrencyCode l))) in Hnd.
  destruct (dedup _) as [|x r].
  - split; [discriminate|]. split.
    + constructor; [intros [] | constructor].
    + intros code [<-|[]]. reflexivity.
  - split; [discriminate|]. split; assumption.
Qed.

Lemma service_array_fixed (l : list string) :
  l <> [] -> NoDup l -> (forall code, In code l -> isCurrencyCode code = true) ->
  sanitizeCurrencyArray (Some l) = l.
Proof.
  intros Hne Hnd Hv. unfold sanitizeCurrencyArray.
  rewrite (map_fixed sanitizeCurrencyCode l)
    by (intros x Hx; apply sanitizeCurrencyCode_fixed; auto).
  rewrite (filter_all isCurrencyCode l Hv).
  unfold dedup. rewrite (dedup_from_fresh l [] Hnd) by (intros ? _ []).
  destruct l; [contradiction | reflexivity].
Qed.

Lemma run_op_valid (st : State) (op : Op) :
  validState st -> validState (run_op st op).
Proof.
  intros (Hb & Hne & Hnd & Hv). destruct op as [c|[l|]]; simpl.
  - unfold setBaseCurrency. cbv zeta.
    destruct (nonempty _ && _); [|now repeat split].
    repeat split; try assumption. simpl. apply sanitizeCurrencyCode_valid.
  - unfold setSelectedCurrencies. cbv zeta.
    destruct (_ && _); [|now repeat split].
    destruct (service_array_valid l) as (H1 & H2 & H3).
    repeat split; assumption.
  - now repeat split.
Qed.

Lemma run_ops_valid (ops : list Op) : forall st,
  validState st -> validState (run_ops ops st).
Proof.
  unfold run_ops. induction ops as [|op r IH]; intros st H; simpl; [exact H|].
  apply IH. now apply run_op_valid.
Qed.

Lemma initial_valid : validState initial.
Proof.
  split; [reflexivity|]. split; [discriminate|]. split.
  - repeat constructor; simpl; intuition discriminate.
  - intros code H. simpl in H.
    repeat (destruct H as [<-|H]; [reflexivity|]). destruct H.
Qed.

(** X17: whatever calls the clients of the currency service make, its base
    currency stays a three-letter code and its selection a list of distinct
    three-letter codes that is not empty.  So the filter of
    [getCurrencyData] never holds a value back, sanitizing the selection
    changes nothing, and the currency data are computed for the selection as
    it stands. *)
Theorem service_state_invariant (ops : list Op) :
  validState (run_ops ops initial)
  /\ sanitizeCurrencyArray (Some (selectedCurrencies (run_ops ops initial)))
     = selectedCurrencies (run_ops ops initial)
  /\ forall latest historical currencyMap,
       getCurrencyData (run_ops ops initial) latest historical currencyMap
       = Some (currencyData (selectedCurrencies (run_ops ops initial))
                 latest historical currencyMap).
Proof.
  pose proof (run_ops_valid ops initial initial_valid) as H.
  set (st := run_ops ops initial) in *.
  destruct H as (Hb & Hne & Hnd & Hv).
  pose proof (service_array_fixed _ Hne Hnd Hv) as Hfix.
  split; [now repeat split|]. split; [exact Hfix|].
  intros latest historical currencyMap. unfold getCurrencyData.
  rewrite Hb, Hfix. cbv zeta.
  destruct (selectedCurrencies st) as [|x r]; [contradiction | reflexivity].
Qed.

Lemma currencyData_step_app (lr hr : Rates) (cm : list (string * string))
    (result : list CurrencyData) (code : string) :
  currencyData_step lr hr cm result code
  = (result ++ currencyData_step lr hr cm [] code)%list.
Proof.
  unfold currencyData_step.
  destruct (lookup code lr) as [c|]; [|now rewrite app_nil_r].
  destruct (lookup code hr) as [p|]; [|now rewrite app_nil_r].
  destruct (_ || _); [now rewrite app_nil_r | reflexivity].
Qed.

Lemma currencyData_loop (lr hr : Rates) (cm : list (string * string))
    (symbols : list string) : forall result,
  fold_left (currencyData_step lr hr cm) symbols result
  = (result ++ flat_map (currencyData_step lr hr cm []) symbols)%list.
Proof.
  induction symbols as [|s r IH]; intros result; simpl.
  - now rewrite app_nil_r.
  - now rewrite IH, currencyData_step_app, <- app_assoc.
Qed.

Lemma currencyData_guard (c p : float) :
  negb (isFinite c) || negb (isFinite p) || (c <=? 0)%float || (p <=? 0)%float
  = negb (isFinite c && isFinite p && (0 <? c)%float && (0 <? p)%float).
Proof.
  destruct (isFinite c) eqn:Fc; [|reflexivity].
  destruct (isFinite p) eqn:Fp; [|reflexivity].
  unfold isFinite in *. rewrite (finite_leb_zero c Fc), (finite_leb_zero p Fp).
  cbn [negb orb andb].
  destruct (0 <? c)%float; [|reflexivity]. now destruct (0 <? p)%float.
Qed.

(** X18: the currency data that [getCurrencyData] computes from two
    responses hold one item for each selected code, in the order of the
    selection, whose rate is finite and above 0 in both responses, and none
    for the others.  The rate of an item is the latest rate of its code, it
    is finite and above 0, a change that is present is finite, and the codes
    of the items are distinct when the selected codes are distinct
    three-letter codes; so [calculateStrengths] never skips an item for its
    rate. *)
Theorem currencyData_items (symbols : list string) (lr hr : Rates)
    (cm : list (string * string)) :
  let kept := fun code =>
    match lookup code lr, lookup code hr with
    | Some c, Some p =>
        isFinite c && isFinite p && (0 <? c)%float && (0 <? p)%float
    | _, _ => false
    end in
  map cd_code (currencyData symbols (Some lr) (Some hr) cm)
  = map sanitizeCurrencyCode (filter kept symbols)
  /\ (forall item, In item (currencyData symbols (Some lr) (Some hr) cm) ->
        isFinite (cd_rate item) = true
        /\ (0 <? cd_rate item)%float = true
        /\ (negb (isFinite (cd_rate item)) || (cd_rate item <=? 0)%float) = false
        /\ (forall x, cd_change24h item = Some x -> isFinite x = true)
        /\ (forall x, cd_changePercent24h item = Some x -> isFinite x = true)
        /\ exists code,
             In code symbols /\ kept code = true
             /\ cd_code item = sanitizeCurrencyCode code
             /\ lookup code lr = Some (cd_rate item))
  /\ (NoDup symbols ->
      (forall code, In code symbols -> isCurrencyCode code = true) ->
      NoDup (map cd_code (currencyData symbols (Some lr) (Some hr) cm))
      /\ map cd_code (currencyData symbols (Some lr) (Some hr) cm)
         = filter kept symbols).
Proof.
  intros kept. unfold currencyData. rewrite currencyData_loop. cbn [app].
  assert (Hstep : forall code,
             currencyData_step lr hr cm [] code
             = if kept code
               then match lookup code lr, lookup code hr with
                    | Some c, Some p =>
                        [mkCurrencyData (sanitizeCurrencyCode code)
                           (sanitizeString (nameOf code cm)) c
                           (if isFinite (c - p)%float
                            then Some (c - p)%float else None)
                           (if isFinite
                                 (if negb (p =? 0)%float
                                  then (((c - p) / p) * 100)%float else 0%float)
                            then Some (if negb (p =? 0)%float
                                       then (((c - p) / p) * 100)%float
                                       else 0%float)
                            else None)]
                    | _, _ => []
                    end
               else []).
  { intros code. unfold currencyData_step, kept.
    destruct (lookup code lr) as [c|]; [|reflexivity].
    destruct (lookup code hr) as [p|]; [|reflexivity].
    rewrite currencyData_guard.
    now destruct (isFinite c && isFinite p && (0 <? c)%float && (0 <? p)%float). }
  assert (Hcodes : map cd_code (flat_map (currencyData_step lr hr cm []) symbols)
                   = map sanitizeCurrencyCode (filter kept symbols)).
  { induction symbols as [|s r IH]; simpl; [reflexivity|].
    rewrite map_app, IH, Hstep.
    destruct (kept s) eqn:K; [|reflexivity].
    unfold kept in K.
    destruct (lookup s lr) as [c|]; [|discriminate].
    destruct (lookup s hr) as [p|]; [|discriminate]. reflexivity. }
  split; [exact Hcodes|]. split.
  - intros item Hin. apply in_flat_map in Hin. destruct Hin as (code & Hc & Hin).
    rewrite Hstep in Hin. destruct (kept code) eqn:K; [|destruct Hin].
    pose proof K as K'. unfold kept in K'.
    destruct (lookup code lr) as [c|] eqn:Lc; [|discriminate].
    destruct (lookup code hr) as [p|] eqn:Lp; [|discriminate].
    destruct Hin as [<-|[]]. cbn [cd_rate cd_code cd_change24h cd_changePercent24h].
    apply andb_true_iff in K'. destruct K' as [K' Pp].
    apply andb_true_iff in K'. destruct K' as [K' Pc].
    apply andb_true_iff in K'. destruct K' as [Fc Fp].
    split; [exact Fc|]. split; [exact Pc|]. split.
    + rewrite Fc. cbn [negb orb]. unfold isFinite in Fc.
      now rewrite (finite_leb_zero c Fc), Pc.
    + split; [|split].
      * intros x. destruct (isFinite (c - p)%float) eqn:F; [|discriminate].
        now intros [= <-].
      * intros x. destruct (isFinite (if negb (p =? 0)%float then _ else _)) eqn:F;
          [|discriminate].
        now intros [= <-].
      * exists code. repeat split; try assumption; try reflexivity.
  - intros Hnd Hv. rewrite Hcodes.
    rewrite (map_fixed sanitizeCurrencyCode (filter kept symbols)).
    + split; [|reflexivity]. now apply NoDup_filter.
    + intros x Hx. apply filter_In in Hx.
      apply sanitizeCurrencyCode_fixed, Hv, Hx.
Qed.

End CurrencyServiceFacts.

(* ================================================================== *)
(** * The dashboard *)
(* ================================================================== *)

Section DashboardFacts.

Import Num Strength Dashboard FloatSign.
Local Open Scope float_scope.

Lemma abs_nonneg (x : float) : nonneg (abs x).
Proof.
  unfold nonneg. rewrite FloatAxioms.abs_spec.
  now destruct (Prim2SF x).
Qed.

Lemma count_length {A : Type} (f : A -> bool) (l : list A) :
  (0 <= Z.of_nat (List.length (filter f l)) <= Z.of_nat (List.length l))%Z.
Proof. pose proof (filter_length_le f l). lia. Qed.

Lemma stats_loop (data : list CurrencyData) : forall g l changes,
  fold_left stats_step data (g, l, changes)
  = (Z.add g (Z.of_nat (List.length
                (filter (fun c => isFinite (changeOf c)
                                  && gtb (changeOf c) 0) data))),
     Z.add l (Z.of_nat (List.length
                (filter (fun c => isFinite (changeOf c)
                                  && negb (gtb (changeOf c) 0)
                                  && (changeOf c <? 0)) data))),
     (changes ++ map (fun c => abs (changeOf c))
                     (filter (fun c => isFinite (changeOf c)) data))%list).
Proof.
  induction data as [|c r IH]; intros g l changes.
  - simpl. now rewrite !Z.add_0_r, app_nil_r.
  - cbn [fold_left filter]. unfold stats_step at 2. cbv zeta.
    destruct (isFinite (changeOf c)); cbn [andb].
    + destruct (gtb (changeOf c) 0); cbn [negb andb].
      * rewrite IH. cbn [List.length map].
        rewrite <- app_assoc, Nat2Z.inj_succ, <- Z.add_1_l, Z.add_assoc.
        reflexivity.
      * destruct (changeOf c <? 0).
        -- rewrite IH. cbn [List.length map].
           rewrite <- app_assoc, Nat2Z.inj_succ, <- Z.add_1_l, Z.add_assoc.
           reflexivity.
        -- rewrite IH. cbn [List.length map]. rewrite <- app_assoc.
           reflexivity.
    + apply IH.
Qed.

Lemma gainer_not_loser (x : float) : gtb x 0 = true -> (x <? 0) = false.
Proof.
  unfold gtb. intros H. destruct (x <? 0) eqn:E; [|reflexivity].
  pose proof (ltb_trans _ _ _ H E) as C. now rewrite ltb_irrefl in C.
Qed.

Lemma partition_count {A : Type} (f g : A -> bool) (l : list A) :
  (forall x, f x = true -> g x = false) ->
  (List.length (filter f l) + List.length (filter g l)
   + List.length (filter (fun x => negb (f x) && negb (g x)) l)
   = List.length l)%nat.
Proof.
  intros H. induction l as [|x r IH]; simpl; [reflexivity|].
  destruct (f x) eqn:F.
  - rewrite (H x F). simpl. lia.
  - destruct (g x); simpl; lia.
Qed.

(** X19: the market statistics of the dashboard count every currency once:
    gainers, losers and neutral add up to the total, the gainers are the
    currencies with a finite change above 0, the losers those with a finite
    change below 0, and neutral counts all others, among them the currencies
    without a change and with a change that is not finite.  The average
    change shown is a finite number and never negative. *)
Theorem getMarketStats_counts (data : list CurrencyData) :
  let isGainer := fun c => isFinite (changeOf c) && gtb (changeOf c) 0 in
  let isLoser := fun c => isFinite (changeOf c) && (changeOf c <? 0) in
  let stats := getMarketStats data in
  totalCurrencies stats = Z.of_nat (List.length data)
  /\ gainers stats = Z.of_nat (List.length (filter isGainer data))
  /\ losers stats = Z.of_nat (List.length (filter isLoser data))
  /\ neutral stats
     = Z.of_nat (List.length
                   (filter (fun c => negb (isGainer c) && negb (isLoser c)) data))
  /\ (gainers stats + losers stats + neutral stats = totalCurrencies stats)%Z
  /\ isFinite (avgChange stats) = true
  /\ (0 <=? avgChange stats) = true.
Proof.
  intros isGainer isLoser stats.
  assert (Hloser : forall c,
             isFinite (changeOf c) && negb (gtb (changeOf c) 0) && (changeOf c <? 0)
             = isLoser c).
  { intros c. unfold isLoser. destruct (isFinite (changeOf c)); [|reflexivity].
    cbn [andb]. destruct (gtb (changeOf c) 0) eqn:G; [|reflexivity].
    now rewrite (gainer_not_loser _ G). }
  assert (Hpart : (List.length (filter isGainer data)
                   + List.length (filter isLoser data)
                   + List.length
                       (filter (fun c => negb (isGainer c) && negb (isLoser c)) data)
                   = List.length data)%nat).
  { apply partition_count. intros c. unfold isGainer, isLoser.
    destruct (isFinite (changeOf c)); [|discriminate]. cbn [andb].
    apply gainer_not_loser. }
  subst stats. destruct data as [|c0 r0].
  - simpl. repeat split; reflexivity.
  - unfold getMarketStats. cbv iota. remember (c0 :: r0) as data eqn:D.
    rewrite stats_loop. cbn [app Z.add].
    rewrite (filter_ext _ _ Hloser).
    set (changes := map (fun c => abs (changeOf c))
                        (filter (fun c => isFinite (changeOf c)) data)).
    cbn [totalCurrencies gainers losers neutral avgChange].
    split; [reflexivity|]. split; [reflexivity|]. split; [reflexivity|].
    change (filter (fun c => isFinite (changeOf c) && gtb (changeOf c) 0) data)
      with (filter isGainer data).
    split; [lia|]. split; [lia|].
    set (avg := if (0 <? List.length changes)%nat
                then Num.sum changes / ofNat (List.length changes) else 0).
    destruct (isFinite avg) eqn:F; [|split; reflexivity].
    split; [exact F|]. apply nonneg_finite_leb; [|exact F].
    subst avg. destruct (0 <? List.length changes)%nat; [|apply zero_nonneg].
    apply div_nonneg; [|apply ofNat_nonneg].
    apply sum_from_nonneg; [apply zero_nonneg|].
    subst changes. apply Forall_forall. intros x Hx. apply in_map_iff in Hx.
    destruct Hx as (c & <- & _). apply abs_nonneg.
Qed.

End DashboardFacts.

(* ================================================================== *)
(** * The converter *)
(* ================================================================== *)

Section ConverterFacts.

Import JsString Keys JsArray Converter.

Lemma firstn_app_firstn {A : Type} (n : nat) (a b : list A) :
  firstn n (a ++ firstn n b) = firstn n (a ++ b).
Proof.
  rewrite !firstn_app, firstn_firstn.
  now replace (Nat.min (n - List.length a) n) with (n - List.length a)%nat by lia.
Qed.

(** X20: the conversion history holds the last twenty conversions, newest
    first: after any number of additions, at least one, it is the first
    twenty of the conversions added, in reverse order, followed by what the
    history held before.  So it never holds more than twenty entries after an
    addition, however many it was loaded with. *)
Theorem addToHistory_last_twenty {A : Type} (c : A) (items history : list A) :
  fold_left (fun h x => addToHistory x h) (c :: items) history
  = firstn 20 (rev (c :: items) ++ history)
  /\ (List.length (fold_left (fun h x => addToHistory x h) (c :: items) history)
      <= 20)%nat
  /\ hd_error (fold_left (fun h x => addToHistory x h) (c :: items) history)
     = Some (last items c).
Proof.
  assert (E : forall items c history,
             fold_left (fun h x => addToHistory (A:=A) x h) (c :: items) history
             = firstn 20 (rev (c :: items) ++ history)).
  { clear. induction items as [|c' r IH]; intros c history.
    - cbn [fold_left rev app]. unfold addToHistory.
      change 20%Z with (Z.of_nat 20). apply slice_first.
    - change (fold_left (fun h x => addToHistory x h) (c :: c' :: r) history)
        with (fold_left (fun h x => addToHistory x h) (c' :: r)
                        (addToHistory c history)).
      rewrite IH. unfold addToHistory.
      change 20%Z with (Z.of_nat 20). rewrite slice_first, firstn_app_firstn.
      f_equal. change (rev (c :: c' :: r)) with (rev (c' :: r) ++ [c])%list.
      now rewrite <- app_assoc. }
  rewrite E. split; [reflexivity|]. split; [apply firstn_le_length|].
  clear E. revert c. induction items as [|c' r IH]; intros c; [reflexivity|].
  specialize (IH c').
  change (rev (c :: c' :: r)) with (rev (c' :: r) ++ [c])%list.
  rewrite <- app_assoc.
  change (last (c' :: r) c) with (match r with [] => c' | _ => last r c end).
  assert (L : forall d, last r d = match r with [] => d | _ => last r c end).
  { clear. intros d. induction r as [|x r IH]; [reflexivity|].
    destruct r; [reflexivity|]. cbn [last] in *. exact IH. }
  rewrite (L c') in IH.
  destruct (rev (c' :: r)) as [|y t] eqn:R.
  - apply (f_equal (@List.length A)) in R. rewrite length_rev in R. discriminate.
  - simpl in IH |- *. exact IH.
Qed.

Lemma includes_In (l : list string) (x : string) :
  includes l x = true <-> In x l.
Proof. apply existsb_eqb_In. Qed.

Lemma without_In (x c : string) (l : list string) :
  In x (without c l) <-> In x l /\ x <> c.
Proof.
  unfold without. rewrite filter_In.
  destruct (String.eqb_spec x c); simpl; intuition congruence.
Qed.

Lemma without_absent (c : string) (l : list string) :
  ~ In c l -> without c l = l.
Proof.
  intros H. apply filter_all. intros x Hx.
  destruct (String.eqb_spec x c); [subst; contradiction | reflexivity].
Qed.

Lemma without_app_self (c : string) (l : list string) :
  ~ In c l -> without c (l ++ [c]) = l.
Proof.
  intros H. unfold without. rewrite filter_app. cbn [filter].
  rewrite String.eqb_refl. cbn [negb]. rewrite app_nil_r.
  now apply without_absent.
Qed.

Lemma without_Permutation (c : string) (l : list string) :
  NoDup l -> In c l -> Permutation (without c l ++ [c]) l.
Proof.
  induction l as [|y r IH]; intros Hnd Hin; [destruct Hin|].
  inversion Hnd as [|? ? Hy Hr]; subst. unfold without. cbn [filter].
  destruct (String.eqb_spec y c) as [->|Hne]; cbn [negb].
  - fold (without c r). rewrite (without_absent c r Hy).
    symmetry. apply Permutation_cons_append.
  - destruct Hin as [->|Hin]; [contradiction|].
    fold (without c r). cbn [app]. constructor. now apply IH.
Qed.

Lemma converter_code_valid (currency : string) :
  nonempty (sanitizeCurrencyCode currency) = true ->
  isCurrencyCode (sanitizeCurrencyCode currency) = true.
Proof.
  unfold sanitizeCurrencyCode. destruct currency; [discriminate|]. cbv zeta.
  destruct (isCurrencyCode _) eqn:E; [now rewrite E | discriminate].
Qed.

Lemma toggleFavorite_keeps (currency : string) (favorites : list string) :
  NoDup favorites -> (List.length favorites <= 10)%nat ->
  (forall x, In x favorites -> isCurrencyCode x = true) ->
  NoDup (toggleFavorite currency favorites)
  /\ (List.length (toggleFavorite currency favorites) <= 10)%nat
  /\ (forall x, In x (toggleFavorite currency favorites) ->
        isCurrencyCode x = true).
Proof.
  intros Hnd Hlen Hv. unfold toggleFavorite. cbv zeta.
  destruct (nonempty (sanitizeCurrencyCode currency)) eqn:N; cbn [negb];
    [|now repeat split].
  destruct (includes favorites (sanitizeCurrencyCode currency)) eqn:I.
  - split; [now apply NoDup_filter|]. split.
    + unfold without. pose proof (filter_length_le
        (fun c => negb (String.eqb c (sanitizeCurrencyCode currency))) favorites).
      lia.
    + intros x Hx. apply without_In in Hx. now apply Hv.
  - destruct (List.length favorites <? 10)%nat eqn:L; [|now repeat split].
    apply Nat.ltb_lt in L.
    assert (Hni : ~ In (sanitizeCurrencyCode currency) favorites).
    { intros Hin. apply includes_In in Hin. congruence. }
    split; [|split].
    + apply NoDup_app; [assumption | repeat constructor; intros [] | ].
      intros x Hx [<-|[]]. contradiction.
    + rewrite length_app. simpl. lia.
    + intros x Hx. apply in_app_or in Hx. destruct Hx as [Hx|[<-|[]]]; auto.
      now apply converter_code_valid.
Qed.

(** X21: the favorites of the converter stay a list of at most ten distinct
    three-letter codes under [toggleFavorite]; toggling changes the
    membership of no other code; and toggling the same currency twice gives
    the favorites back, the toggled code moved to the end when it was a
    favorite. *)
Theorem toggleFavorite_twice (currency : string) (favorites : list string) :
  NoDup favorites -> (List.length favorites <= 10)%nat ->
  (forall x, In x favorites -> isCurrencyCode x = true) ->
  NoDup (toggleFavorite currency favorites)
  /\ (List.length (toggleFavorite currency favorites) <= 10)%nat
  /\ (forall x, In x (toggleFavorite currency favorites) ->
        isCurrencyCode x = true)
  /\ (forall x, x <> sanitizeCurrencyCode currency ->
        (In x (toggleFavorite currency favorites) <-> In x favorites))
  /\ Permutation (toggleFavorite currency (toggleFavorite currency favorites))
                 favorites
  /\ (~ In (sanitizeCurrencyCode currency) favorites ->
      toggleFavorite currency (toggleFavorite currency favorites) = favorites).
Proof.
  intros Hnd Hlen Hv.
  destruct (toggleFavorite_keeps currency favorites Hnd Hlen Hv) as (K1 & K2 & K3).
  split; [exact K1|]. split; [exact K2|]. split; [exact K3|].
  clear K1 K2 K3. unfold toggleFavorite. cbv zeta.
  set (code := sanitizeCurrencyCode currency).
  destruct (nonempty code) eqn:N; cbn [negb].
  2:{ split; [reflexivity|]. split; reflexivity. }
  destruct (includes favorites code) eqn:I.
  - apply includes_In in I.
    assert (Hni : ~ In code (without code favorites)).
    { rewrite without_In. tauto. }
    assert (I' : includes (without code favorites) code = false).
    { destruct (includes _ code) eqn:E; [|reflexivity].
      apply includes_In in E. contradiction. }
    assert (L : (List.length (without code favorites) <? 10)%nat = true).
    { apply Nat.ltb_lt. unfold without.
      assert (S (List.length (filter (fun c => negb (String.eqb c code)) favorites))
              <= List.length favorites)%nat; [|lia].
      clear -I. induction favorites as [|y r IH]; [destruct I|].
      cbn [filter]. destruct (String.eqb_spec y code) as [->|Hne]; cbn [negb].
      - pose proof (filter_length_le (fun c => negb (String.eqb c code)) r).
        simpl. lia.
      - destruct I as [->|I]; [contradiction|]. simpl. specialize (IH I). lia. }
    rewrite I', L. split; [|split].
    + intros x Hx. rewrite without_In. tauto.
    + now apply without_Permutation.
    + intros Hn. contradiction.
  - assert (Hni : ~ In code favorites).
    { intros Hin. apply includes_In in Hin. congruence. }
    destruct (List.length favorites <? 10)%nat eqn:L.
    + assert (I' : includes (favorites ++ [code]) code = true).
      { apply includes_In, in_or_app. right. now left. }
      rewrite I', (without_app_self code favorites Hni).
      split; [|split; reflexivity].
      intros x Hx. rewrite in_app_iff. simpl. intuition congruence.
    + rewrite I, L. split; [reflexivity|]. split; reflexivity.
Qed.

(** X22: a target currency that is added to the targets of the multiple
    conversion and removed again leaves the targets as they were, whether the
    addition was accepted or refused; an addition never takes the targets
    beyond five and adds nothing that is present. *)
Theorem target_add_remove (currency : string) (multipleTargets : list string) :
  ~ In (sanitizeCurrencyCode currency) multipleTargets ->
  removeTargetCurrency currency (addTargetCurrency currency multipleTargets)
  = multipleTargets
  /\ (List.length (addTargetCurrency currency multipleTargets)
      <= Nat.max 5 (List.length multipleTargets))%nat
  /\ (NoDup multipleTargets ->
      NoDup (addTargetCurrency currency multipleTargets))
  /\ ((5 <= List.length multipleTargets)%nat ->
      addTargetCurrency currency multipleTargets = multipleTargets).
Proof.
  intros Hni. unfold removeTargetCurrency, addTargetCurrency, canAddTarget.
  cbv zeta. set (code := sanitizeCurrencyCode currency) in *.
  destruct (negb (nonempty code) || includes multipleTargets code) eqn:G;
    cbn [orb].
  - split; [now apply without_absent|]. split; [lia|]. split; auto.
  - destruct (List.length multipleTargets <? 5)%nat eqn:L; cbn [negb].
    + apply Nat.ltb_lt in L. split; [now apply without_app_self|].
      split; [rewrite length_app; cbn [List.length]; lia|].
      split; [|intros H5; exfalso; lia].
      intros Hnd. apply NoDup_app; [assumption | repeat constructor; intros [] | ].
      intros x Hx [<-|[]]. contradiction.
    + split; [now apply without_absent|]. split; [lia|]. split; auto.
Qed.

End ConverterFacts.

Lemma toggleFavorite_twice_witness :
  NoDup Converter.initialFavorites
  /\ Permutation
       (Converter.toggleFavorite "gbp"%string
          (Converter.toggleFavorite "gbp"%string Converter.initialFavorites))
       Converter.initialFavorites.
Proof.
  assert (Hnd : NoDup Converter.initialFavorites).
  { unfold Converter.initialFavorites.
    repeat constructor; simpl; intuition discriminate. }
  assert (Hlen : (List.length Converter.initialFavorites <= 10)%nat)
    by (simpl; lia).
  assert (Hv : forall x, In x Converter.initialFavorites ->
                         Keys.isCurrencyCode x = true).
  { intros x H. simpl in H.
    repeat (destruct H as [<-|H]; [reflexivity|]). destruct H. }
  split; [exact Hnd|].
  destruct (toggleFavorite_twice "gbp"%string Converter.initialFavorites
              Hnd Hlen Hv) as (_ & _ & _ & _ & P & _).
  exact P.
Defined.

Lemma target_add_remove_witness :
  ~ In (Converter.sanitizeCurrencyCode "jpy"%string) ["USD"%string; "GBP"%string]
  /\ Converter.removeTargetCurrency "jpy"%string
       (Converter.addTargetCurrency "jpy"%string ["USD"%string; "GBP"%string])
     = ["USD"%string; "GBP"%string].
Proof.
  assert (H : ~ In (Converter.sanitizeCurrencyCode "jpy"%string)
                   ["USD"%string; "GBP"%string]).
  { vm_compute. intuition discriminate. }
  split; [exact H|].
  exact (proj1 (target_add_remove "jpy"%string ["USD"%string; "GBP"%string] H)).
Defined.

(* ================================================================== *)
(** * The chart: overlay currencies *)
(* ================================================================== *)

Section ChartFacts.

Import JsString Converter Chart.

Lemma upper_letter (c : ascii) :
  isLetter c = true -> forallb_str isAZ (upper c) = true.
Proof.
  destruct c as [[] [] [] [] [] [] [] []]; vm_compute; intros H;
    try reflexivity; discriminate H.
Qed.

Lemma forallb_str_app (p : ascii -> bool) (s t : string) :
  forallb_str p (s ++ t) = forallb_str p s && forallb_str p t.
Proof.
  induction s as [|c r IH]; simpl; [reflexivity|].
  now rewrite IH, andb_assoc.
Qed.

Lemma forallb_str_slice0 (p : ascii -> bool) (n : nat) (s : string) :
  forallb_str p s = true -> forallb_str p (slice0 n s) = true.
Proof.
  revert s. induction n as [|n IH]; intros [|c r]; simpl; try reflexivity.
  intros H. apply andb_true_iff in H. destruct H as [H1 H2].
  now rewrite H1, IH.
Qed.

Lemma chart_code_letters (code : string) :
  forallb_str isAZ (Chart.sanitizeCurrencyCode code) = true
  /\ (String.length (Chart.sanitizeCurrencyCode code) <= 3)%nat.
Proof.
  unfold Chart.sanitizeCurrencyCode.
  destruct code as [|c0 r0]; [split; [reflexivity | simpl; lia]|].
  split; [|apply slice0_length].
  apply forallb_str_slice0.
  generalize (String c0 r0). intros s.
  induction s as [|c r IH]; [reflexivity|]. cbn [keep].
  destruct (isLetter c) eqn:L; [|exact IH].
  cbn [toUpperCase]. now rewrite forallb_str_app, (upper_letter c L), IH.
Qed.

(** X23: the overlay currencies of the chart stay a list of at most five
    distinct codes that never holds the selected currency, whatever is
    toggled; each is one to three letters A-Z, not necessarily three; and
    toggling changes the membership of no other code. *)
Theorem toggleOverlayCurrency_invariant (selectedCurrency code : string)
    (overlays : list string) :
  NoDup overlays -> (List.length overlays <= 5)%nat ->
  ~ In selectedCurrency overlays ->
  (forall x, In x overlays ->
     nonempty x = true /\ forallb_str isAZ x = true
     /\ (String.length x <= 3)%nat) ->
  NoDup (toggleOverlayCurrency selectedCurrency code overlays)
  /\ (List.length (toggleOverlayCurrency selectedCurrency code overlays) <= 5)%nat
  /\ ~ In selectedCurrency (toggleOverlayCurrency selectedCurrency code overlays)
  /\ (forall x, In x (toggleOverlayCurrency selectedCurrency code overlays) ->
        nonempty x = true /\ forallb_str isAZ x = true
        /\ (String.length x <= 3)%nat)
  /\ (forall x, x <> Chart.sanitizeCurrencyCode code ->
        (In x (toggleOverlayCurrency selectedCurrency code overlays)
         <-> In x overlays)).
Proof.
  intros Hnd Hlen Hsel Hv. unfold toggleOverlayCurrency. cbv zeta.
  set (sanitized := Chart.sanitizeCurrencyCode code).
  assert (Hsame : NoDup overlays
                  /\ (List.length overlays <= 5)%nat
                  /\ ~ In selectedCurrency overlays
                  /\ (forall x, In x overlays ->
                        nonempty x = true /\ forallb_str isAZ x = true
                        /\ (String.length x <= 3)%nat)
                  /\ (forall x, x <> sanitized -> (In x overlays <-> In x overlays)))
    by (repeat (split; [assumption|]); intros; tauto).
  destruct (nonempty sanitized) eqn:N; cbn [negb orb]; [|exact Hsame].
  destruct (String.eqb_spec sanitized selectedCurrency) as [E|E];
    [exact Hsame|].
  destruct (includes overlays sanitized) eqn:I.
  - split; [now apply NoDup_filter|]. split.
    + unfold without.
      pose proof (filter_length_le
                    (fun c => negb (String.eqb c sanitized)) overlays). lia.
    + split; [rewrite without_In; tauto|]. split.
      * intros x Hx. apply without_In in Hx. now apply Hv.
      * intros x Hx. rewrite without_In. tauto.
  - assert (Hni : ~ In sanitized overlays).
    { intros Hin. apply includes_In in Hin. congruence. }
    destruct (List.length overlays <? 5)%nat eqn:L; [|exact Hsame].
    apply Nat.ltb_lt in L. split; [|split; [|split; [|split]]].
    + apply NoDup_app; [assumption | repeat constructor; intros [] | ].
      intros x Hx [<-|[]]. contradiction.
    + rewrite length_app. cbn [List.length]. lia.
    + rewrite in_app_iff. simpl. intuition congruence.
    + intros x Hx. apply in_app_or in Hx. destruct Hx as [Hx|[<-|[]]]; auto.
      split; [exact N|]. apply chart_code_letters.
    + intros x Hx. rewrite in_app_iff. simpl. intuition congruence.
Qed.

End ChartFacts.

Lemma toggleOverlayCurrency_invariant_witness :
  NoDup ["GBP"%string]
  /\ Chart.toggleOverlayCurrency "USD"%string "e-u"%string ["GBP"%string]
     = ["GBP"%string; "EU"%string]
  /\ ~ In "USD"%string
         (Chart.toggleOverlayCurrency "USD"%string "e-u"%string ["GBP"%string]).
Proof.
  assert (Hnd : NoDup ["GBP"%string])
    by (repeat constructor; simpl; intuition discriminate).
  assert (Hlen : (List.length ["GBP"%string] <= 5)%nat) by (simpl; lia).
  assert (Hsel : ~ In "USD"%string ["GBP"%string])
    by (simpl; intuition discriminate).
  assert (Hv : forall x, In x ["GBP"%string] ->
                 JsString.nonempty x = true
                 /\ JsString.forallb_str JsString.isAZ x = true
                 /\ (String.length x <= 3)%nat).
  { intros x [<-|[]]. repeat split; simpl; lia. }
  split; [exact Hnd|]. split; [reflexivity|].
  destruct (toggleOverlayCurrency_invariant "USD"%string "e-u"%string
              ["GBP"%string] Hnd Hlen Hsel Hv) as (_ & _ & H & _).
  exact H.
Defined.

(* ================================================================== *)
(** * The rates table *)
(* ================================================================== *)

Section RatesTableFacts.

Import JsString JsArray Strength RatesTable.

Lemma slice_range {A : Type} (a b : nat) (l : list A) :
  (a <= b)%nat ->
  slice (Z.of_nat a) (Z.of_nat b) l = firstn (b - a) (skipn a l).
Proof.
  intros Hab. unfold slice. cbv zeta.
  destruct (Z.of_nat a <? 0)%Z eqn:Ea; [apply Z.ltb_lt in Ea; lia|].
  destruct (Z.of_nat b <? 0)%Z eqn:Eb; [apply Z.ltb_lt in Eb; lia|].
  destruct (Nat.le_gt_cases a (List.length l)) as [H|H].
  - rewrite (Z.min_l (Z.of_nat a)) by lia. rewrite Nat2Z.id.
    destruct (Nat.le_gt_cases b (List.length l)) as [H'|H'].
    + rewrite Z.min_l by lia. f_equal. lia.
    + rewrite Z.min_r by lia.
      rewrite !firstn_all2; try reflexivity; rewrite length_skipn; lia.
  - rewrite (Z.min_r (Z.of_nat a)) by lia. rewrite Nat2Z.id.
    rewrite !skipn_all2 by lia. now rewrite !firstn_nil.
Qed.

Lemma firstn_plus {A : Type} (a b : nat) (l : list A) :
  firstn (a + b) l = (firstn a l ++ firstn b (skipn a l))%list.
Proof.
  revert l. induction a as [|a IH]; intros [|x r]; simpl;
    try reflexivity.
  - now rewrite firstn_nil.
  - now rewrite IH.
Qed.

Lemma chunks_firstn {A : Type} (s : nat) (l : list A) (n : nat) :
  List.concat (map (fun i => firstn s (skipn (i * s) l)) (seq 0 n))
  = firstn (n * s) l.
Proof.
  induction n as [|n IH]; [reflexivity|].
  rewrite seq_S, map_app, concat_app, IH. cbn [map List.concat Nat.add].
  rewrite app_nil_r. replace (S n * s)%nat with (n * s + s)%nat by lia.
  now rewrite firstn_plus.
Qed.

Lemma ceilDiv_bounds (len s : Z) :
  (0 <= len)%Z -> (0 < s)%Z ->
  ((ceilDiv len s - 1) * s < len <= ceilDiv len s * s)%Z
  /\ (0 <= ceilDiv len s)%Z.
Proof.
  intros Hl Hs. unfold ceilDiv.
  pose proof (Z.div_mod (- len) s ltac:(lia)) as D.
  pose proof (Z.mod_pos_bound (- len) s Hs) as M.
  set (q := (- len / s)%Z) in *. set (r := (- len mod s)%Z) in *.
  split; [nia|]. nia.
Qed.

Lemma page_slice {A : Type} (filtered : list A) (i : nat) (pageSize : Z) :
  (0 < pageSize)%Z ->
  paginatedCurrencies filtered (Z.of_nat i + 1) pageSize
  = firstn (Z.to_nat pageSize) (skipn (i * Z.to_nat pageSize) filtered).
Proof.
  intros Hs. unfold paginatedCurrencies. cbv zeta.
  replace ((Z.of_nat i + 1 - 1) * pageSize)%Z
    with (Z.of_nat (i * Z.to_nat pageSize)) by nia.
  replace (Z.of_nat (i * Z.to_nat pageSize) + pageSize)%Z
    with (Z.of_nat (i * Z.to_nat pageSize + Z.to_nat pageSize)) by lia.
  rewrite slice_range by lia. f_equal. lia.
Qed.

(** X24: for a positive page size the pages of the rates table partition the
    filtered rows: the pages 1 to [totalPages], one after the other, are the
    filtered rows in their order; each of these pages holds at least one row
    and at most [pageSize], and every page beyond them is empty. *)
Theorem pages_partition {A : Type} (filtered : list A) (pageSize : Z) :
  (0 < pageSize)%Z ->
  List.concat (map (fun i => paginatedCurrencies filtered (Z.of_nat i + 1) pageSize)
              (seq 0 (Z.to_nat (totalPages filtered pageSize))))
  = filtered
  /\ (forall page, (1 <= page <= totalPages filtered pageSize)%Z ->
        paginatedCurrencies filtered page pageSize <> []
        /\ (Z.of_nat (List.length (paginatedCurrencies filtered page pageSize))
            <= pageSize)%Z)
  /\ (forall page, (totalPages filtered pageSize < page)%Z ->
        paginatedCurrencies filtered page pageSize = []).
Proof.
  intros Hs. unfold totalPages.
  destruct (ceilDiv_bounds (Z.of_nat (List.length filtered)) pageSize
              ltac:(lia) Hs) as [[Hlo Hhi] Hn].
  set (n := ceilDiv (Z.of_nat (List.length filtered)) pageSize) in *.
  split; [|split].
  - rewrite (map_ext _ (fun i => firstn (Z.to_nat pageSize)
                                   (skipn (i * Z.to_nat pageSize) filtered)))
      by (intros i; now apply page_slice).
    rewrite chunks_firstn. apply firstn_all2. nia.
  - intros page Hp.
    replace page with (Z.of_nat (Z.to_nat (page - 1)) + 1)%Z by lia.
    rewrite page_slice by exact Hs.
    set (i := Z.to_nat (page - 1)).
    assert (Hi : (Z.of_nat i * pageSize < Z.of_nat (List.length filtered))%Z)
      by (subst i; nia).
    split.
    + intros E. apply (f_equal (@List.length A)) in E.
      rewrite length_firstn, length_skipn in E. simpl in E. nia.
    + rewrite length_firstn. lia.
  - intros page Hp.
    replace page with (Z.of_nat (Z.to_nat (page - 1)) + 1)%Z by lia.
    rewrite page_slice by exact Hs.
    rewrite skipn_all2; [now rewrite firstn_nil|]. nia.
Qed.

Lemma run_page_bounds (total : Z) (ops : list PageOp) : forall current,
  (1 <= current <= Z.max 1 total)%Z ->
  (1 <= fold_left (run_page total) ops current <= Z.max 1 total)%Z.
Proof.
  induction ops as [|op r IH]; intros current H; simpl; [exact H|].
  apply IH. destruct op as [page| |]; simpl.
  - unfold goToPage. lia.
  - unfold previousPage. destruct (1 <? current)%Z eqn:E; [|exact H].
    apply Z.ltb_lt in E. lia.
  - unfold nextPage. destruct (current <? total)%Z eqn:E; [|exact H].
    apply Z.ltb_lt in E. lia.
Qed.

(** X25: the page controls never lead off the table: starting on page 1,
    after any sequence of [goToPage], [previousPage] and [nextPage] over the
    same rows the current page is at least 1 and at most [totalPages]
    (page 1 when there is no row), and when there are rows the page shown
    is not empty. *)
Theorem page_controls_stay_on_table {A : Type} (filtered : list A)
    (pageSize : Z) (ops : list PageOp) :
  (0 < pageSize)%Z ->
  let current :=
    fold_left (run_page (totalPages filtered pageSize)) ops 1%Z in
  (1 <= current <= Z.max 1 (totalPages filtered pageSize))%Z
  /\ (filtered <> [] -> paginatedCurrencies filtered current pageSize <> []).
Proof.
  intros Hs current.
  pose proof (run_page_bounds (totalPages filtered pageSize) ops 1%Z ltac:(lia))
    as Hb. fold current in Hb.
  split; [exact Hb|]. intros Hne.
  assert (Hlen : (0 < Z.of_nat (List.length filtered))%Z).
  { destruct filtered; [contradiction | simpl; lia]. }
  destruct (ceilDiv_bounds (Z.of_nat (List.length filtered)) pageSize
              ltac:(lia) Hs) as [[Hlo Hhi] Hn].
  assert (Ht : (1 <= totalPages filtered pageSize)%Z).
  { unfold totalPages. nia. }
  replace current with (Z.of_nat (Z.to_nat (current - 1)) + 1)%Z by lia.
  rewrite page_slice by exact Hs.
  intros E. apply (f_equal (@List.length A)) in E.
  rewrite length_firstn, length_skipn in E. simpl in E.
  unfold totalPages in *. nia.
Qed.

End RatesTableFacts.

Lemma pages_partition_witness :
  (0 < 2)%Z
  /\ List.concat (map (fun i => RatesTable.paginatedCurrencies [1; 2; 3; 4; 5]%nat
                             (Z.of_nat i + 1) 2)
                 (seq 0 (Z.to_nat (RatesTable.totalPages [1; 2; 3; 4; 5]%nat 2))))
     = [1; 2; 3; 4; 5]%nat.
Proof.
  assert (H : (0 < 2)%Z) by lia.
  split; [exact H|].
  exact (proj1 (pages_partition [1; 2; 3; 4; 5]%nat 2 H)).
Defined.

Lemma page_controls_stay_on_table_witness :
  (0 < 2)%Z
  /\ RatesTable.paginatedCurrencies [1; 2; 3; 4; 5]%nat
       (fold_left (RatesTable.run_page (RatesTable.totalPages [1; 2; 3; 4; 5]%nat 2))
                  [RatesTable.Next; RatesTable.GoTo 9; RatesTable.Next] 1%Z)
       2
     <> [].
Proof.
  assert (H : (0 < 2)%Z) by lia.
  split; [exact H|].
  apply (proj2 (page_controls_stay_on_table [1; 2; 3; 4; 5]%nat 2
                  [RatesTable.Next; RatesTable.GoTo 9; RatesTable.Next] H)).
  discriminate.
Defined.

Section PageNumberFacts.

Import RatesTable.
Local Open Scope Z_scope.

Ltac unroll_range :=
  match goal with
  | |- context [seq 0 (Z.to_nat ?n)] =>
      let v := eval vm_compute in (Z.to_nat n) in
      change (Z.to_nat n) with v
  end;
  cbn [seq map app List.length In hd_error last filter];
  change (Z.of_nat 0) with 0; change (Z.of_nat 1) with 1;
  change (Z.of_nat 2) with 2; change (Z.of_nat 3) with 3;
  change (Z.of_nat 4) with 4; change (Z.of_nat 7) with 7.

Ltac page_entries :=
  repeat match goal with
         | |- context [(?x =? -1)] => destruct (Z.eqb_spec x (-1)); try lia
         end;
  cbn [negb].

(** X26: for a current page between 1 and the number of pages, the page
    numbers that the table offers begin with page 1, end with the last page
    and hold the current page; they are seven entries when there are more
    than seven pages and all the pages otherwise; every entry is a page or
    the gap marker -1, and the pages among them increase strictly, so no
    page is offered twice. *)
Theorem getPageNumbers_shape (total current : Z) :
  1 <= current <= total ->
  In current (getPageNumbers total current)
  /\ Z.of_nat (List.length (getPageNumbers total current)) = Z.min total 7
  /\ hd_error (getPageNumbers total current) = Some 1
  /\ last (getPageNumbers total current) 0 = total
  /\ (forall p, In p (getPageNumbers total current) ->
        p = -1 \/ 1 <= p <= total)
  /\ StronglySorted Z.lt
       (filter (fun p => negb (p =? -1)) (getPageNumbers total current))
  /\ (total <= 7 -> ~ In (-1) (getPageNumbers total current)).
Proof.
  intros H. unfold getPageNumbers, pushRange.
  destruct (total <=? 7) eqn:T.
  - apply Z.leb_le in T.
    assert (Ht : total = 1 \/ total = 2 \/ total = 3 \/ total = 4
                 \/ total = 5 \/ total = 6 \/ total = 7) by lia.
    destruct Ht as [->|[->|[->|[->|[->|[->| ->]]]]]];
      match goal with
      | |- context [map ?f (seq 0 ?n)] =>
          let v := eval vm_compute in (map f (seq 0 n)) in
          change (map f (seq 0 n)) with v
      end;
      simpl; (split; [lia|]); (split; [reflexivity|]); (split; [reflexivity|]);
      (split; [reflexivity|]); (split; [intros p Hp; lia|]);
      (split; [repeat constructor; lia | intros _ Hp; lia]).
  - apply Z.leb_gt in T. rewrite (Z.min_r total 7) by lia.
    destruct (current <=? 3) eqn:C3.
    + apply Z.leb_le in C3. unroll_range.
      split; [lia|]. split; [reflexivity|]. split; [reflexivity|].
      split; [reflexivity|]. split; [intros p Hp; lia|].
      split; [|intros HT; lia].
      page_entries. repeat constructor; lia.
    + apply Z.leb_gt in C3. destruct (total - 2 <=? current) eqn:C2.
      * apply Z.leb_le in C2.
        replace (total - (total - 4) + 1) with 5 by lia. unroll_range.
        split; [lia|]. split; [reflexivity|]. split; [reflexivity|].
        split; [lia|]. split; [intros p Hp; lia|].
        split; [|intros HT; lia].
        page_entries. repeat constructor; lia.
      * apply Z.leb_gt in C2.
        replace (current + 1 - (current - 1) + 1) with 3 by lia. unroll_range.
        split; [lia|]. split; [reflexivity|]. split; [reflexivity|].
        split; [reflexivity|]. split; [intros p Hp; lia|].
        split; [|intros HT; lia].
        page_entries. repeat constructor; lia.
Qed.

End PageNumberFacts.

Lemma getPageNumbers_shape_witness :
  (1 <= 6 <= 20)%Z
  /\ RatesTable.getPageNumbers 20 6 = [1; -1; 5; 6; 7; -1; 20]%Z
  /\ In 6%Z (RatesTable.getPageNumbers 20 6).
Proof.
  assert (H : (1 <= 6 <= 20)%Z) by lia.
  split; [exact H|]. split; [reflexivity|].
  exact (proj1 (getPageNumbers_shape 20 6 H)).
Defined.

Section SearchFacts.

Import JsString Strength RatesTable.

Lemma lower_not_upper (c : ascii) : isAZ (lower c) = false.
Proof. destruct c as [[] [] [] [] [] [] [] []]; reflexivity. Qed.

Lemma toLowerCase_no_upper (s : string) :
  forallb_str (fun c => negb (isAZ c)) (toLowerCase s) = true.
Proof.
  induction s as [|c r IH]; [reflexivity|].
  cbn [toLowerCase forallb_str]. now rewrite lower_not_upper, IH.
Qed.

Lemma forallb_str_trimStart (p : ascii -> bool) (s : string) :
  forallb_str p s = true -> forallb_str p (trimStart s) = true.
Proof.
  induction s as [|c r IH]; [reflexivity|]. cbn [trimStart].
  destruct (is_ws c); [|auto]. cbn [forallb_str]. intros H.
  apply andb_true_iff in H. now apply IH.
Qed.

Lemma forallb_str_trimEnd (p : ascii -> bool) (s : string) :
  forallb_str p s = true -> forallb_str p (trimEnd s) = true.
Proof.
  induction s as [|c r IH]; [reflexivity|]. cbn [trimEnd forallb_str].
  intros H. apply andb_true_iff in H. destruct H as [H1 H2].
  specialize (IH H2). destruct (trimEnd r) as [|d t].
  - destruct (is_ws c); [reflexivity|]. cbn [forallb_str]. now rewrite H1.
  - cbn [forallb_str] in *. now rewrite H1, IH.
Qed.

Lemma forallb_str_keep (p q : ascii -> bool) (s : string) :
  forallb_str p s = true -> forallb_str p (keep q s) = true.
Proof.
  induction s as [|c r IH]; [reflexivity|]. cbn [keep forallb_str].
  intros H. apply andb_true_iff in H. destruct H as [H1 H2].
  destruct (q c); [|auto]. cbn [forallb_str]. now rewrite H1, IH.
Qed.

Lemma sanitizeInput_keeps (p : ascii -> bool) (s : string) :
  forallb_str p s = true -> forallb_str p (sanitizeInput s) = true.
Proof.
  intros H. unfold sanitizeInput. destruct s; [reflexivity|].
  now apply forallb_str_trimEnd, forallb_str_trimStart, forallb_str_keep.
Qed.

Lemma includes_first (p : ascii -> bool) (s : string) (c : ascii) (t : string) :
  forallb_str p s = true -> includes s (String c t) = true -> p c = true.
Proof.
  induction s as [|d r IH]; cbn [includes startsWith forallb_str].
  - discriminate.
  - intros H. apply andb_true_iff in H. destruct H as [H1 H2].
    intros I. apply orb_true_iff in I. destruct I as [I|I]; [|now apply IH].
    apply andb_true_iff in I. destruct I as [I _].
    apply Ascii.eqb_eq in I. now subst.
Qed.

(** X27: a search in the rates table never finds a currency by its code: the
    term is put in lower case and the code in upper case before they are
    compared, so for a term that is not empty after sanitizing no code
    contains it, and the rows kept are exactly those whose name contains
    the term. *)
Theorem search_ignores_codes (searchTerm : string)
    (currencies : list CurrencyData) :
  nonempty (sanitizeInput (trim (toLowerCase searchTerm))) = true ->
  (forall code,
     includes (sanitizeCurrencyCode code)
              (sanitizeInput (trim (toLowerCase searchTerm))) = false)
  /\ searchedCurrencies searchTerm currencies
     = filter (fun c =>
                 includes (sanitizeInput (toLowerCase (cd_name c)))
                          (sanitizeInput (trim (toLowerCase searchTerm))))
              currencies.
Proof.
  intros N.
  assert (Hlow : forallb_str (fun c => negb (isAZ c))
                   (sanitizeInput (trim (toLowerCase searchTerm))) = true).
  { apply sanitizeInput_keeps, forallb_str_trimEnd, forallb_str_trimStart,
      toLowerCase_no_upper. }
  assert (Hcode : forall code,
             includes (sanitizeCurrencyCode code)
                      (sanitizeInput (trim (toLowerCase searchTerm))) = false).
  { intros code.
    destruct (sanitizeInput (trim (toLowerCase searchTerm))) as [|ch t];
      [discriminate|].
    destruct (includes _ _) eqn:I; [|reflexivity].
    pose proof (includes_first isAZ _ ch t
                  (proj1 (chart_code_letters code)) I) as U.
    cbn [forallb_str] in Hlow. now rewrite U in Hlow. }
  split; [exact Hcode|]. unfold searchedCurrencies. cbv zeta.
  destruct (trim (toLowerCase searchTerm)) as [|c0 r0] eqn:T;
    [discriminate|].
  cbn [nonempty]. apply filter_ext. intros c. now rewrite Hcode.
Qed.

End SearchFacts.

Lemma search_ignores_codes_witness :
  JsString.nonempty
    (RatesTable.sanitizeInput
       (JsString.trim (RatesTable.toLowerCase "usd"%string))) = true
  /\ RatesTable.searchedCurrencies "usd"%string
       [Strength.mkCurrencyData "USD"%string "US Dollar"%string 1.1%float
          None None]
     = [].
Proof.
  assert (H : JsString.nonempty
                (RatesTable.sanitizeInput
                   (JsString.trim (RatesTable.toLowerCase "usd"%string))) = true)
    by reflexivity.
  split; [exact H|].
  rewrite (proj2 (search_ignores_codes "usd"%string
                    [Strength.mkCurrencyData "USD"%string "US Dollar"%string
                       1.1%float None None] H)).
  reflexivity.
Defined.

(* ================================================================== *)
(** * Display names and the keys of requests *)
(* ================================================================== *)

Section NameFacts.

Import JsString Keys JsObject Strength CurrencyService.

Lemma keep_all (p : ascii -> bool) (s : string) :
  forallb_str p (keep p s) = true.
Proof.
  induction s as [|c r IH]; [reflexivity|]. cbn [keep].
  destruct (p c) eqn:E; [|exact IH]. cbn [forallb_str]. now rewrite E, IH.
Qed.

Lemma keep_fixed (p : ascii -> bool) (s : string) :
  forallb_str p s = true -> keep p s = s.
Proof.
  induction s as [|c r IH]; [reflexivity|]. cbn [keep forallb_str].
  intros H. apply andb_true_iff in H. destruct H as [H1 H2].
  now rewrite H1, IH.
Qed.

Lemma slice0_fixed (n : nat) (s : string) :
  (String.length s <= n)%nat -> slice0 n s = s.
Proof.
  revert s. induction n as [|n IH]; intros [|c r]; simpl; try reflexivity.
  - lia.
  - intros H. rewrite IH by lia. reflexivity.
Qed.

(** X28: [sanitizeString] never gives a text that holds one of the five
    markup characters or that is longer than 100 characters, and it leaves a
    text as it is that is trimmed, free of these characters and at most 100
    characters long; so the name of every item of the currency data is free
    of markup, whatever names the API gives. *)
Theorem sanitizeString_clean (input : string) :
  forallb_str (fun c => negb (isMarkup c)) (sanitizeString input) = true
  /\ (String.length (sanitizeString input) <= 100)%nat
  /\ (trim input = input ->
      forallb_str (fun c => negb (isMarkup c)) input = true ->
      (String.length input <= 100)%nat ->
      sanitizeString input = input)
  /\ (forall symbols latest historical currencyMap item,
        In item (currencyData symbols latest historical currencyMap) ->
        exists code,
          cd_name item = sanitizeString (nameOf code currencyMap)).
Proof.
  split; [|split; [|split]].
  - unfold sanitizeString. destruct input; [reflexivity|].
    apply forallb_str_slice0, keep_all.
  - unfold sanitizeString. destruct input; [simpl; lia|]. apply slice0_length.
  - intros Ht Hm Hl. unfold sanitizeString. destruct input as [|c r]; [reflexivity|].
    rewrite Ht, (keep_fixed _ _ Hm). now apply slice0_fixed.
  - intros symbols latest historical currencyMap item. unfold currencyData.
    destruct latest as [lr|]; [|intros []].
    destruct historical as [hr|]; [|intros []].
    rewrite currencyData_loop. cbn [app]. intros Hin.
    apply in_flat_map in Hin. destruct Hin as (code & _ & Hin).
    unfold currencyData_step in Hin.
    destruct (lookup code lr); [|destruct Hin].
    destruct (lookup code hr); [|destruct Hin].
    destruct (_ || _); [destruct Hin|].
    destruct Hin as [<-|[]]. now exists code.
Qed.

End NameFacts.

Section KeyFacts.

Import JsString Keys.
Local Open Scope string_scope.

Lemma code_shape (x : string) :
  isCurrencyCode x = true ->
  exists a b c, x = String a (String b (String c EmptyString))
                /\ isAZ a = true /\ isAZ b = true /\ isAZ c = true.
Proof.
  unfold isCurrencyCode. intros H. apply andb_true_iff in H.
  destruct H as [L F]. apply Nat.eqb_eq in L.
  destruct x as [|a [|b [|c [|d r]]]]; try discriminate.
  cbn [forallb_str] in F.
  apply andb_true_iff in F. destruct F as [Fa F].
  apply andb_true_iff in F. destruct F as [Fb F].
  apply andb_true_iff in F. destruct F as [Fc _].
  now exists a, b, c.
Qed.

Lemma join_cons2 (sep x y : string) (r : list string) :
  join sep (x :: y :: r) = x ++ sep ++ join sep (y :: r).
Proof. reflexivity. Qed.

Lemma join_codes_length (l : list string) :
  (forall x, In x l -> isCurrencyCode x = true) ->
  String.length (join "," l) = (4 * List.length l - 1)%nat.
Proof.
  induction l as [|x r IH]; intros Hv; [reflexivity|].
  destruct (code_shape x (Hv x (or_introl eq_refl))) as (a & b & c & -> & _).
  destruct r as [|y t]; [reflexivity|].
  rewrite join_cons2. cbn [append String.length].
  rewrite IH by (intros z Hz; apply Hv; now right).
  cbn [List.length]. lia.
Qed.

Lemma join_codes_injective (l1 : list string) : forall l2,
  (forall x, In x l1 -> isCurrencyCode x = true) ->
  (forall x, In x l2 -> isCurrencyCode x = true) ->
  l1 <> [] -> l2 <> [] ->
  join "," l1 = join "," l2 -> l1 = l2.
Proof.
  induction l1 as [|x r IH]; intros l2 H1 H2 N1 N2 E; [contradiction|].
  destruct l2 as [|x' r']; [contradiction|].
  destruct (code_shape x (H1 x (or_introl eq_refl))) as (a & b & c & -> & _).
  destruct (code_shape x' (H2 x' (or_introl eq_refl))) as (a' & b' & c' & -> & _).
  destruct r as [|y t], r' as [|y' t'].
  - cbn in E. now inversion E.
  - rewrite join_cons2 in E. cbn in E. inversion E.
  - rewrite join_cons2 in E. cbn in E. inversion E.
  - rewrite !join_cons2 in E. cbn [append] in E.
    injection E as -> -> -> E. f_equal.
    apply IH; try discriminate; try assumption.
    + intros z Hz. apply H1. now right.
    + intros z Hz. apply H2. now right.
Qed.

Lemma symbols_text_injective (l1 l2 : list string) :
  (forall x, In x l1 -> isCurrencyCode x = true) ->
  (forall x, In x l2 -> isCurrencyCode x = true) ->
  match l1 with [] => "all" | x :: r => join "," (x :: r) end
  = match l2 with [] => "all" | x :: r => join "," (x :: r) end ->
  l1 = l2.
Proof.
  intros H1 H2 E.
  assert (Hall : forall l, (forall x, In x l -> isCurrencyCode x = true) ->
                           l <> [] -> "all" <> join "," l).
  { intros [|x r] Hv Hne; [contradiction|]. intros C.
    destruct (code_shape x (Hv x (or_introl eq_refl)))
      as (a & b & c & -> & Fa & _).
    destruct r as [|y t].
    - cbn in C. injection C as <- <- <-. discriminate Fa.
    - rewrite join_cons2 in C. cbn in C. inversion C. }
  destruct l1 as [|x r], l2 as [|x' r']; [reflexivity| | |].
  - exfalso. apply (Hall (x' :: r') H2); [discriminate | exact E].
  - exfalso. apply (Hall (x :: r) H1); [discriminate | now symmetry].
  - apply join_codes_injective; try assumption; discriminate.
Qed.

Lemma latestKey_text (base : string) (symbols : option (list string)) :
  latestKey base symbols
  = slice0 200
      ("latest_" ++ sanitizeCurrencyCode base ++ "_"
       ++ match sanitizeCurrencyArray symbols with
          | [] => "all"
          | l => join "," l
          end).
Proof. unfold latestKey. now rewrite requestKey_composition. Qed.

Lemma symbols_text_length (l : list string) :
  (forall x, In x l -> isCurrencyCode x = true) ->
  (String.length (match l with [] => "all" | x :: r => join "," (x :: r) end)
   <= 4 * Nat.max 1 (List.length l) - 1)%nat.
Proof.
  intros Hv. destruct l as [|x r]; [simpl; lia|].
  rewrite (join_codes_length _ Hv). cbn [List.length]. lia.
Qed.

(** X29: the key of a request for the latest rates identifies the request:
    two requests whose sanitized symbol lists hold at most 47 codes have the
    same key only when their sanitized base currencies and their sanitized
    symbol lists are the same, so the cache never answers such a request
    with the rates of another. *)
Theorem latestKey_injective (b1 b2 : string) (s1 s2 : option (list string)) :
  (List.length (sanitizeCurrencyArray s1) <= 47)%nat ->
  (List.length (sanitizeCurrencyArray s2) <= 47)%nat ->
  latestKey b1 s1 = latestKey b2 s2 ->
  sanitizeCurrencyCode b1 = sanitizeCurrencyCode b2
  /\ sanitizeCurrencyArray s1 = sanitizeCurrencyArray s2.
Proof.
  intros L1 L2. rewrite !latestKey_text.
  pose proof (sanitizeCurrencyArray_codes s1) as V1.
  pose proof (sanitizeCurrencyArray_codes s2) as V2.
  pose proof (symbols_text_length _ V1) as T1.
  pose proof (symbols_text_length _ V2) as T2.
  destruct (code_shape _ (sanitizeCurrencyCode_valid b1)) as (a1 & x1 & c1 & -> & _).
  destruct (code_shape _ (sanitizeCurrencyCode_valid b2)) as (a2 & x2 & c2 & -> & _).
  rewrite !slice0_fixed by (cbn [append String.length]; lia).
  cbn [append]. intros E. injection E as -> -> -> E.
  split; [reflexivity|]. now apply symbols_text_injective.
Qed.

(** X30: the keys of the four kinds of request never coincide: a key of the
    latest rates, one of the rates of a past day, one of a time series and
    the key of the currency list differ from each other, whatever the dates,
    base currencies and symbols.  So a cached answer of one kind is never
    handed out as an answer of another kind. *)
Theorem request_kinds_never_collide (date range : string)
    (b1 b2 b3 : string) (s1 s2 s3 : option (list string)) :
  requestKey ["latest"] b1 s1 <> requestKey ["historical"; date] b2 s2
  /\ requestKey ["latest"] b1 s1 <> requestKey ["timeseries"; range] b3 s3
  /\ requestKey ["historical"; date] b2 s2
     <> requestKey ["timeseries"; range] b3 s3
  /\ requestKey ["latest"] b1 s1 <> "currencies"
  /\ requestKey ["historical"; date] b2 s2 <> "currencies"
  /\ requestKey ["timeseries"; range] b3 s3 <> "currencies".
Proof.
  assert (H : forall kind k0 kr rest base symbols,
             kind = String k0 kr ->
             exists tail,
               requestKey (kind :: rest) base symbols = String k0 tail).
  { intros kind k0 kr rest base symbols ->. rewrite requestKey_composition.
    cbn [filter nonempty app].
    destruct (filter nonempty rest ++ _)%list as [|y t] eqn:E.
    - destruct (filter nonempty rest); discriminate E.
    - rewrite join_cons2. cbn [append slice0]. eauto. }
  destruct (H "latest" _ _ [] b1 s1 eq_refl) as [t1 E1].
  destruct (H "historical" _ _ [date] b2 s2 eq_refl) as [t2 E2].
  destruct (H "timeseries" _ _ [range] b3 s3 eq_refl) as [t3 E3].
  rewrite E1, E2, E3. repeat split; discriminate.
Qed.

End KeyFacts.

Lemma latestKey_injective_witness :
  (List.length (Keys.sanitizeCurrencyArray (Some ["usd"; "GBP"]%string)) <= 47)%nat
  /\ Keys.sanitizeCurrencyArray (Some ["usd"; "GBP"]%string)
     = Keys.sanitizeCurrencyArray (Some [" USD"; "gbp"; "usd"]%string).
Proof.
  assert (H1 : (List.length (Keys.sanitizeCurrencyArray (Some ["usd"; "GBP"]%string))
                <= 47)%nat) by (vm_compute; lia).
  assert (H2 : (List.length
                  (Keys.sanitizeCurrencyArray (Some [" USD"; "gbp"; "usd"]%string))
                <= 47)%nat) by (vm_compute; lia).
  assert (E : Keys.latestKey "eur"%string (Some ["usd"; "GBP"]%string)
              = Keys.latestKey "EUR"%string (Some [" USD"; "gbp"; "usd"]%string))
    by (vm_compute; reflexivity).
  split; [exact H1|].
  exact (proj2 (latestKey_injective "eur"%string "EUR"%string _ _ H1 H2 E)).
Defined.

Lemma sanitizeString_clean_witness :
  JsString.trim "US Dollar"%string = "US Dollar"%string
  /\ CurrencyService.sanitizeString "US Dollar"%string = "US Dollar"%string.
Proof.
  assert (H : JsString.trim "US Dollar"%string = "US Dollar"%string)
    by reflexivity.
  split; [exact H|].
  destruct (sanitizeString_clean "US Dollar"%string) as (_ & _ & F & _).
  apply F; [exact H | reflexivity | simpl; lia].
Defined.
